(** * Email-to-invoice ingestion pipeline

    A shallow embedding of the two Supabase edge functions

      - [supabase/functions/gmail-sync/index.ts]
      - [supabase/functions/classify-document/index.ts]

    together with the parts of the SQL migrations they rely on (the
    columns of [gmail_tokens], the [UNIQUE(user_id, gmail_message_id)]
    constraint of [processed_emails] and the [increment_document_count]
    function).

    The handlers are [async] functions that read and write four tables and
    call three remote services.  They are embedded as computations in a
    small state-and-exception monad: the state is the datastore, the list
    of remote calls made so far and the scanner's two counters; an
    exception is a JavaScript [throw].  Everything the handlers cannot
    decide themselves (the clock, the remote services' replies,
    [JSON.parse]) is read from a [World] record.  Datastore statements
    always reach the store; the call from [gmail-sync] to
    [classify-document] always reaches the handler, which runs against the
    same store.

    Claims C1 to C10 of the specification are settled in the second part. *)

From Stdlib Require Import ZArith QArith String Ascii List Bool Lia DecimalString.
Import ListNotations.
Open Scope string_scope.
Open Scope Z_scope.

(** ** JavaScript values used by the handlers *)

Module Js.

(** Truthiness of a string-valued property that may be [undefined]:
    [undefined] and the empty string are falsy. *)
Definition truthy (v : option string) : bool :=
  match v with
  | Some s => negb (s =? "")%string
  | None => false
  end.

(** [v || d] for a string-valued property. *)
Definition or_default (v : option string) (d : string) : string :=
  if truthy v then match v with Some s => s | None => d end else d.

(** [v || 0] for a number-valued property: [undefined] and [0] are falsy. *)
Definition num_or_zero (v : option Q) : Q :=
  match v with
  | Some q => if Qeq_bool q 0 then 0%Q else q
  | None => 0%Q
  end.

(** [ToNumber] on a nullable integer column: [null] converts to [0]. *)
Definition to_number (v : option Z) : Z :=
  match v with Some n => n | None => 0 end.

(** [a >= b] on two nullable integer columns. *)
Definition ge (a b : option Z) : bool := to_number b <=? to_number a.

(** [s.includes(sub)]. *)
Fixpoint includes (sub s : string) : bool :=
  if prefix sub s then true
  else match s with
       | EmptyString => false
       | String _ rest => includes sub rest
       end.

(** Template-literal rendering of a value that may be [undefined]. *)
Definition render (v : option string) : string :=
  match v with Some s => s | None => "undefined" end.

(** Decimal rendering of an integer, as in [`${n}`]. *)
Definition of_Z (n : Z) : string := NilZero.string_of_int (Z.to_int n).

(** [s.replace(/-/g, '/')]. *)
Fixpoint dash_to_slash (s : string) : string :=
  match s with
  | EmptyString => EmptyString
  | String c rest =>
      String (if Ascii.eqb c "-"%char then "/"%char else c) (dash_to_slash rest)
  end.

(** Index of the last occurrence of a character. *)
Fixpoint last_index (c : ascii) (s : string) : option nat :=
  match s with
  | EmptyString => None
  | String a rest =>
      match last_index c rest with
      | Some i => Some (S i)
      | None => if Ascii.eqb a c then Some 0%nat else None
      end
  end.

End Js.

(** ** Dates

    A [Date] is its time value: milliseconds since the epoch, in UTC (the
    edge runtime's local time zone is UTC, so [getFullYear]/[setFullYear]
    work on UTC fields).  A time value outside [+-8.64e15] is the invalid
    date; [NaN] arithmetic producing a date is modelled by [None]. *)

Module JsDate.

Definition ms_per_day : Z := 86400000.
Definition max_time : Z := 8640000000000000.

Definition valid (t : Z) : bool := (- max_time <=? t) && (t <=? max_time).

Definition day (t : Z) : Z := t / ms_per_day.
Definition time_within_day (t : Z) : Z := t mod ms_per_day.

(** Proleptic Gregorian calendar: day number (days since 1970-01-01) of a
    year/month/day triple.  A day-of-month past the end of the month
    carries into the following month, as [MakeDay] does. *)
Definition days_from_civil (y m d : Z) : Z :=
  let y' := if m <=? 2 then y - 1 else y in
  let era := y' / 400 in
  let yoe := y' - era * 400 in
  let mp := if 2 <? m then m - 3 else m + 9 in
  let doy := (153 * mp + 2) / 5 + d - 1 in
  let doe := yoe * 365 + yoe / 4 - yoe / 100 + doy in
  era * 146097 + doe - 719468.

(** Year, month (1..12) and day of month (1..31) of a day number. *)
Definition civil_from_days (z : Z) : Z * Z * Z :=
  let z' := z + 719468 in
  let era := z' / 146097 in
  let doe := z' - era * 146097 in
  let yoe := (doe - doe / 1460 + doe / 36524 - doe / 146096) / 365 in
  let doy := doe - (365 * yoe + yoe / 4 - yoe / 100) in
  let mp := (5 * doy + 2) / 153 in
  let d := doy - (153 * mp + 2) / 5 + 1 in
  let m := if mp <? 10 then mp + 3 else mp - 9 in
  let y := yoe + era * 400 in
  (if m <=? 2 then y + 1 else y, m, d).

(** Left-pad a non-negative number with zeros to [width] digits. *)
Definition pad (width : nat) (n : Z) : string :=
  let digits := Js.of_Z n in
  let fix zeros (k : nat) : string :=
    match k with O => EmptyString | S k' => String "0"%char (zeros k') end in
  zeros (width - String.length digits)%nat ++ digits.

(** The year field of [toISOString]: four digits for years 0..9999,
    otherwise a sign and six digits. *)
Definition iso_year (y : Z) : string :=
  if (0 <=? y) && (y <=? 9999) then pad 4 y
  else if y <? 0 then "-" ++ pad 6 (- y)
  else "+" ++ pad 6 y.

(** [date.toISOString().split('T')[0]]: the calendar date of a valid
    date.  [toISOString] throws a [RangeError] on the invalid date, which
    is [None] here. *)
Definition iso_date (t : option Z) : option string :=
  match t with
  | Some t =>
      if valid t then
        let '(y, m, d) := civil_from_days (day t) in
        Some (iso_year y ++ "-" ++ pad 2 m ++ "-" ++ pad 2 d)
      else None
  | None => None
  end.

(** [d.setFullYear(d.getFullYear() - 1)]. *)
Definition minus_one_year (t : Z) : Z :=
  let '(y, m, d) := civil_from_days (day t) in
  days_from_civil (y - 1) m d * ms_per_day + time_within_day t.

End JsDate.

(** ** The datastore

    One record per table, holding the columns the handlers read or write.
    Tables are lists of rows; every query below is the list operation of
    the SQL statement the client library sends. *)

Module GmailTokens.
(** A row as [gmail-sync] sees it after [select('*')]: the columns of
    [CREATE TABLE gmail_tokens] that the handlers read or write. *)
Record row := {
  user_id : string;
  access_token : string;
  refresh_token : string;
  token_expiry : Z;
  gmail_email : string
}.

(** [tokenData.gmail_last_sync].  The migration declares a column of that
    name on [profiles] only; [gmail_tokens] has none, so the object that
    [select('*')] yields has no such property and the read is [undefined]. *)
Definition gmail_last_sync (r : row) : option Z := None.
End GmailTokens.

Module ProcessedEmails.
(** [status TEXT DEFAULT 'processed' -- processed, rejected, error] *)
Inductive status_text := processed | rejected | error.

Record row := {
  user_id : string;
  email_id : string;
  gmail_message_id : string;
  invoice_id : option nat;
  status : status_text;
  rejection_reason : option string
}.
End ProcessedEmails.

Module Invoices.
(** The object literal [invoiceData]. *)
Record data := {
  user_id : string;
  supplier_name : string;
  document_number : string;
  document_type : string;
  document_date : string;
  intake_date : string;
  total_amount : Q;
  business_type : string;
  category : string;
  status : string;
  entry_method : string;
  image_url : option string
}.

(** A stored invoice: the inserted data and the identifier the store
    generated for it. *)
Record row := { id : nat; fields : data }.
End Invoices.

Module Profiles.
Record row := {
  id : string;
  document_count : option Z;
  document_limit : option Z
}.
End Profiles.

Record Db := {
  gmail_tokens : list GmailTokens.row;
  processed_emails : list ProcessedEmails.row;
  invoices : list Invoices.row;
  profiles : list Profiles.row
}.

(** ** Messages exchanged with the remote services *)

(** What [await fetch(...)] followed by [await response.json()] yields:
    [fetch] rejects, [json()] rejects, or a parsed body. *)
Inductive Reply (A : Type) :=
| NetworkError (message : string)
| BodyNotJson (message : string)
| Json (body : A).
Arguments NetworkError {A} message.
Arguments BodyNotJson {A} message.
Arguments Json {A} body.

(** Body of the OAuth token endpoint's reply, seen through the two
    properties the handler reads.  An error reply ([{error, error_description}])
    has neither. *)
Record TokenBody := {
  tb_access_token : option string;
  tb_expires_in : option Z
}.

(** [payload.parts[i]] of a Gmail message. *)
Record Part := {
  mimeType : string;
  filename : string;
  attachmentId : option string;   (* [body.attachmentId] *)
  data : option string            (* [body.data] *)
}.

Record Payload := { parts : option (list Part) }.

(** A full message as returned by [messages/{id}]; an error body has no
    [payload]. *)
Record GmailMessage := { payload : option Payload }.

(** The classifier's verdict: the object [JSON.parse] returns, seen through
    the properties the handlers read. *)
Record ExtractedData := {
  supplier_name : option string;
  document_number : option string;
  document_date : option string;
  total_amount : option Q;
  vat_amount : option Q;
  business_type : option string;
  category : option string
}.

Record Classification := {
  is_invoice : bool;                      (* truthiness of [is_invoice] *)
  document_type : option string;
  confidence : option Z;
  rejection_reason : option string;
  extracted : option ExtractedData        (* the property [data] *)
}.

(** Result of [JSON.parse]: a [SyntaxError], the value [null], or a value
    whose properties can be read. *)
Inductive Parsed :=
| SyntaxError
| JsonNull
| JsonValue (classification : Classification).

(** Reply of the chat-completions endpoint: [fetch] rejects; [!response.ok]
    with the body text; a body without [choices[0].message]; or the
    message content (which may be [null]). *)
Inductive AiReply :=
| AiUnreachable (message : string)
| AiNotOk (text : string)
| AiMalformed (message : string)
| AiContent (content : option string).

(** Body of a request to [classify-document]. *)
Module ClassifyRequest.
Record t := {
  user_id : string;
  file_data : option string;
  file_type : string;
  filename : string;
  source : option string;
  gmail_message_id : option string
}.
End ClassifyRequest.

(** Response of [classify-document]: status 200 with the verdict (and the
    new invoice's id when one was created), or status 500 with
    [{ error: message }]. *)
Inductive ClassifyResponse :=
| ClassifyOk (classification : Classification) (invoice_id : option nat)
| ClassifyError (message : string).

(** Body of a request to [gmail-sync] ([initial_sync] defaults to [false]). *)
Module SyncRequest.
Record t := { user_id : string; initial_sync : bool }.
End SyncRequest.

(** Response of [gmail-sync]: status 200 with the counters, or status 500
    with [{ error: message }]. *)
Inductive SyncResponse :=
| SyncOk (processed invoices_found total_emails : nat)
| SyncError (message : string).

(** Remote calls, in the order they are made. *)
Inductive Event :=
| TokenRefresh (refresh_token : string)
| GmailSearch (authorization query : string)
| GmailGetMessage (authorization message_id : string)
| GmailGetAttachment (authorization message_id attachment_id : string)
| ClassifyDocument (request : ClassifyRequest.t)
| OpenAiVision (image_url : string).

(** Everything outside the handlers.  The first argument of the clock and
    of every service is the number of remote calls made before, so replies
    may change from one call to the next. *)
Record World := {
  clock : nat -> Z;
  oauth_token : nat -> string -> Reply TokenBody;
  gmail_search : nat -> string -> string -> Reply (option (list string));
  gmail_message : nat -> string -> string -> Reply GmailMessage;
  gmail_attachment : nat -> string -> string -> string -> Reply (option string);
  openai : nat -> string -> AiReply;
  JSON_parse : string -> Parsed;
  (** Rejection of an insert by table [invoices], whose schema the
      migrations here do not contain. *)
  invoices_insert_error : Invoices.data -> option string
}.

(** ** The handler monad

    A handler runs against the datastore and the log of remote calls.  The
    two counters are the [let] variables [processedCount] and
    [invoiceCount] of [gmail-sync]: the loops assign to them, and an
    assignment made before a [throw] stays made. *)

Record St := {
  db : Db;
  trace : list Event;
  processedCount : nat;
  invoiceCount : nat
}.

Inductive Outcome (A : Type) :=
| Return (a : A)
| Throw (message : string).
Arguments Return {A} a.
Arguments Throw {A} message.

Definition M (A : Type) : Type := St -> Outcome A * St.

Definition ret {A} (a : A) : M A := fun s => (Return a, s).

Definition bind {A B} (c : M A) (k : A -> M B) : M B :=
  fun s =>
    match c s with
    | (Return a, s') => k a s'
    | (Throw m, s') => (Throw m, s')
    end.

Definition throw {A} (message : string) : M A := fun s => (Throw message, s).

(** [try { c } catch (error) { h error.message }] *)
Definition try_catch {A} (c : M A) (h : string -> M A) : M A :=
  fun s =>
    match c s with
    | (Return a, s') => (Return a, s')
    | (Throw m, s') => h m s'
    end.

Declare Scope handler_scope.
Delimit Scope handler_scope with handler.
Notation "x <- c ;; k" := (bind c (fun x => k))
  (at level 61, c at next level, right associativity) : handler_scope.
Notation "c ;; k" := (bind c (fun _ => k))
  (at level 61, right associativity) : handler_scope.
Open Scope handler_scope.

Definition with_db (d : Db) (s : St) : St :=
  {| db := d; trace := trace s;
     processedCount := processedCount s; invoiceCount := invoiceCount s |}.

(** Run a datastore statement: it returns a value and the new store. *)
Definition query {A} (q : Db -> A * Db) : M A :=
  fun s => let '(a, d) := q (db s) in (Return a, with_db d s).

(** A remote call: logged, and answered by the world according to its
    position in the log. *)
Definition fetch (e : Event) : M nat :=
  fun s =>
    (Return (length (trace s)),
     {| db := db s; trace := trace s ++ [e];
        processedCount := processedCount s; invoiceCount := invoiceCount s |}).

(** [await response.json()] after [await fetch(...)]. *)
Definition json_of {A} (r : Reply A) : M A :=
  match r with
  | NetworkError m => throw m
  | BodyNotJson m => throw m
  | Json body => ret body
  end.

(** [Date.now()] *)
Definition Date_now (w : World) : M Z :=
  fun s => (Return (clock w (length (trace s))), s).

(** [new Date(t).toISOString()], the string standing for the instant it
    denotes; throws [RangeError] on the invalid date. *)
Definition toISOString (t : option Z) : M Z :=
  match t with
  | Some t => if JsDate.valid t then ret t else throw "Invalid time value"
  | None => throw "Invalid time value"
  end.

(** [new Date(t).toISOString().split('T')[0]] *)
Definition toISODate (t : option Z) : M string :=
  match JsDate.iso_date t with
  | Some s => ret s
  | None => throw "Invalid time value"
  end.

(** ** Datastore statements *)

(** [.single()]: the row when exactly one row matches, [null] otherwise. *)
Definition single {A} (rows : list A) : option A :=
  match rows with
  | [r] => Some r
  | _ => None
  end.

Definition update_where {A} (p : A -> bool) (f : A -> A) (rows : list A) : list A :=
  map (fun r => if p r then f r else r) rows.

Definition with_gmail_tokens (t : list GmailTokens.row) (d : Db) : Db :=
  {| gmail_tokens := t; processed_emails := processed_emails d;
     invoices := invoices d; profiles := profiles d |}.

Definition with_processed_emails (t : list ProcessedEmails.row) (d : Db) : Db :=
  {| gmail_tokens := gmail_tokens d; processed_emails := t;
     invoices := invoices d; profiles := profiles d |}.

Definition with_invoices (t : list Invoices.row) (d : Db) : Db :=
  {| gmail_tokens := gmail_tokens d; processed_emails := processed_emails d;
     invoices := t; profiles := profiles d |}.

Definition with_profiles (t : list Profiles.row) (d : Db) : Db :=
  {| gmail_tokens := gmail_tokens d; processed_emails := processed_emails d;
     invoices := invoices d; profiles := t |}.

(** [from('gmail_tokens').select('*').eq('user_id', u).single()] *)
Definition select_gmail_token (u : string) (d : Db) : option GmailTokens.row * Db :=
  (single (filter (fun r => GmailTokens.user_id r =? u)%string (gmail_tokens d)), d).

(** [from('gmail_tokens').update({ access_token, token_expiry }).eq('user_id', u)];
    a property whose value is [undefined] is left out of the request body,
    so its column keeps its value. *)
Definition update_gmail_token_access (u : string) (new_access_token : option string)
    (new_token_expiry : Z) (d : Db) : unit * Db :=
  (tt, with_gmail_tokens
         (update_where (fun r => GmailTokens.user_id r =? u)%string
            (fun r => {| GmailTokens.user_id := GmailTokens.user_id r;
                         GmailTokens.access_token :=
                           match new_access_token with
                           | Some a => a
                           | None => GmailTokens.access_token r
                           end;
                         GmailTokens.refresh_token := GmailTokens.refresh_token r;
                         GmailTokens.token_expiry := new_token_expiry;
                         GmailTokens.gmail_email := GmailTokens.gmail_email r |})
            (gmail_tokens d)) d).

(** [from('gmail_tokens').update({ gmail_last_sync }).eq('user_id', u)].
    [gmail_tokens] has no column [gmail_last_sync], so the statement is
    turned down whole: no row changes, and the client reports the refusal
    in the [error] property of its result and does not throw.  The handler
    does not read that result. *)
Definition update_gmail_last_sync (u : string) (t : Z) (d : Db) : option string * Db :=
  (Some "Could not find the 'gmail_last_sync' column of 'gmail_tokens' in the schema cache",
   d).

Definition ledger_key (u m : string) (r : ProcessedEmails.row) : bool :=
  ((ProcessedEmails.user_id r =? u) && (ProcessedEmails.gmail_message_id r =? m))%string.

(** [from('processed_emails').select('id').eq('user_id', u).eq('gmail_message_id', m).single()] *)
Definition select_processed_email (u m : string) (d : Db)
  : option ProcessedEmails.row * Db :=
  (single (filter (ledger_key u m) (processed_emails d)), d).

(** [from('processed_emails').insert(row)].  The table's
    [UNIQUE(user_id, gmail_message_id)] constraint rejects a second row for
    the same pair; the client reports that in the [error] property of its
    result and does not throw. *)
Definition insert_processed_email (r : ProcessedEmails.row) (d : Db)
  : option string * Db :=
  if existsb (ledger_key (ProcessedEmails.user_id r) (ProcessedEmails.gmail_message_id r))
       (processed_emails d)
  then (Some "duplicate key value violates unique constraint", d)
  else (None, with_processed_emails (processed_emails d ++ [r]) d).

(** [from('processed_emails').update({ invoice_id, status: 'processed' })
      .eq('user_id', u).eq('gmail_message_id', m)] *)
Definition update_processed_email_invoice (u m : string) (invoice : nat) (d : Db)
  : unit * Db :=
  (tt, with_processed_emails
         (update_where (ledger_key u m)
            (fun r => {| ProcessedEmails.user_id := ProcessedEmails.user_id r;
                         ProcessedEmails.email_id := ProcessedEmails.email_id r;
                         ProcessedEmails.gmail_message_id := ProcessedEmails.gmail_message_id r;
                         ProcessedEmails.invoice_id := Some invoice;
                         ProcessedEmails.status := ProcessedEmails.processed;
                         ProcessedEmails.rejection_reason := ProcessedEmails.rejection_reason r |})
            (processed_emails d)) d).

(** [from('processed_emails').update({ status: 'rejected', rejection_reason })
      .eq('user_id', u).eq('gmail_message_id', m)] *)
Definition update_processed_email_rejected (u m : string) (reason : string) (d : Db)
  : unit * Db :=
  (tt, with_processed_emails
         (update_where (ledger_key u m)
            (fun r => {| ProcessedEmails.user_id := ProcessedEmails.user_id r;
                         ProcessedEmails.email_id := ProcessedEmails.email_id r;
                         ProcessedEmails.gmail_message_id := ProcessedEmails.gmail_message_id r;
                         ProcessedEmails.invoice_id := ProcessedEmails.invoice_id r;
                         ProcessedEmails.status := ProcessedEmails.rejected;
                         ProcessedEmails.rejection_reason := Some reason |})
            (processed_emails d)) d).

(** [from('invoices').insert(invoiceData).select().single()]: either the
    store's error or the stored row with its generated id (here the
    insertion index). *)
Definition insert_invoice (w : World) (invoiceData : Invoices.data) (d : Db)
  : (string + Invoices.row) * Db :=
  match invoices_insert_error w invoiceData with
  | Some e => (inl e, d)
  | None =>
      let r := {| Invoices.id := length (invoices d); Invoices.fields := invoiceData |} in
      (inr r, with_invoices (invoices d ++ [r]) d)
  end.

(** [from('profiles').select('document_count, document_limit').eq('id', u).single()] *)
Definition select_profile (u : string) (d : Db) : option Profiles.row * Db :=
  (single (filter (fun r => Profiles.id r =? u)%string (profiles d)), d).

(** [rpc('increment_document_count', { user_id_param })]:
    [UPDATE profiles SET document_count = COALESCE(document_count, 0) + 1
     WHERE id = user_id_param]. *)
Definition increment_document_count (u : string) (d : Db) : unit * Db :=
  (tt, with_profiles
         (update_where (fun r => Profiles.id r =? u)%string
            (fun r => {| Profiles.id := Profiles.id r;
                         Profiles.document_count :=
                           Some (Js.to_number (Profiles.document_count r) + 1);
                         Profiles.document_limit := Profiles.document_limit r |})
            (profiles d)) d).

(** ** [classify-document] *)

Definition newline : string := String (ascii_of_nat 10) EmptyString.
Definition fence_open : string := "```json" ++ newline.
Definition fence_close : string := newline ++ "```".

(** [content.match(/```json\n([\s\S]*?)\n```/)]: the whole match and its
    group, for the first opening fence and the first closing fence after it. *)
Definition match_fenced (content : string) : option (string * string) :=
  match index 0 fence_open content with
  | Some i =>
      let start := (i + String.length fence_open)%nat in
      match index start fence_close content with
      | Some j =>
          Some (substring i (j + String.length fence_close - i) content,
                substring start (j - start) content)
      | None => None
      end
  | None => None
  end.

(** [content.match(/\{[\s\S]*\}/)]: from the first opening brace to the
    last closing brace. *)
Definition match_braces (content : string) : option string :=
  match index 0 "{" content, Js.last_index "}"%char content with
  | Some i, Some j =>
      if (i <? j)%nat then Some (substring i (j - i + 1) content) else None
  | _, _ => None
  end.

(** [jsonMatch ? (jsonMatch[1] || jsonMatch[0]) : content] *)
Definition json_text (content : string) : string :=
  match match_fenced content with
  | Some (whole, group) => if (group =? "")%string then whole else group
  | None =>
      match match_braces content with
      | Some whole => whole
      | None => content
      end
  end.

(** The inner [try]/[catch] around [JSON.parse]: any failure there is
    rethrown as ['Invalid response from AI'].  A [null] content fails on
    [content.match]. *)
Definition parse_classification (w : World) (content : option string) : M Parsed :=
  match content with
  | None => throw "Invalid response from AI"
  | Some content =>
      match JSON_parse w (json_text content) with
      | SyntaxError => throw "Invalid response from AI"
      | parsed => ret parsed
      end
  end.

(** The object literal [invoiceData], with [now] the value of [Date.now()]
    and [today] the value of [new Date().toISOString().split('T')[0]]. *)
Definition invoiceData (user_id : string) (c : Classification) (d : ExtractedData)
    (now : Z) (today : string) : Invoices.data :=
  {| Invoices.user_id := user_id;
     Invoices.supplier_name := Js.or_default (supplier_name d) "לא זוהה";
     Invoices.document_number :=
       Js.or_default (document_number d) ("AUTO-" ++ Js.of_Z now);
     Invoices.document_type := Js.or_default (document_type c) "חשבונית מס";
     Invoices.document_date := Js.or_default (document_date d) today;
     Invoices.intake_date := today;
     Invoices.total_amount := Js.num_or_zero (total_amount d);
     Invoices.business_type := Js.or_default (business_type d) "עוסק מורשה";
     Invoices.category := Js.or_default (category d) "כללי";
     Invoices.status := "חדש";
     Invoices.entry_method := "דיגיטלי";
     Invoices.image_url := None |}.

(** The accepting branch: create the invoice, link the ledger row, count
    the document. *)
Definition materialize (w : World) (req : ClassifyRequest.t) (c : Classification)
    (d : ExtractedData) : M ClassifyResponse :=
  now <- Date_now w ;;
  today <- toISODate (Some now) ;;
  inserted <- query (insert_invoice w (invoiceData (ClassifyRequest.user_id req) c d now today)) ;;
  match inserted with
  | inl invoiceError => throw invoiceError
  | inr invoice =>
      (if Js.truthy (ClassifyRequest.gmail_message_id req)
       then query (update_processed_email_invoice (ClassifyRequest.user_id req)
                     (Js.render (ClassifyRequest.gmail_message_id req)) (Invoices.id invoice))
       else ret tt) ;;
      query (increment_document_count (ClassifyRequest.user_id req)) ;;
      ret (ClassifyOk c (Some (Invoices.id invoice)))
  end.

(** The rejecting branch. *)
Definition reject (req : ClassifyRequest.t) (c : Classification) : M ClassifyResponse :=
  (if Js.truthy (ClassifyRequest.gmail_message_id req)
   then query (update_processed_email_rejected (ClassifyRequest.user_id req)
                 (Js.render (ClassifyRequest.gmail_message_id req))
                 (Js.or_default (rejection_reason c) "Not an invoice"))
   else ret tt) ;;
  ret (ClassifyOk c None).

(** The document-limit check: [profile && profile.document_count >= profile.document_limit]. *)
Definition limit_reached (profile : option Profiles.row) : bool :=
  match profile with
  | Some p => Js.ge (Profiles.document_count p) (Profiles.document_limit p)
  | None => false
  end.

(** [user_id && file_data]: the request carries both required fields. *)
Definition well_formed (req : ClassifyRequest.t) : bool :=
  negb (ClassifyRequest.user_id req =? "")%string
  && Js.truthy (ClassifyRequest.file_data req).

(** [`data:${file_type};base64,${file_data}`], the data URL sent to the
    vision model. *)
Definition image_url_of (req : ClassifyRequest.t) : string :=
  "data:" ++ ClassifyRequest.file_type req ++ ";base64,"
  ++ Js.render (ClassifyRequest.file_data req).

(** Body of the handler's outer [try]. *)
Definition classify_document_body (w : World) (req : ClassifyRequest.t)
  : M ClassifyResponse :=
  if negb (well_formed req)
  then throw "Missing required fields"
  else
    profile <- query (select_profile (ClassifyRequest.user_id req)) ;;
    if limit_reached profile
    then throw "Document limit reached. Please upgrade your plan."
    else
      let imageData := image_url_of req in
      t <- fetch (OpenAiVision imageData) ;;
      match openai w t imageData with
      | AiUnreachable m => throw m
      | AiNotOk text => throw ("OpenAI API error: " ++ text)
      | AiMalformed m => throw m
      | AiContent content =>
          parsed <- parse_classification w content ;;
          match parsed with
          | SyntaxError => throw "Invalid response from AI"
          | JsonNull => throw "Cannot read properties of null (reading 'is_invoice')"
          | JsonValue classification =>
              match is_invoice classification, extracted classification with
              | true, Some d => materialize w req classification d
              | _, _ => reject req classification
              end
          end
      end.

(** The handler: whatever the body throws becomes a status-500 response. *)
Definition classify_document (w : World) (req : ClassifyRequest.t) : M ClassifyResponse :=
  try_catch (classify_document_body w req) (fun message => ret (ClassifyError message)).

(** ** [gmail-sync] *)

(** [`Bearer ${accessToken}`] *)
Definition bearer (accessToken : option string) : string :=
  "Bearer " ++ Js.render accessToken.

(** "Check if token is expired and refresh if needed": yields the access
    token the rest of the scan uses.  The reply is not inspected before it
    is used: a missing [access_token] is [undefined], and a missing
    [expires_in] makes [Date.now() + newTokens.expires_in * 1000] a [NaN],
    hence the date built from it invalid and [toISOString] throw while the
    argument of [update] is evaluated. *)
Definition refresh_if_expired (w : World) (user_id : string) (tokenData : GmailTokens.row)
  : M (option string) :=
  now <- Date_now w ;;
  if GmailTokens.token_expiry tokenData <? now
  then
    t <- fetch (TokenRefresh (GmailTokens.refresh_token tokenData)) ;;
    newTokens <- json_of (oauth_token w t (GmailTokens.refresh_token tokenData)) ;;
    now' <- Date_now w ;;
    token_expiry <-
      toISOString (option_map (fun expires_in => now' + expires_in * 1000)
                     (tb_expires_in newTokens)) ;;
    query (update_gmail_token_access user_id (tb_access_token newTokens) token_expiry) ;;
    ret (tb_access_token newTokens)
  else ret (Some (GmailTokens.access_token tokenData)).

Definition seven_days : Z := 7 * 24 * 60 * 60 * 1000.

(** [tokenData.gmail_last_sync || new Date(Date.now() - 7 * 24 * 60 * 60 * 1000)] *)
Definition lastSync (gmail_last_sync : option Z) (now : Z) : Z :=
  match gmail_last_sync with
  | Some t => t
  | None => now - seven_days
  end.

(** The instant whose date goes after [after:] in the search query. *)
Definition lower_bound (initial_sync : bool) (gmail_last_sync : option Z) (now : Z) : Z :=
  if initial_sync then JsDate.minus_one_year now else lastSync gmail_last_sync now.

Definition base_query : string :=
  "has:attachment (חשבונית OR invoice OR receipt OR קבלה)".

(** "Build Gmail API query" *)
Definition build_query (w : World) (initial_sync : bool) (tokenData : GmailTokens.row)
  : M string :=
  now <- Date_now w ;;
  day <- toISODate (Some (lower_bound initial_sync (GmailTokens.gmail_last_sync tokenData) now)) ;;
  ret (base_query ++ " after:" ++ Js.dash_to_slash day).

(** [part.filename && part.body.attachmentId] *)
Definition is_attachment (part : Part) : bool :=
  negb (filename part =? "")%string && Js.truthy (attachmentId part).

(** [mimeType.includes('pdf') || mimeType.includes('image')], the negation
    of the loop's [continue] test. *)
Definition is_pdf_or_image (part : Part) : bool :=
  Js.includes "pdf" (mimeType part) || Js.includes "image" (mimeType part).

Definition count_processed : M unit :=
  fun s => (Return tt, {| db := db s; trace := trace s;
                          processedCount := S (processedCount s);
                          invoiceCount := invoiceCount s |}).

Definition count_invoice : M unit :=
  fun s => (Return tt, {| db := db s; trace := trace s;
                          processedCount := processedCount s;
                          invoiceCount := S (invoiceCount s) |}).

Definition reset_counters : M unit :=
  fun s => (Return tt, {| db := db s; trace := trace s;
                          processedCount := 0; invoiceCount := 0 |}).

Definition read_counters : M (nat * nat) :=
  fun s => (Return (processedCount s, invoiceCount s), s).

(** [classifyResult.is_invoice]: an error body has no such property. *)
Definition result_is_invoice (r : ClassifyResponse) : bool :=
  match r with
  | ClassifyOk c _ => is_invoice c
  | ClassifyError _ => false
  end.

Definition classify_request (user_id message_id : string) (attachment : Part)
    (file_data : option string) : ClassifyRequest.t :=
  {| ClassifyRequest.user_id := user_id;
     ClassifyRequest.file_data := file_data;
     ClassifyRequest.file_type := mimeType attachment;
     ClassifyRequest.filename := filename attachment;
     ClassifyRequest.source := Some "gmail";
     ClassifyRequest.gmail_message_id := Some message_id |}.

(** One pass of the body of [for (const attachment of attachments)]: fetch
    the attachment, post it to [classify-document] (which runs against the
    same datastore), count. *)
Definition process_attachment (w : World) (user_id : string) (accessToken : option string)
    (message_id : string) (attachment : Part) : M unit :=
  if negb (Js.includes "pdf" (mimeType attachment))
     && negb (Js.includes "image" (mimeType attachment))
  then ret tt
  else
    t <- fetch (GmailGetAttachment (bearer accessToken) message_id
                  (Js.render (attachmentId attachment))) ;;
    attachmentData <-
      json_of (gmail_attachment w t (bearer accessToken) message_id
                 (Js.render (attachmentId attachment))) ;;
    let request := classify_request user_id message_id attachment attachmentData in
    fetch (ClassifyDocument request) ;;
    classifyResult <- classify_document w request ;;
    (if result_is_invoice classifyResult then count_invoice else ret tt) ;;
    count_processed.

Fixpoint process_attachments (w : World) (user_id : string) (accessToken : option string)
    (message_id : string) (attachments : list Part) : M unit :=
  match attachments with
  | [] => ret tt
  | attachment :: rest =>
      process_attachment w user_id accessToken message_id attachment ;;
      process_attachments w user_id accessToken message_id rest
  end.

(** [fullMessage.payload.parts?.filter(...) || []]; reading [parts] of a
    missing [payload] throws. *)
Definition attachments_of (fullMessage : GmailMessage) : M (list Part) :=
  match payload fullMessage with
  | None => throw "Cannot read properties of undefined (reading 'parts')"
  | Some p =>
      match parts p with
      | Some ps => ret (filter is_attachment ps)
      | None => ret []
      end
  end.

Definition ledger_row (user_id message_id : string) (status : ProcessedEmails.status_text)
    (reason : option string) : ProcessedEmails.row :=
  {| ProcessedEmails.user_id := user_id;
     ProcessedEmails.email_id := message_id;
     ProcessedEmails.gmail_message_id := message_id;
     ProcessedEmails.invoice_id := None;
     ProcessedEmails.status := status;
     ProcessedEmails.rejection_reason := reason |}.

(** One pass of the body of [for (const message of messages.slice(0, 20))],
    with its [try]/[catch]. *)
Definition process_message (w : World) (user_id : string) (accessToken : option string)
    (message_id : string) : M unit :=
  try_catch
    (existing <- query (select_processed_email user_id message_id) ;;
     match existing with
     | Some _ => ret tt
     | None =>
         t <- fetch (GmailGetMessage (bearer accessToken) message_id) ;;
         fullMessage <- json_of (gmail_message w t (bearer accessToken) message_id) ;;
         attachments <- attachments_of fullMessage ;;
         process_attachments w user_id accessToken message_id attachments ;;
         query (insert_processed_email
                  (ledger_row user_id message_id ProcessedEmails.processed None)) ;;
         ret tt
     end)
    (fun message =>
       query (insert_processed_email
                (ledger_row user_id message_id ProcessedEmails.error (Some message))) ;;
       ret tt).

Fixpoint process_messages (w : World) (user_id : string) (accessToken : option string)
    (messages : list string) : M unit :=
  match messages with
  | [] => ret tt
  | message_id :: rest =>
      process_message w user_id accessToken message_id ;;
      process_messages w user_id accessToken rest
  end.

(** Body of the handler's outer [try]. *)
Definition gmail_sync_body (w : World) (req : SyncRequest.t) : M SyncResponse :=
  let user_id := SyncRequest.user_id req in
  if (user_id =? "")%string then throw "user_id is required"
  else
    tokenData <- query (select_gmail_token user_id) ;;
    match tokenData with
    | None => throw "Gmail not connected"
    | Some tokenData =>
        accessToken <- refresh_if_expired w user_id tokenData ;;
        q <- build_query w (SyncRequest.initial_sync req) tokenData ;;
        t <- fetch (GmailSearch (bearer accessToken) q) ;;
        searchData <- json_of (gmail_search w t (bearer accessToken) q) ;;
        let messages := match searchData with Some ms => ms | None => [] end in
        reset_counters ;;
        process_messages w user_id accessToken (firstn 20 messages) ;;
        now <- Date_now w ;;
        last_sync <- toISOString (Some now) ;;
        query (update_gmail_last_sync user_id last_sync) ;;
        counters <- read_counters ;;
        ret (SyncOk (fst counters) (snd counters) (length messages))
    end.

(** The handler: whatever the body throws becomes a status-500 response. *)
Definition gmail_sync (w : World) (req : SyncRequest.t) : M SyncResponse :=
  try_catch (gmail_sync_body w req) (fun message => ret (SyncError message)).

(** A handler invocation starts with an empty call log. *)
Definition start (d : Db) : St :=
  {| db := d; trace := []; processedCount := 0; invoiceCount := 0 |}.

(** ** Vocabulary of the properties *)

(** [(user_id, gmail_message_id)] of a ledger row: the pair the table's
    uniqueness constraint is declared on. *)
Definition ledger_pair (r : ProcessedEmails.row) : string * string :=
  (ProcessedEmails.user_id r, ProcessedEmails.gmail_message_id r).

(** The uniqueness invariant of [processed_emails]. *)
Definition ledger_unique (d : Db) : Prop :=
  NoDup (map ledger_pair (processed_emails d)).

(** A ledger row exists for the pair. *)
Definition has_row (u m : string) (d : Db) : Prop :=
  In (u, m) (map ledger_pair (processed_emails d)).

(** The message was posted to [classify-document] during the logged calls. *)
Definition classified (m : string) (calls : list Event) : Prop :=
  exists request,
    In (ClassifyDocument request) calls
    /\ ClassifyRequest.gmail_message_id request = Some m.

(** The parts of a message that reach the classifier: those passing the
    [filter] and not skipped by the loop's [continue]. *)
Definition retained_parts (ps : list Part) : list Part :=
  filter is_pdf_or_image (filter is_attachment ps).

(** The filter as the specification words it: a filename, an attachment
    identifier, and a MIME type that is [application/pdf] or [image/*]. *)
Definition spec_retained_parts (ps : list Part) : list Part :=
  filter (fun p => is_attachment p
                   && ((mimeType p =? "application/pdf")%string
                       || prefix "image/" (mimeType p))) ps.

(** The lower date bound as the specification words it. *)
Definition spec_lower_bound (lastSyncAt now : Z) : Z :=
  Z.max lastSyncAt (now - seven_days).

(** A token exchange that failed: the endpoint could not be reached, its
    body was not JSON, or the body is an OAuth error object, which carries
    neither [access_token] nor [expires_in]. *)
Definition refresh_failed (r : Reply TokenBody) : bool :=
  match r with
  | NetworkError _ => true
  | BodyNotJson _ => true
  | Json body =>
      match tb_access_token body, tb_expires_in body with
      | None, None => true
      | _, _ => false
      end
  end.

(** A relation between the state before and the state after is kept by a
    computation when it holds whatever the state it starts from. *)
Definition keeps (R : St -> St -> Prop) {A} (c : M A) : Prop :=
  forall s, R s (snd (c s)).

(** The call, if it is a post to [classify-document], is for user [u] and
    message [m]. *)
Definition about (u m : string) (e : Event) : Prop :=
  match e with
  | ClassifyDocument request =>
      ClassifyRequest.user_id request = u
      /\ ClassifyRequest.gmail_message_id request = Some m
  | _ => True
  end.

(** Between the skip test and the ledger insert of one pass of the message
    loop, every call to [classify-document] carries that message's id, and
    as long as the ledger has no row for the message the ledger stays as it
    is: the two [update] statements of [classify-document] match nothing. *)
Definition quiet (u m : string) (s s' : St) : Prop :=
  (exists calls, trace s' = (trace s ++ calls)%list /\ Forall (about u m) calls)
  /\ (filter (ledger_key u m) (processed_emails (db s)) = [] ->
      processed_emails (db s') = processed_emails (db s)).

(** What a scan for user [u] does to the ledger, started from a ledger that
    satisfies the uniqueness invariant: it appends rows, none of them with
    an invoice id and none of them [rejected]; the invariant still holds;
    and a message is posted to the classifier only if it had no row before
    and has one afterwards. *)
Definition ledger_step (u : string) (s s' : St) : Prop :=
  ledger_unique (db s) ->
  exists calls rows,
    trace s' = (trace s ++ calls)%list
    /\ processed_emails (db s') = (processed_emails (db s) ++ rows)%list
    /\ ledger_unique (db s')
    /\ Forall (fun r => ProcessedEmails.invoice_id r = None
                        /\ ProcessedEmails.status r <> ProcessedEmails.rejected) rows
    /\ forall m, classified m calls -> ~ has_row u m (db s) /\ has_row u m (db s').

(** No remote call is made. *)
Definition same_trace (s s' : St) : Prop := trace s' = trace s.

(** ** Scenarios

    A user with one message carrying a PDF and a plain-text part, scanned
    at 2026-01-06T12:00:00Z. *)

Module Scenario.

Definition noon_2026_01_06 : Z := 1767700800000.

Definition pdf_part : Part :=
  {| mimeType := "application/pdf"; filename := "invoice.pdf";
     attachmentId := Some "att-1"; data := None |}.

Definition text_part : Part :=
  {| mimeType := "text/plain"; filename := "notes.txt";
     attachmentId := Some "att-2"; data := None |}.

Definition disk_image_part : Part :=
  {| mimeType := "application/x-apple-diskimage"; filename := "setup.dmg";
     attachmentId := Some "att-3"; data := None |}.

Definition token_row : GmailTokens.row :=
  {| GmailTokens.user_id := "u1";
     GmailTokens.access_token := "access-0";
     GmailTokens.refresh_token := "refresh-0";
     GmailTokens.token_expiry := noon_2026_01_06 + 3600000;
     GmailTokens.gmail_email := "u1@example.com" |}.

Definition expired_token_row : GmailTokens.row :=
  {| GmailTokens.user_id := "u1";
     GmailTokens.access_token := "access-0";
     GmailTokens.refresh_token := "refresh-0";
     GmailTokens.token_expiry := noon_2026_01_06 - 1;
     GmailTokens.gmail_email := "u1@example.com" |}.

Definition profile (count limit : Z) : Profiles.row :=
  {| Profiles.id := "u1";
     Profiles.document_count := Some count;
     Profiles.document_limit := Some limit |}.

Definition store (token : GmailTokens.row) (p : list Profiles.row) : Db :=
  {| gmail_tokens := [token]; processed_emails := []; invoices := []; profiles := p |}.

Definition no_data : ExtractedData :=
  {| supplier_name := None; document_number := None; document_date := None;
     total_amount := None; vat_amount := None; business_type := None;
     category := None |}.

(** A verdict accepting the document, with an empty [data] object. *)
Definition accepted : Classification :=
  {| is_invoice := true; document_type := None; confidence := Some 95;
     rejection_reason := None; extracted := Some no_data |}.

(** A verdict accepting the document, without any [data] property. *)
Definition accepted_without_data : Classification :=
  {| is_invoice := true; document_type := None; confidence := Some 95;
     rejection_reason := None; extracted := None |}.

Definition quote : string := String (ascii_of_nat 34) EmptyString.

(** [{ is_invoice: true, confidence: 95, data: {} }] as the model writes it. *)
Definition accepted_json : string :=
  "{" ++ quote ++ "is_invoice" ++ quote ++ ":true,"
      ++ quote ++ "confidence" ++ quote ++ ":95,"
      ++ quote ++ "data" ++ quote ++ ":{}}".

(** [{ is_invoice: true, confidence: 95 }] *)
Definition accepted_without_data_json : string :=
  "{" ++ quote ++ "is_invoice" ++ quote ++ ":true,"
      ++ quote ++ "confidence" ++ quote ++ ":95}".

(** A reply that is no JSON at all. *)
Definition apology : string := "I could not read this document.".

(** The classifier answers every document with [content]; [JSON.parse]
    yields [parsed] on the text extracted from that content. *)
Definition world (reply : Reply TokenBody) (ps : list Part) (content : string)
    (parsed : Parsed) : World :=
  {| clock := fun _ => noon_2026_01_06;
     oauth_token := fun _ _ => reply;
     gmail_search := fun _ _ _ => Json (Some ["m1"]);
     gmail_message := fun _ _ _ => Json {| payload := Some {| parts := Some ps |} |};
     gmail_attachment := fun _ _ _ _ => Json (Some "JVBERi0xLjQ=");
     openai := fun _ _ => AiContent (Some content);
     JSON_parse := fun text => if (text =? json_text content)%string then parsed else SyntaxError;
     invoices_insert_error := fun _ => None |}.

Definition granted : Reply TokenBody :=
  Json {| tb_access_token := Some "access-1"; tb_expires_in := Some 3599 |}.

Definition oauth_error : Reply TokenBody :=
  Json {| tb_access_token := None; tb_expires_in := None |}.

Definition half_an_hour : Z := 30 * 60 * 1000.

(** The world [w] with every clock reading [delta] milliseconds later. *)
Definition later (delta : Z) (w : World) : World :=
  {| clock := fun n => clock w n + delta;
     oauth_token := oauth_token w;
     gmail_search := gmail_search w;
     gmail_message := gmail_message w;
     gmail_attachment := gmail_attachment w;
     openai := openai w;
     JSON_parse := JSON_parse w;
     invoices_insert_error := invoices_insert_error w |}.

Definition sync_request : SyncRequest.t :=
  {| SyncRequest.user_id := "u1"; SyncRequest.initial_sync := false |}.

Definition upload_request : ClassifyRequest.t :=
  {| ClassifyRequest.user_id := "u1";
     ClassifyRequest.file_data := Some "JVBERi0xLjQ=";
     ClassifyRequest.file_type := "application/pdf";
     ClassifyRequest.filename := "invoice.pdf";
     ClassifyRequest.source := None;
     ClassifyRequest.gmail_message_id := None |}.

End Scenario.

(** ** Vocabulary of the further properties *)

(** The part of [gmail-sync] after the search: run the message loop over
    the first twenty results, send the last-sync update, answer with the
    counters and the number of all results. *)
Definition scan_messages (w : World) (req : SyncRequest.t) (accessToken : option string)
    (messages : list string) : M SyncResponse :=
  reset_counters ;;
  process_messages w (SyncRequest.user_id req) accessToken (firstn 20 messages) ;;
  now <- Date_now w ;;
  last_sync <- toISOString (Some now) ;;
  query (update_gmail_last_sync (SyncRequest.user_id req) last_sync) ;;
  counters <- read_counters ;;
  ret (SyncOk (fst counters) (snd counters) (length messages)).

(** [searchData.messages || []] *)
Definition messages_of (searchData : option (list string)) : list string :=
  match searchData with Some ms => ms | None => [] end.

(** The part of [gmail-sync] after the token is settled: build the query,
    search, and go through the results. *)
Definition scan_with_token (w : World) (req : SyncRequest.t) (tokenData : GmailTokens.row)
    (accessToken : option string) : M SyncResponse :=
  q <- build_query w (SyncRequest.initial_sync req) tokenData ;;
  t <- fetch (GmailSearch (bearer accessToken) q) ;;
  searchData <- json_of (gmail_search w t (bearer accessToken) q) ;;
  scan_messages w req accessToken (messages_of searchData).

(** Every call logged between two states satisfies [P]. *)
Definition logs (P : Event -> Prop) (s s' : St) : Prop :=
  exists calls, trace s' = (trace s ++ calls)%list /\ Forall P calls.

(** The call is no token exchange, and if it goes to the mail provider it
    carries the [Authorization] header [auth]. *)
Definition authorized_by (auth : string) (e : Event) : Prop :=
  match e with
  | TokenRefresh _ => False
  | GmailSearch a _ => a = auth
  | GmailGetMessage a _ => a = auth
  | GmailGetAttachment a _ _ => a = auth
  | ClassifyDocument _ => True
  | OpenAiVision _ => True
  end.

(** The call, if it names a message, names one of [ms]. *)
Definition within (ms : list string) (e : Event) : Prop :=
  match e with
  | GmailGetMessage _ m => In m ms
  | GmailGetAttachment _ m _ => In m ms
  | ClassifyDocument request =>
      exists m, ClassifyRequest.gmail_message_id request = Some m /\ In m ms
  | _ => True
  end.

(** The call does not reach the mail provider for a message or an
    attachment, and posts nothing to the classifier. *)
Definition no_message_call (e : Event) : Prop :=
  match e with
  | GmailGetMessage _ _ => False
  | GmailGetAttachment _ _ _ => False
  | ClassifyDocument _ => False
  | OpenAiVision _ => False
  | _ => True
  end.

(** [DELETE FROM gmail_tokens WHERE user_id = u], the statement
    [handleDisconnectGmail] of the settings page sends first. *)
Definition delete_gmail_tokens (u : string) (d : Db) : unit * Db :=
  (tt, with_gmail_tokens
         (filter (fun r => negb (GmailTokens.user_id r =? u)%string) (gmail_tokens d)) d).

(** A function of the datastore has the same value before and after. *)
Definition preserves {B : Type} (f : Db -> B) (s s' : St) : Prop :=
  f (db s') = f (db s).

(** The columns of a credential row that only connecting an account writes. *)
Definition identity_of (r : GmailTokens.row) : string * string * string :=
  (GmailTokens.user_id r, GmailTokens.refresh_token r, GmailTokens.gmail_email r).

(** The columns of a credential row that a token refresh may write. *)
Definition access_of (r : GmailTokens.row) : string * Z :=
  (GmailTokens.access_token r, GmailTokens.token_expiry r).

(** The credential rows of everybody but [u]. *)
Definition tokens_of_others (u : string) (d : Db) : list GmailTokens.row :=
  filter (fun r => negb (GmailTokens.user_id r =? u)%string) (gmail_tokens d).

(** The profile rows of everybody but [u]. *)
Definition profiles_of_others (u : string) (d : Db) : list Profiles.row :=
  filter (fun r => negb (Profiles.id r =? u)%string) (profiles d).

(** The ledger rows of every pair but [(u, m)]. *)
Definition ledger_of_others (u m : string) (d : Db) : list ProcessedEmails.row :=
  filter (fun r => negb (ledger_key u m r)) (processed_emails d).

(** Everything the datastore holds for users other than [u]. *)
Definition data_of_others (u : string) (d : Db)
  : list GmailTokens.row * list Profiles.row
    * list ProcessedEmails.row * list Invoices.row :=
  (tokens_of_others u d,
   profiles_of_others u d,
   filter (fun r => negb (ProcessedEmails.user_id r =? u)%string) (processed_emails d),
   filter (fun r => negb (Invoices.user_id (Invoices.fields r) =? u)%string) (invoices d)).

(** With a row in the ledger for every message of [ms], nothing is fetched
    for a message, nothing is classified, and the ledger, the invoices and
    the profiles stay as they are. *)
Definition idle (u : string) (ms : list string) (s s' : St) : Prop :=
  ledger_unique (db s) ->
  (forall m, In m ms -> has_row u m (db s)) ->
  logs no_message_call s s'
  /\ processed_emails (db s') = processed_emails (db s)
  /\ invoices (db s') = invoices (db s)
  /\ profiles (db s') = profiles (db s).

(** Started from a ledger satisfying the uniqueness invariant, the ledger
    only grows, by rows of user [u] for messages of [ms], and still
    satisfies the invariant. *)
Definition records_within (u : string) (ms : list string) (s s' : St) : Prop :=
  ledger_unique (db s) ->
  exists rows,
    processed_emails (db s') = (processed_emails (db s) ++ rows)%list
    /\ ledger_unique (db s')
    /\ Forall (fun r => ProcessedEmails.user_id r = u
                        /\ In (ProcessedEmails.gmail_message_id r) ms) rows.

(** A profile row after [n] runs of [increment_document_count] on it. *)
Definition add_documents (n : nat) (p : Profiles.row) : Profiles.row :=
  match n with
  | O => p
  | S _ =>
      {| Profiles.id := Profiles.id p;
         Profiles.document_count :=
           Some (Js.to_number (Profiles.document_count p) + Z.of_nat n);
         Profiles.document_limit := Profiles.document_limit p |}
  end.

(** The profiles after [n] documents were counted for user [u]. *)
Definition credit (u : string) (n : nat) (rows : list Profiles.row) : list Profiles.row :=
  map (fun p => if (Profiles.id p =? u)%string then add_documents n p else p) rows.

(** Invoices are only appended, all for user [u], and each one is counted
    once on [u]'s profile. *)
Definition accounting (u : string) (s s' : St) : Prop :=
  exists new,
    invoices (db s') = (invoices (db s) ++ new)%list
    /\ Forall (fun r => Invoices.user_id (Invoices.fields r) = u) new
    /\ profiles (db s') = credit u (length new) (profiles (db s)).

(** A profile of [u] that is within its limit stays within it. *)
Definition capped (u : string) (s s' : St) : Prop :=
  forall p,
    fst (select_profile u (db s)) = Some p ->
    Js.to_number (Profiles.document_count p) <= Js.to_number (Profiles.document_limit p) ->
    exists p',
      fst (select_profile u (db s')) = Some p'
      /\ Profiles.document_limit p' = Profiles.document_limit p
      /\ Js.to_number (Profiles.document_count p')
         <= Js.to_number (Profiles.document_limit p').

(** The call is not a call to the vision model. *)
Definition no_vision_call (e : Event) : Prop :=
  match e with
  | OpenAiVision _ => False
  | _ => True
  end.

(** While [u] is at the limit no vision model is called, no invoice is
    written and the profiles stay as they are. *)
Definition at_limit (u : string) (s s' : St) : Prop :=
  limit_reached (fst (select_profile u (db s))) = true ->
  logs no_vision_call s s'
  /\ invoices (db s') = invoices (db s)
  /\ profiles (db s') = profiles (db s).

(** The call is a post to [classify-document]. *)
Definition is_post (e : Event) : bool :=
  match e with
  | ClassifyDocument _ => true
  | _ => false
  end.

(** How many documents were posted to [classify-document]. *)
Definition posts (calls : list Event) : nat := length (filter is_post calls).

(** The two counters stay as they are. *)
Definition same_counters (s s' : St) : Prop :=
  processedCount s' = processedCount s /\ invoiceCount s' = invoiceCount s.

(** The bookkeeping of the attachment loop: [processedCount] goes up by the
    number of documents posted to the classifier, [invoiceCount] by at
    least the number of invoices written and at most the number of
    documents posted. *)
Definition tally (s s' : St) : Prop :=
  exists calls new k,
    trace s' = (trace s ++ calls)%list
    /\ invoices (db s') = (invoices (db s) ++ new)%list
    /\ processedCount s' = (processedCount s + posts calls)%nat
    /\ invoiceCount s' = (invoiceCount s + k)%nat
    /\ (length new <= k)%nat /\ (k <= posts calls)%nat.

(** No document is posted to the classifier and no invoice is written. *)
Definition before_the_loop (s s' : St) : Prop :=
  (exists calls, trace s' = (trace s ++ calls)%list /\ posts calls = 0%nat)
  /\ invoices (db s') = invoices (db s).

(** The string [s] does not contain the character [c]. *)
Fixpoint lacks (c : ascii) (s : string) : bool :=
  match s with
  | EmptyString => true
  | String a rest => negb (Ascii.eqb a c) && lacks c rest
  end.

(** The calendar behind [civil_from_days] and [days_from_civil], in years
    that begin on 1 March: [year_start r] is the day of the 400-year era on
    which year [r] of the era begins, [year_length r] the number of days of
    that year, and [day_number q r D] the day number of day [D] of year [r]
    of era [q]. *)
Definition year_start (r : Z) : Z := 365 * r + r / 4 - r / 100.

Definition year_length (r : Z) : Z :=
  year_start (r + 1) + (r + 1) / 400 - year_start r.

Definition day_number (q r D : Z) : Z := 146097 * q + year_start r + D - 719468.

(** Month (1..12) and day of month of day [D] of a year that begins on
    1 March, and the calendar date of day [D] of such a year [Y]. *)
Definition month_day (D : Z) : Z * Z :=
  let mp := (5 * D + 2) / 153 in
  (if mp <? 10 then mp + 3 else mp - 9, D - (153 * mp + 2) / 5 + 1).

Definition civil (Y D : Z) : Z * Z * Z :=
  let '(m, d) := month_day D in (if m <=? 2 then Y + 1 else Y, m, d).

(** * Properties *)

Open Scope list_scope.

(** ** Strings *)

Lemma prefix_app_left (a b s : string) :
  prefix (a ++ b) s = true -> prefix a s = true.
Proof.
  revert s; induction a as [|c a IH]; intros s H; [destruct s; reflexivity|].
  destruct s as [|c' s]; simpl in *; [discriminate|].
  destruct (ascii_dec c c'); [apply IH; assumption | discriminate].
Qed.

Lemma includes_prefix (sub s : string) :
  prefix sub s = true -> Js.includes sub s = true.
Proof. intros H; destruct s; cbn [Js.includes]; rewrite H; reflexivity. Qed.

(** Every [image/*] type contains ["image"], and [application/pdf] contains ["pdf"]. *)
Lemma image_type_includes_image (mime : string) :
  prefix "image/" mime = true -> Js.includes "image" mime = true.
Proof.
  intros H; apply includes_prefix.
  apply (prefix_app_left "image" "/"); exact H.
Qed.

(** ** Relations every step of a handler keeps

    Most properties of the handlers relate the state before a step to the
    state after it, by a relation that only looks at the datastore and the
    call log and that composes.  Such a relation is kept by sequencing and
    by [try]/[catch] as soon as the steps keep it. *)

Section Stepwise.

Variable R : St -> St -> Prop.
Hypothesis R_same : forall s s', db s' = db s -> trace s' = trace s -> R s s'.
Hypothesis R_trans : forall s1 s2 s3, R s1 s2 -> R s2 s3 -> R s1 s3.

Lemma keeps_ret {A} (a : A) : keeps R (ret a).
Proof. intros s; apply R_same; reflexivity. Qed.

Lemma keeps_throw {A} (m : string) : keeps R (@throw A m).
Proof. intros s; apply R_same; reflexivity. Qed.

Lemma keeps_bind {A B} (c : M A) (k : A -> M B) :
  keeps R c -> (forall a, keeps R (k a)) -> keeps R (bind c k).
Proof.
  intros Hc Hk s; unfold bind.
  specialize (Hc s); destruct (c s) as [[a|m] s1]; simpl in *; [|exact Hc].
  eapply R_trans; [exact Hc | apply Hk].
Qed.

Lemma keeps_try_catch {A} (c : M A) (h : string -> M A) :
  keeps R c -> (forall m, keeps R (h m)) -> keeps R (try_catch c h).
Proof.
  intros Hc Hh s; unfold try_catch.
  specialize (Hc s); destruct (c s) as [[a|m] s1]; simpl in *; [exact Hc|].
  eapply R_trans; [exact Hc | apply Hh].
Qed.

Lemma keeps_json_of {A} (r : Reply A) : keeps R (json_of r).
Proof. destruct r; simpl; [apply keeps_throw | apply keeps_throw | apply keeps_ret]. Qed.

Lemma keeps_Date_now (w : World) : keeps R (Date_now w).
Proof. intros s; apply R_same; reflexivity. Qed.

Lemma keeps_toISOString (t : option Z) : keeps R (toISOString t).
Proof.
  destruct t as [t|]; simpl; [destruct (JsDate.valid t)|];
    first [apply keeps_ret | apply keeps_throw].
Qed.

Lemma keeps_toISODate (t : option Z) : keeps R (toISODate t).
Proof.
  unfold toISODate; destruct (JsDate.iso_date t);
    first [apply keeps_ret | apply keeps_throw].
Qed.

Lemma keeps_count_processed : keeps R count_processed.
Proof. intros s; apply R_same; reflexivity. Qed.

Lemma keeps_count_invoice : keeps R count_invoice.
Proof. intros s; apply R_same; reflexivity. Qed.

Lemma keeps_reset_counters : keeps R reset_counters.
Proof. intros s; apply R_same; reflexivity. Qed.

Lemma keeps_read_counters : keeps R read_counters.
Proof. intros s; apply R_same; reflexivity. Qed.

(** A statement that only reads. *)
Lemma keeps_read {A} (q : Db -> A * Db) :
  (forall d, snd (q d) = d) -> keeps R (query q).
Proof.
  intros Hq s; unfold query.
  specialize (Hq (db s)); destruct (q (db s)) as [a d]; simpl in *; subst d.
  apply R_same; reflexivity.
Qed.

End Stepwise.

(** ** The ledger *)

Lemma ledger_key_pair (u m : string) (r : ProcessedEmails.row) :
  ledger_key u m r = true <-> ledger_pair r = (u, m).
Proof.
  unfold ledger_key, ledger_pair; rewrite andb_true_iff, !String.eqb_eq.
  split; [intros [-> ->]; reflexivity | intros H; injection H; auto].
Qed.

Lemma has_row_filter (u m : string) (d : Db) :
  has_row u m d <-> filter (ledger_key u m) (processed_emails d) <> [].
Proof.
  unfold has_row; rewrite in_map_iff; split.
  - intros [r [Hp Hin]] Hnil.
    assert (Hf : In r (filter (ledger_key u m) (processed_emails d)))
      by (apply filter_In; split; [assumption | apply ledger_key_pair; assumption]).
    rewrite Hnil in Hf; contradiction.
  - intros Hne.
    destruct (filter (ledger_key u m) (processed_emails d)) as [|r l] eqn:E; [congruence|].
    assert (Hf : In r (filter (ledger_key u m) (processed_emails d)))
      by (rewrite E; left; reflexivity).
    apply filter_In in Hf; destruct Hf as [Hin Hk].
    exists r; split; [apply ledger_key_pair; assumption | assumption].
Qed.

Lemma has_row_existsb (u m : string) (d : Db) :
  existsb (ledger_key u m) (processed_emails d) = true <-> has_row u m d.
Proof.
  unfold has_row; rewrite existsb_exists, in_map_iff.
  split; intros [r [H1 H2]]; exists r.
  - split; [apply ledger_key_pair; assumption | assumption].
  - split; [assumption | apply ledger_key_pair; assumption].
Qed.

(** Under the uniqueness invariant at most one row carries a given pair. *)
Lemma unique_filter (u m : string) (rows : list ProcessedEmails.row) :
  NoDup (map ledger_pair rows) ->
  filter (ledger_key u m) rows = []
  \/ exists r, filter (ledger_key u m) rows = [r].
Proof.
  induction rows as [|r rows IH]; intros Hnd; [left; reflexivity|].
  simpl in Hnd; inversion Hnd as [|x l Hnotin Hnd']; subst.
  simpl; destruct (ledger_key u m r) eqn:Hk.
  - right; exists r; f_equal.
    destruct (filter (ledger_key u m) rows) as [|r' l'] eqn:E; [reflexivity|].
    exfalso; apply Hnotin.
    assert (Hf : In r' (filter (ledger_key u m) rows)) by (rewrite E; left; reflexivity).
    apply filter_In in Hf; destruct Hf as [Hin Hk'].
    apply ledger_key_pair in Hk; apply ledger_key_pair in Hk'.
    rewrite Hk, <- Hk'; apply in_map; assumption.
  - apply IH; assumption.
Qed.

(** So [.single()] finds the row exactly when one exists. *)
Lemma select_processed_email_unique (u m : string) (d : Db) :
  ledger_unique d ->
  (has_row u m d /\ exists r, fst (select_processed_email u m d) = Some r)
  \/ (~ has_row u m d /\ fst (select_processed_email u m d) = None
      /\ filter (ledger_key u m) (processed_emails d) = []).
Proof.
  intros Hu; unfold select_processed_email; simpl.
  destruct (unique_filter u m _ Hu) as [E | [r E]].
  - right; rewrite has_row_filter, E; repeat split; congruence.
  - left; rewrite has_row_filter, E; split; [congruence | exists r; reflexivity].
Qed.

Lemma update_where_none {A} (p : A -> bool) (f : A -> A) (rows : list A) :
  filter p rows = [] -> update_where p f rows = rows.
Proof.
  induction rows as [|r rows IH]; intros H; [reflexivity|].
  simpl in *; destruct (p r); [discriminate | rewrite IH; auto].
Qed.

(** An update of ledger rows never changes the pairs the rows carry. *)
Lemma update_where_pairs (p : ProcessedEmails.row -> bool)
    (f : ProcessedEmails.row -> ProcessedEmails.row) rows :
  (forall r, ledger_pair (f r) = ledger_pair r) ->
  map ledger_pair (update_where p f rows) = map ledger_pair rows.
Proof.
  intros Hf; unfold update_where; rewrite map_map; apply map_ext.
  intros r; destruct (p r); [apply Hf | reflexivity].
Qed.

(** Inserting a row for a pair that has none appends it; inserting one for
    a pair that has a row changes nothing and reports the violation. *)
Lemma insert_processed_email_spec (r : ProcessedEmails.row) (d : Db) :
  (has_row (ProcessedEmails.user_id r) (ProcessedEmails.gmail_message_id r) d
   /\ exists e, insert_processed_email r d = (Some e, d))
  \/ (~ has_row (ProcessedEmails.user_id r) (ProcessedEmails.gmail_message_id r) d
      /\ insert_processed_email r d
         = (None, with_processed_emails (processed_emails d ++ [r]) d)).
Proof.
  unfold insert_processed_email.
  destruct (existsb _ (processed_emails d)) eqn:E.
  - left; split; [apply has_row_existsb; assumption | eexists; reflexivity].
  - right; split; [|reflexivity].
    intros H; apply has_row_existsb in H; congruence.
Qed.

Lemma insert_processed_email_unique (r : ProcessedEmails.row) (d : Db) :
  ledger_unique d -> ledger_unique (snd (insert_processed_email r d)).
Proof.
  intros Hu; destruct (insert_processed_email_spec r d) as [[_ [e ->]] | [Hno ->]];
    [exact Hu|].
  unfold ledger_unique; simpl; rewrite map_app; simpl.
  apply NoDup_app; [exact Hu | constructor; [intros [] | constructor] |].
  intros x Hx [<- | []]; apply Hno; exact Hx.
Qed.

(** ** While one message is being processed *)

Lemma quiet_same (u m : string) (s s' : St) :
  db s' = db s -> trace s' = trace s -> quiet u m s s'.
Proof.
  intros Hd Ht; split.
  - exists []; rewrite Ht, app_nil_r; split; [reflexivity | constructor].
  - intros _; rewrite Hd; reflexivity.
Qed.

Lemma quiet_trans (u m : string) (s1 s2 s3 : St) :
  quiet u m s1 s2 -> quiet u m s2 s3 -> quiet u m s1 s3.
Proof.
  intros [[c1 [T1 F1]] E1] [[c2 [T2 F2]] E2]; split.
  - exists (c1 ++ c2); rewrite T2, T1, app_assoc; split;
      [reflexivity | apply Forall_app; split; assumption].
  - intros Hnone; rewrite E2; [apply E1; assumption|].
    rewrite E1; assumption.
Qed.

Lemma quiet_fetch (u m : string) (e : Event) :
  about u m e -> keeps (quiet u m) (fetch e).
Proof.
  intros He s; split; simpl.
  - exists [e]; split; [reflexivity | constructor; [assumption | constructor]].
  - intros _; reflexivity.
Qed.

(** A statement that leaves [processed_emails] alone. *)
Lemma quiet_query_other {A} (u m : string) (q : Db -> A * Db) :
  (forall d, processed_emails (snd (q d)) = processed_emails d) ->
  keeps (quiet u m) (query q).
Proof.
  intros Hq s; unfold query.
  specialize (Hq (db s)); destruct (q (db s)) as [a d]; simpl in *; split; simpl.
  - exists []; rewrite app_nil_r; split; [reflexivity | constructor].
  - intros _; assumption.
Qed.

Lemma quiet_update_invoice (u m : string) (invoice : nat) :
  keeps (quiet u m) (query (update_processed_email_invoice u m invoice)).
Proof.
  intros s; split; simpl.
  - exists []; rewrite app_nil_r; split; [reflexivity | constructor].
  - intros Hnone; apply update_where_none; assumption.
Qed.

Lemma quiet_update_rejected (u m : string) (reason : string) :
  keeps (quiet u m) (query (update_processed_email_rejected u m reason)).
Proof.
  intros s; split; simpl.
  - exists []; rewrite app_nil_r; split; [reflexivity | constructor].
  - intros Hnone; apply update_where_none; assumption.
Qed.

Lemma insert_invoice_ledger (w : World) (x : Invoices.data) (d : Db) :
  processed_emails (snd (insert_invoice w x d)) = processed_emails d.
Proof. unfold insert_invoice; destruct (invoices_insert_error w x); reflexivity. Qed.

Ltac quiet_step u m :=
  first
    [ apply (keeps_bind (quiet u m) (quiet_trans u m)); [|intros ?]
    | apply (keeps_try_catch (quiet u m) (quiet_trans u m)); [|intros ?]
    | apply (keeps_ret (quiet u m) (quiet_same u m))
    | apply (keeps_throw (quiet u m) (quiet_same u m))
    | apply (keeps_json_of (quiet u m) (quiet_same u m))
    | apply (keeps_Date_now (quiet u m) (quiet_same u m))
    | apply (keeps_toISODate (quiet u m) (quiet_same u m))
    | apply (keeps_toISOString (quiet u m) (quiet_same u m))
    | apply (keeps_count_processed (quiet u m) (quiet_same u m))
    | apply (keeps_count_invoice (quiet u m) (quiet_same u m))
    | apply quiet_update_invoice
    | apply quiet_update_rejected
    | apply quiet_query_other; intros ?;
        first [reflexivity | apply insert_invoice_ledger]
    | apply quiet_fetch; simpl; auto
    | match goal with |- keeps _ (if ?b then _ else _) => destruct b end ].

Lemma quiet_classify_document (w : World) (req : ClassifyRequest.t) (u m : string) :
  ClassifyRequest.user_id req = u ->
  ClassifyRequest.gmail_message_id req = Some m ->
  keeps (quiet u m) (classify_document w req).
Proof.
  intros Hu Hm; unfold classify_document, classify_document_body.
  quiet_step u m; [|quiet_step u m].
  destruct (negb (well_formed req)); [quiet_step u m|].
  quiet_step u m; [quiet_step u m|].
  destruct (limit_reached a); [quiet_step u m|].
  quiet_step u m; [quiet_step u m|].
  destruct (openai w a0 (image_url_of req)) as [e|e|e|content];
    try solve [quiet_step u m].
  quiet_step u m.
  - unfold parse_classification; destruct content as [content|]; [|quiet_step u m].
    destruct (JSON_parse w (json_text content)); quiet_step u m.
  - destruct a1 as [| |c]; try solve [quiet_step u m].
    destruct (is_invoice c), (extracted c) as [x|];
      unfold materialize, reject; rewrite ?Hu, ?Hm; simpl;
      repeat quiet_step u m.
    destruct a3 as [e|invoice]; repeat quiet_step u m.
Qed.

Lemma quiet_process_attachment (w : World) (u : string) (tok : option string)
    (m : string) (part : Part) :
  keeps (quiet u m) (process_attachment w u tok m part).
Proof.
  unfold process_attachment.
  destruct (negb (Js.includes "pdf" (mimeType part))
            && negb (Js.includes "image" (mimeType part))); [quiet_step u m|].
  quiet_step u m; [quiet_step u m|].
  quiet_step u m; [quiet_step u m|].
  quiet_step u m; [apply quiet_fetch; split; reflexivity|].
  quiet_step u m; [apply quiet_classify_document; reflexivity|].
  repeat quiet_step u m.
Qed.

Lemma quiet_process_attachments (w : World) (u : string) (tok : option string)
    (m : string) (ps : list Part) :
  keeps (quiet u m) (process_attachments w u tok m ps).
Proof.
  induction ps as [|part ps IH]; simpl; [quiet_step u m|].
  quiet_step u m; [apply quiet_process_attachment | exact IH].
Qed.

(** ** One pass of the message loop *)

Lemma record_outcome (u m : string) (st : ProcessedEmails.status_text)
    (reason : option string) (s : St) :
  ~ has_row u m (db s) ->
  query (insert_processed_email (ledger_row u m st reason)) s
  = (Return None,
     with_db (with_processed_emails
                (processed_emails (db s) ++ [ledger_row u m st reason]) (db s)) s).
Proof.
  intros Hno; unfold query.
  destruct (insert_processed_email_spec (ledger_row u m st reason) (db s))
    as [[Hrow _] | [_ ->]]; [contradiction | reflexivity].
Qed.

(** A message that has a ledger row is skipped: nothing is fetched, nothing
    is classified, nothing is written. *)
Lemma process_message_skips (w : World) (u : string) (tok : option string)
    (m : string) (s : St) :
  ledger_unique (db s) -> has_row u m (db s) ->
  exists s',
    process_message w u tok m s = (Return tt, s')
    /\ db s' = db s /\ trace s' = trace s.
Proof.
  intros Hu Hrow.
  destruct (select_processed_email_unique u m (db s) Hu) as [[_ [r E]] | [Hno _]];
    [|contradiction].
  unfold process_message, try_catch, bind, query.
  unfold select_processed_email in *; simpl in E; rewrite E; simpl.
  eexists; repeat split.
Qed.

(** A message that has none is fetched and ends with exactly one new ledger
    row, written by the scanner itself without an invoice id: [processed]
    when the pass ran to its end, [error] with the message of whatever was
    thrown otherwise. *)
Lemma process_message_records (w : World) (u : string) (tok : option string)
    (m : string) (s : St) :
  ledger_unique (db s) -> ~ has_row u m (db s) ->
  exists calls st reason s',
    process_message w u tok m s = (Return tt, s')
    /\ trace s' = trace s ++ GmailGetMessage (bearer tok) m :: calls
    /\ Forall (about u m) calls
    /\ processed_emails (db s')
       = processed_emails (db s) ++ [ledger_row u m st reason]
    /\ (st = ProcessedEmails.processed /\ reason = None
        \/ st = ProcessedEmails.error /\ reason <> None).
Proof.
  intros Hu Hno.
  destruct (select_processed_email_unique u m (db s) Hu) as [[Hrow _] | [_ [E Hnone]]];
    [contradiction|].
  assert (Hfail : forall msg s2 calls,
             trace s2 = trace s ++ GmailGetMessage (bearer tok) m :: calls ->
             Forall (about u m) calls ->
             processed_emails (db s2) = processed_emails (db s) ->
             exists calls' st reason s',
               (query (insert_processed_email
                         (ledger_row u m ProcessedEmails.error (Some msg)));; ret tt) s2
               = (Return tt, s')
               /\ trace s' = trace s ++ GmailGetMessage (bearer tok) m :: calls'
               /\ Forall (about u m) calls'
               /\ processed_emails (db s')
                  = processed_emails (db s) ++ [ledger_row u m st reason]
               /\ (st = ProcessedEmails.processed /\ reason = None
                   \/ st = ProcessedEmails.error /\ reason <> None)).
  { intros msg s2 calls Ht Hf Hpe.
    exists calls, ProcessedEmails.error, (Some msg).
    unfold bind; rewrite record_outcome
      by (unfold has_row in *; rewrite Hpe; exact Hno).
    eexists; split; [reflexivity|].
    simpl; rewrite Hpe; repeat split; try assumption.
    right; split; [reflexivity | discriminate]. }
  unfold process_message, try_catch, bind at 1, query at 1.
  unfold select_processed_email in *; simpl in E; simpl fst; simpl snd; rewrite E.
  set (s1 := {| db := db s; trace := trace s ++ [GmailGetMessage (bearer tok) m];
                processedCount := processedCount s; invoiceCount := invoiceCount s |}).
  unfold bind at 1, fetch at 1; simpl; fold s1.
  destruct (gmail_message w (length (trace s)) (bearer tok) m) as [e|e|fullMessage];
    simpl json_of; unfold bind at 1.
  1,2: unfold throw at 1; apply (Hfail e s1 []); simpl;
       [reflexivity | constructor | reflexivity].
  unfold ret at 1, attachments_of.
  destruct (payload fullMessage) as [p|]; unfold bind at 1.
  2: unfold throw at 1; apply (Hfail _ s1 []); simpl;
     [reflexivity | constructor | reflexivity].
  set (atts := match parts p with Some ps => filter is_attachment ps | None => [] end).
  assert (Hatts : (match parts p with
                   | Some ps => ret (filter is_attachment ps)
                   | None => ret []
                   end) s1 = (Return atts, s1)) by (unfold atts; destruct (parts p); reflexivity).
  rewrite Hatts; unfold bind at 1.
  destruct (quiet_process_attachments w u tok m atts s1) as [[calls [Ht Hf]] Hpe].
  specialize (Hpe Hnone).
  destruct (process_attachments w u tok m atts s1) as [[[]|msg] s2]; simpl in Ht, Hpe.
  - exists calls, ProcessedEmails.processed, None.
    unfold bind; rewrite record_outcome
      by (unfold has_row in *; rewrite Hpe; exact Hno).
    eexists; split; [reflexivity|].
    simpl; rewrite Hpe, Ht; unfold s1; simpl; rewrite <- app_assoc.
    repeat split; try assumption.
    left; split; reflexivity.
  - apply (Hfail msg s2 calls); [|assumption|assumption].
    rewrite Ht; unfold s1; simpl; rewrite <- app_assoc; reflexivity.
Qed.

(** [classify-document] answers every request: whatever its body throws is
    turned into a response. *)
Lemma classify_document_returns (w : World) (req : ClassifyRequest.t) (s : St) :
  exists response s', classify_document w req s = (Return response, s').
Proof.
  unfold classify_document, try_catch.
  destruct (classify_document_body w req s) as [[r|msg] s1]; eexists; eexists; reflexivity.
Qed.

(** So the attachment loop can only be left early by a failing attachment
    fetch. *)
Lemma process_attachments_returns (w : World) (u : string) (tok : option string)
    (m : string) (ps : list Part) (s : St) :
  (forall t id, exists body, gmail_attachment w t (bearer tok) m id = Json body) ->
  exists s', process_attachments w u tok m ps s = (Return tt, s').
Proof.
  intros Hfetch; revert s; induction ps as [|part ps IH]; intros s;
    [eexists; reflexivity|].
  simpl; unfold bind at 1.
  assert (Hone : exists s1, process_attachment w u tok m part s = (Return tt, s1)).
  { unfold process_attachment.
    destruct (negb (Js.includes "pdf" (mimeType part))
              && negb (Js.includes "image" (mimeType part))); [eexists; reflexivity|].
    unfold bind at 1, fetch at 1; simpl.
    destruct (Hfetch (length (trace s)) (Js.render (attachmentId part))) as [body ->].
    simpl json_of; unfold bind at 1, ret at 1, bind at 1, fetch at 1; simpl.
    unfold bind at 1.
    match goal with
    | |- context [classify_document w ?r ?s0] =>
        destruct (classify_document_returns w r s0) as [response [s1 ->]]
    end.
    destruct (result_is_invoice response); eexists; reflexivity. }
  destruct Hone as [s1 ->]; apply IH.
Qed.

(** Whatever [classify-document] answered for its attachments (accepted,
    rejected, over the limit, unparsable reply), a message whose fetches
    from the mail provider succeed is recorded as [processed], with neither
    an invoice id nor a reason. *)
Lemma process_message_marks_processed (w : World) (u : string) (tok : option string)
    (m : string) (s : St) (fullMessage : GmailMessage) (p : Payload) :
  ledger_unique (db s) -> ~ has_row u m (db s) ->
  gmail_message w (length (trace s)) (bearer tok) m = Json fullMessage ->
  payload fullMessage = Some p ->
  (forall t id, exists body, gmail_attachment w t (bearer tok) m id = Json body) ->
  exists s',
    process_message w u tok m s = (Return tt, s')
    /\ processed_emails (db s')
       = processed_emails (db s) ++ [ledger_row u m ProcessedEmails.processed None].
Proof.
  intros Hu Hno Hmsg Hpay Hfetch.
  destruct (select_processed_email_unique u m (db s) Hu) as [[Hrow _] | [_ [E Hnone]]];
    [contradiction|].
  unfold process_message, try_catch, bind at 1, query at 1.
  unfold select_processed_email in *; simpl in E; simpl fst; simpl snd; rewrite E.
  set (s1 := {| db := db s; trace := trace s ++ [GmailGetMessage (bearer tok) m];
                processedCount := processedCount s; invoiceCount := invoiceCount s |}).
  unfold bind at 1, fetch at 1; simpl; fold s1.
  rewrite Hmsg; simpl json_of; unfold bind at 1, ret at 1, attachments_of.
  rewrite Hpay; unfold bind at 1.
  set (atts := match parts p with Some ps => filter is_attachment ps | None => [] end).
  assert (Hatts : (match parts p with
                   | Some ps => ret (filter is_attachment ps)
                   | None => ret []
                   end) s1 = (Return atts, s1)) by (unfold atts; destruct (parts p); reflexivity).
  rewrite Hatts; unfold bind at 1.
  destruct (quiet_process_attachments w u tok m atts s1) as [_ Hpe].
  specialize (Hpe Hnone).
  destruct (process_attachments_returns w u tok m atts s1 Hfetch) as [s2 Hret].
  rewrite Hret in Hpe |- *; simpl in Hpe.
  unfold bind; rewrite record_outcome
    by (unfold has_row in *; rewrite Hpe; exact Hno).
  eexists; split; [reflexivity|].
  simpl; rewrite Hpe; reflexivity.
Qed.

(** ** A whole scan *)

Lemma ledger_step_same (u : string) (s s' : St) :
  db s' = db s -> trace s' = trace s -> ledger_step u s s'.
Proof.
  intros Hd Ht Hu; exists [], []; rewrite Hd, Ht, !app_nil_r.
  repeat split; try assumption; try constructor.
  all: destruct H as [request [[] _]].
Qed.

Lemma has_row_app (u m : string) (d d' : Db) (rows : list ProcessedEmails.row) :
  processed_emails d' = processed_emails d ++ rows ->
  has_row u m d -> has_row u m d'.
Proof.
  unfold has_row; intros -> H; rewrite map_app; apply in_or_app; left; exact H.
Qed.

Lemma ledger_step_trans (u : string) (s1 s2 s3 : St) :
  ledger_step u s1 s2 -> ledger_step u s2 s3 -> ledger_step u s1 s3.
Proof.
  intros H12 H23 Hu.
  destruct (H12 Hu) as [c1 [r1 [T1 [P1 [U2 [F1 C1]]]]]].
  destruct (H23 U2) as [c2 [r2 [T2 [P2 [U3 [F2 C2]]]]]].
  exists (c1 ++ c2), (r1 ++ r2).
  rewrite T2, T1, P2, P1, !app_assoc.
  repeat split; try reflexivity; try assumption.
  - apply Forall_app; split; assumption.
  - destruct H as [request [Hin Hm]].
    apply in_app_or in Hin; destruct Hin as [Hin | Hin].
    + apply (C1 m); exists request; split; assumption.
    + intros Hrow; apply (C2 m); [exists request; split; assumption|].
      eapply has_row_app; eassumption.
  - destruct H as [request [Hin Hm]].
    apply in_app_or in Hin; destruct Hin as [Hin | Hin].
    + eapply has_row_app; [eassumption|].
      apply (C1 m); exists request; split; assumption.
    + apply (C2 m); exists request; split; assumption.
Qed.

Lemma classified_about (u m m' : string) (calls : list Event) :
  Forall (about u m) calls -> classified m' calls -> m' = m.
Proof.
  intros Hf [request [Hin Hm]].
  rewrite Forall_forall in Hf; specialize (Hf _ Hin); simpl in Hf.
  destruct Hf as [_ Hf]; congruence.
Qed.

Lemma ledger_step_process_message (w : World) (u : string) (tok : option string)
    (m : string) :
  keeps (ledger_step u) (process_message w u tok m).
Proof.
  intros s Hu.
  destruct (select_processed_email_unique u m (db s) Hu) as [[Hrow _] | [Hno _]].
  - destruct (process_message_skips w u tok m s Hu Hrow) as [s' [-> [Hd Ht]]]; simpl.
    exact (ledger_step_same u s s' Hd Ht Hu).
  - destruct (process_message_records w u tok m s Hu Hno)
      as [calls [st [reason [s' [-> [Ht [Hf [Hpe Hst]]]]]]]]; simpl.
    assert (Hnew : has_row u m (db s')).
    { unfold has_row; rewrite Hpe, map_app; apply in_or_app; right; left; reflexivity. }
    exists (GmailGetMessage (bearer tok) m :: calls), [ledger_row u m st reason].
    repeat split; try assumption.
    + unfold ledger_unique; rewrite Hpe, map_app; simpl.
      apply NoDup_app; [exact Hu | constructor; [intros [] | constructor] |].
      intros x Hx [<- | []]; apply Hno; exact Hx.
    + constructor; [|constructor]; simpl; split; [reflexivity|].
      destruct Hst as [[-> _] | [-> _]]; discriminate.
    + assert (m0 = m) as ->; [|assumption].
      apply (classified_about u m m0 calls Hf).
      destruct H as [request [[Hin | Hin] Hm]]; [discriminate|].
      exists request; split; assumption.
    + assert (m0 = m) as ->; [|assumption].
      apply (classified_about u m m0 calls Hf).
      destruct H as [request [[Hin | Hin] Hm]]; [discriminate|].
      exists request; split; assumption.
Qed.

Lemma ledger_step_process_messages (w : World) (u : string) (tok : option string)
    (ms : list string) :
  keeps (ledger_step u) (process_messages w u tok ms).
Proof.
  induction ms as [|m ms IH]; simpl.
  - apply (keeps_ret _ (ledger_step_same u)).
  - apply (keeps_bind _ (ledger_step_trans u));
      [apply ledger_step_process_message | intros _; exact IH].
Qed.

(** A remote call other than a post to [classify-document]. *)
Lemma ledger_step_fetch (u : string) (e : Event) :
  (forall request, e <> ClassifyDocument request) ->
  keeps (ledger_step u) (fetch e).
Proof.
  intros He s Hu; exists [e], []; simpl; rewrite app_nil_r.
  repeat split; try assumption; try constructor.
  all: destruct H as [request [[Hin | []] _]]; exfalso; apply (He request Hin).
Qed.

(** A statement that leaves [processed_emails] alone. *)
Lemma ledger_step_query_other {A} (u : string) (q : Db -> A * Db) :
  (forall d, processed_emails (snd (q d)) = processed_emails d) ->
  keeps (ledger_step u) (query q).
Proof.
  intros Hq s Hu; unfold query.
  specialize (Hq (db s)); destruct (q (db s)) as [a d]; simpl in *.
  exists [], []; simpl; rewrite !app_nil_r.
  repeat split; try assumption; try constructor.
  - unfold ledger_unique; rewrite Hq; exact Hu.
  - destruct H as [request [[] _]].
  - destruct H as [request [[] _]].
Qed.

Ltac ledger_tac u :=
  first
    [ apply (keeps_bind (ledger_step u) (ledger_step_trans u)); [|intros ?]
    | apply (keeps_try_catch (ledger_step u) (ledger_step_trans u)); [|intros ?]
    | apply (keeps_ret (ledger_step u) (ledger_step_same u))
    | apply (keeps_throw (ledger_step u) (ledger_step_same u))
    | apply (keeps_json_of (ledger_step u) (ledger_step_same u))
    | apply (keeps_Date_now (ledger_step u) (ledger_step_same u))
    | apply (keeps_toISODate (ledger_step u) (ledger_step_same u))
    | apply (keeps_toISOString (ledger_step u) (ledger_step_same u))
    | apply (keeps_reset_counters (ledger_step u) (ledger_step_same u))
    | apply (keeps_read_counters (ledger_step u) (ledger_step_same u))
    | apply ledger_step_process_messages
    | apply ledger_step_query_other; intros ?; reflexivity
    | apply ledger_step_fetch; intros ?; discriminate
    | match goal with |- keeps _ (if ?b then _ else _) => destruct b end
    | match goal with |- keeps _ (match ?x with Some _ => _ | None => _ end) =>
        destruct x end ].

Lemma ledger_step_gmail_sync (w : World) (req : SyncRequest.t) :
  keeps (ledger_step (SyncRequest.user_id req)) (gmail_sync w req).
Proof.
  unfold gmail_sync, gmail_sync_body, refresh_if_expired, build_query.
  repeat ledger_tac (SyncRequest.user_id req).
Qed.

(** ** Remote calls made by [classify-document] *)

Lemma same_trace_same (s s' : St) : db s' = db s -> trace s' = trace s -> same_trace s s'.
Proof. intros _ H; exact H. Qed.

Lemma same_trace_trans (s1 s2 s3 : St) :
  same_trace s1 s2 -> same_trace s2 s3 -> same_trace s1 s3.
Proof. unfold same_trace; congruence. Qed.

Lemma same_trace_query {A} (q : Db -> A * Db) : keeps same_trace (query q).
Proof. intros s; unfold query, same_trace; destruct (q (db s)); reflexivity. Qed.

Ltac silent_step :=
  first
    [ apply (keeps_bind same_trace same_trace_trans); [|intros ?]
    | apply (keeps_ret same_trace same_trace_same)
    | apply (keeps_throw same_trace same_trace_same)
    | apply (keeps_Date_now same_trace same_trace_same)
    | apply (keeps_toISODate same_trace same_trace_same)
    | apply same_trace_query
    | match goal with |- keeps _ (if ?b then _ else _) => destruct b end
    | match goal with |- keeps _ (match ?x with inl _ => _ | inr _ => _ end) =>
        destruct x end ].

Lemma materialize_silent (w : World) (req : ClassifyRequest.t) (c : Classification)
    (d : ExtractedData) : keeps same_trace (materialize w req c d).
Proof. unfold materialize; repeat silent_step. Qed.

Lemma reject_silent (req : ClassifyRequest.t) (c : Classification) :
  keeps same_trace (reject req c).
Proof. unfold reject; repeat silent_step. Qed.

(** The document-limit gate decides whether the vision model is called: a
    well-formed request makes exactly one call to it unless the gate
    blocks, and then it makes none. *)
Lemma classify_document_calls (w : World) (req : ClassifyRequest.t) (s : St) :
  well_formed req = true ->
  trace (snd (classify_document w req s))
  = if limit_reached (fst (select_profile (ClassifyRequest.user_id req) (db s)))
    then trace s
    else trace s ++ [OpenAiVision (image_url_of req)].
Proof.
  intros Hwf.
  unfold classify_document, classify_document_body, try_catch; rewrite Hwf; simpl negb.
  unfold bind at 1, query at 1; simpl.
  destruct (limit_reached _); [reflexivity|].
  unfold bind at 1, fetch at 1; simpl.
  destruct (openai w (length (trace s)) (image_url_of req)) as [e|e|e|content];
    try reflexivity.
  unfold bind at 1, parse_classification.
  destruct content as [content|]; [|reflexivity].
  destruct (JSON_parse w (json_text content)) as [| |c]; try reflexivity.
  unfold ret at 1.
  match goal with
  | |- trace (snd (let (o, s') := ?branch ?s0 in _)) = _ =>
      assert (H : same_trace s0 (snd (branch s0)))
        by (destruct (is_invoice c), (extracted c);
            first [apply materialize_silent | apply reject_silent]);
      destruct (branch s0) as [[r|msg] s1]
  end; exact H.
Qed.

(** A blocked request changes nothing at all. *)
Lemma classify_document_blocked (w : World) (req : ClassifyRequest.t) (s : St) :
  well_formed req = true ->
  limit_reached (fst (select_profile (ClassifyRequest.user_id req) (db s))) = true ->
  fst (classify_document w req s)
  = Return (ClassifyError "Document limit reached. Please upgrade your plan.")
  /\ db (snd (classify_document w req s)) = db s
  /\ trace (snd (classify_document w req s)) = trace s.
Proof.
  intros Hwf Hlim.
  unfold classify_document, classify_document_body, try_catch; rewrite Hwf; simpl negb.
  unfold select_profile in Hlim; simpl in Hlim.
  unfold bind, query, select_profile; simpl.
  rewrite Hlim; repeat split.
Qed.

(** ** The document-limit gate *)

(** C10.  When the profile read finds no row for the user, the
    document-limit check is skipped and the vision model is called; the
    gate keeps a well-formed request from reaching the model exactly when
    a profile row exists whose [document_count] is at least its
    [document_limit]. *)
Theorem C10_gate_needs_a_profile_row (w : World) (req : ClassifyRequest.t) (s : St) :
  well_formed req = true ->
  (fst (select_profile (ClassifyRequest.user_id req) (db s)) = None ->
   trace (snd (classify_document w req s))
   = trace s ++ [OpenAiVision (image_url_of req)])
  /\ (trace (snd (classify_document w req s)) = trace s
      <-> exists profile,
            fst (select_profile (ClassifyRequest.user_id req) (db s)) = Some profile
            /\ Js.to_number (Profiles.document_limit profile)
               <= Js.to_number (Profiles.document_count profile)).
Proof.
  intros Hwf; rewrite (classify_document_calls w req s Hwf).
  destruct (fst (select_profile (ClassifyRequest.user_id req) (db s))) as [p|];
    simpl; unfold Js.ge.
  - split; [discriminate|].
    destruct (Z.leb_spec (Js.to_number (Profiles.document_limit p))
                (Js.to_number (Profiles.document_count p))) as [Hle | Hlt].
    + split; [intros _; exists p; split; [reflexivity | exact Hle] | reflexivity].
    + split.
      * intros H; apply (f_equal (@length Event)) in H.
        rewrite length_app in H; simpl in H; lia.
      * intros [p' [E Hle]]; injection E as <-; lia.
  - split; [reflexivity|].
    split.
    + intros H; apply (f_equal (@length Event)) in H.
      rewrite length_app in H; simpl in H; lia.
    + intros [p' [E _]]; discriminate.
Qed.

(** C10 at an upload by a user without a profile row. *)
Lemma C10_gate_needs_a_profile_row_witness :
  well_formed Scenario.upload_request = true
  /\ trace (snd (classify_document
                   (Scenario.world Scenario.granted [Scenario.pdf_part]
                      Scenario.accepted_json (JsonValue Scenario.accepted))
                   Scenario.upload_request
                   (start (Scenario.store Scenario.token_row []))))
     = [] ++ [OpenAiVision (image_url_of Scenario.upload_request)].
Proof.
  split; [reflexivity|].
  apply (proj1 (C10_gate_needs_a_profile_row
                  (Scenario.world Scenario.granted [Scenario.pdf_part]
                     Scenario.accepted_json (JsonValue Scenario.accepted))
                  Scenario.upload_request
                  (start (Scenario.store Scenario.token_row []))
                  eq_refl)).
  reflexivity.
Defined.

(** C3.  A user at the limit ([document_count = 5], [document_limit = 5])
    whose mailbox holds one message with a PDF: [classify-document]
    answers with the limit error and the vision model is never called, but
    the scanner still records the message as [processed]. *)
Theorem C3_message_over_limit_is_marked_processed :
  let w := Scenario.world Scenario.granted [Scenario.pdf_part]
             Scenario.accepted_json (JsonValue Scenario.accepted) in
  let d := Scenario.store Scenario.token_row [Scenario.profile 5 5] in
  let request := classify_request "u1" "m1" Scenario.pdf_part (Some "JVBERi0xLjQ=") in
  fst (classify_document w request (start d))
  = Return (ClassifyError "Document limit reached. Please upgrade your plan.")
  /\ (forall url, ~ In (OpenAiVision url)
                      (trace (snd (gmail_sync w Scenario.sync_request (start d)))))
  /\ invoices (db (snd (gmail_sync w Scenario.sync_request (start d)))) = []
  /\ processed_emails (db (snd (gmail_sync w Scenario.sync_request (start d))))
     = [ledger_row "u1" "m1" ProcessedEmails.processed None].
Proof.
  cbv zeta; split; [vm_compute; reflexivity|].
  split; [|split; vm_compute; reflexivity].
  intros url H; vm_compute in H.
  repeat (destruct H as [H | H]; [discriminate|]); exact H.
Qed.

(** ** Materialization *)

(** C8, as stated, fails: a verdict with [is_invoice = true] but without a
    [data] object takes the rejecting branch, and no invoice is written. *)
Lemma C8_counterexample :
  let w := Scenario.world Scenario.granted [Scenario.pdf_part]
             Scenario.accepted_without_data_json
             (JsonValue Scenario.accepted_without_data) in
  let d := Scenario.store Scenario.token_row [Scenario.profile 0 5] in
  is_invoice Scenario.accepted_without_data = true
  /\ fst (classify_document w Scenario.upload_request (start d))
     = Return (ClassifyOk Scenario.accepted_without_data None)
  /\ invoices (db (snd (classify_document w Scenario.upload_request (start d)))) = [].
Proof. cbv zeta; repeat split; vm_compute; reflexivity. Qed.

(** C8, amended.  For every verdict with [is_invoice = true] that carries a
    [data] object, the invoice is built and inserted, and every extracted
    field that is absent gets its default: the unknown-supplier label, a
    document number [AUTO-<Date.now()>], today's date as document date, and
    the default business-type and category labels.  For every verdict with
    [is_invoice = true] and no [data] object, nothing is materialized:
    [classify-document] inserts no invoice, counts no document, and answers
    with the verdict and no invoice id. *)
Theorem C8_defaults_for_absent_fields (w : World) (req : ClassifyRequest.t) (s : St)
    (content : string) (c : Classification) :
  well_formed req = true ->
  limit_reached (fst (select_profile (ClassifyRequest.user_id req) (db s))) = false ->
  openai w (length (trace s)) (image_url_of req) = AiContent (Some content) ->
  JSON_parse w (json_text content) = JsonValue c ->
  is_invoice c = true ->
  (forall (d : ExtractedData) (today : string),
     let now := clock w (S (length (trace s))) in
     let x := invoiceData (ClassifyRequest.user_id req) c d now today in
     extracted c = Some d ->
     JsDate.iso_date (Some now) = Some today ->
     invoices_insert_error w x = None ->
     fst (classify_document w req s)
     = Return (ClassifyOk c (Some (length (invoices (db s)))))
     /\ invoices (db (snd (classify_document w req s)))
        = invoices (db s)
          ++ [{| Invoices.id := length (invoices (db s)); Invoices.fields := x |}]
     /\ (supplier_name d = None -> Invoices.supplier_name x = "לא זוהה")
     /\ (document_number d = None
         -> Invoices.document_number x = ("AUTO-" ++ Js.of_Z now)%string)
     /\ (document_date d = None -> Invoices.document_date x = today)
     /\ (business_type d = None -> Invoices.business_type x = "עוסק מורשה")
     /\ (category d = None -> Invoices.category x = "כללי"))
  /\ (extracted c = None ->
      fst (classify_document w req s) = Return (ClassifyOk c None)
      /\ invoices (db (snd (classify_document w req s))) = invoices (db s)
      /\ profiles (db (snd (classify_document w req s))) = profiles (db s)).
Proof.
  intros Hwf Hlim Hai Hparse Hinv.
  unfold select_profile in Hlim; simpl in Hlim.
  split.
  - intros d today now x Hdata Htoday Hins.
    assert (Hrun : exists s',
               classify_document w req s
               = (Return (ClassifyOk c (Some (length (invoices (db s))))), s')
               /\ invoices (db s')
                  = invoices (db s)
                    ++ [{| Invoices.id := length (invoices (db s));
                           Invoices.fields := x |}]).
    { unfold classify_document, classify_document_body, try_catch; rewrite Hwf; simpl negb.
      unfold bind at 1, query at 1, select_profile; simpl; rewrite Hlim.
      unfold bind at 1, fetch at 1; simpl; rewrite Hai.
      unfold bind at 1, parse_classification; rewrite Hparse.
      unfold ret at 1; rewrite Hinv, Hdata.
      unfold materialize.
      unfold bind at 1, Date_now at 1; simpl; rewrite length_app; simpl.
      replace (length (trace s) + 1)%nat with (S (length (trace s))) by lia.
      fold now; unfold toISODate; rewrite Htoday.
      unfold bind at 1, ret at 1, bind at 1, query at 1, insert_invoice; simpl.
      fold x; rewrite Hins; simpl.
      destruct (Js.truthy (ClassifyRequest.gmail_message_id req));
        eexists; split; reflexivity. }
    destruct Hrun as [s' [-> H2]]; simpl.
    split; [reflexivity | split; [exact H2|]].
    unfold x, invoiceData; simpl.
    repeat split; intros ->; reflexivity.
  - intros Hnone.
    assert (Hrun : exists s',
               classify_document w req s = (Return (ClassifyOk c None), s')
               /\ invoices (db s') = invoices (db s)
               /\ profiles (db s') = profiles (db s)).
    { unfold classify_document, classify_document_body, try_catch; rewrite Hwf; simpl negb.
      unfold bind at 1, query at 1, select_profile; simpl; rewrite Hlim.
      unfold bind at 1, fetch at 1; simpl; rewrite Hai.
      unfold bind at 1, parse_classification; rewrite Hparse.
      unfold ret at 1; rewrite Hinv, Hnone.
      unfold reject.
      destruct (Js.truthy (ClassifyRequest.gmail_message_id req));
        eexists; repeat split. }
    destruct Hrun as [s' [-> [H2 H3]]]; simpl.
    split; [reflexivity | split; assumption].
Qed.

(** C8 (amended) at a verdict whose [data] object is empty, and at a
    verdict without a [data] object. *)
Lemma C8_defaults_for_absent_fields_witness :
  let w := Scenario.world Scenario.granted [Scenario.pdf_part]
             Scenario.accepted_json (JsonValue Scenario.accepted) in
  let w0 := Scenario.world Scenario.granted [Scenario.pdf_part]
              Scenario.accepted_without_data_json
              (JsonValue Scenario.accepted_without_data) in
  let s := start (Scenario.store Scenario.token_row [Scenario.profile 0 5]) in
  well_formed Scenario.upload_request = true
  /\ is_invoice Scenario.accepted = true
  /\ extracted Scenario.accepted = Some Scenario.no_data
  /\ fst (classify_document w Scenario.upload_request s)
     = Return (ClassifyOk Scenario.accepted (Some 0%nat))
  /\ is_invoice Scenario.accepted_without_data = true
  /\ extracted Scenario.accepted_without_data = None
  /\ fst (classify_document w0 Scenario.upload_request s)
     = Return (ClassifyOk Scenario.accepted_without_data None).
Proof.
  cbv zeta; split; [reflexivity | split; [reflexivity | split; [reflexivity|]]].
  split; [|split; [reflexivity | split; [reflexivity|]]].
  - refine (proj1 (proj1 (C8_defaults_for_absent_fields
                     (Scenario.world Scenario.granted [Scenario.pdf_part]
                        Scenario.accepted_json (JsonValue Scenario.accepted))
                     Scenario.upload_request
                     (start (Scenario.store Scenario.token_row [Scenario.profile 0 5]))
                     Scenario.accepted_json Scenario.accepted _ _ _ _ _)
                   Scenario.no_data "2026-01-06" _ _ _));
      vm_compute; reflexivity.
  - refine (proj1 (proj2 (C8_defaults_for_absent_fields
                     (Scenario.world Scenario.granted [Scenario.pdf_part]
                        Scenario.accepted_without_data_json
                        (JsonValue Scenario.accepted_without_data))
                     Scenario.upload_request
                     (start (Scenario.store Scenario.token_row [Scenario.profile 0 5]))
                     Scenario.accepted_without_data_json
                     Scenario.accepted_without_data _ _ _ _ _) _));
      vm_compute; reflexivity.
Defined.

(** ** Token refresh *)

(** When the exchange yields no [expires_in] the handler throws while it
    builds the [update]: [new Date(NaN).toISOString()] is a [RangeError].
    Nothing has been written by then and only the exchange was called. *)
Lemma refresh_without_expiry_throws (w : World) (u : string)
    (tokenData : GmailTokens.row) (s : St) :
  GmailTokens.token_expiry tokenData < clock w (length (trace s)) ->
  refresh_failed (oauth_token w (length (trace s)) (GmailTokens.refresh_token tokenData))
  = true ->
  exists message s',
    refresh_if_expired w u tokenData s = (Throw message, s')
    /\ db s' = db s
    /\ trace s' = trace s ++ [TokenRefresh (GmailTokens.refresh_token tokenData)].
Proof.
  intros Hexp Hfail.
  unfold refresh_if_expired, bind at 1, Date_now at 1.
  apply Z.ltb_lt in Hexp; rewrite Hexp.
  unfold bind at 1, fetch at 1; simpl.
  destruct (oauth_token w (length (trace s)) (GmailTokens.refresh_token tokenData))
    as [e|e|body]; simpl json_of; unfold bind at 1.
  - exists e; eexists; repeat split.
  - exists e; eexists; repeat split.
  - destruct body as [[a|] [e|]]; simpl in Hfail; try discriminate.
    unfold ret at 1, bind at 1, Date_now at 1, bind at 1; simpl.
    exists "Invalid time value"; eexists; repeat split.
Qed.

(** C4.  When the stored token is expired and the exchange fails, the scan
    ends with a single error response; the datastore (so also the ledger)
    is as it was, and the only remote call made is the exchange itself: no
    call to the mail provider. *)
Theorem C4_failed_refresh_aborts_the_scan (w : World) (req : SyncRequest.t) (s : St)
    (tokenData : GmailTokens.row) :
  SyncRequest.user_id req <> "" ->
  fst (select_gmail_token (SyncRequest.user_id req) (db s)) = Some tokenData ->
  GmailTokens.token_expiry tokenData < clock w (length (trace s)) ->
  refresh_failed (oauth_token w (length (trace s)) (GmailTokens.refresh_token tokenData))
  = true ->
  exists message s',
    gmail_sync w req s = (Return (SyncError message), s')
    /\ db s' = db s
    /\ trace s' = trace s ++ [TokenRefresh (GmailTokens.refresh_token tokenData)].
Proof.
  intros Hu Hsel Hexp Hfail.
  unfold gmail_sync, gmail_sync_body, try_catch.
  apply String.eqb_neq in Hu; rewrite Hu.
  unfold select_gmail_token in Hsel; simpl in Hsel.
  unfold bind at 1, query at 1, select_gmail_token; simpl; rewrite Hsel.
  unfold bind at 1.
  destruct (refresh_without_expiry_throws w (SyncRequest.user_id req) tokenData
              (with_db (db s) s) Hexp Hfail) as [message [s' [E [Hd Ht]]]].
  rewrite E; exists message, s'; repeat split; assumption.
Qed.

(** C4 at an expired token and an OAuth error reply. *)
Lemma C4_failed_refresh_aborts_the_scan_witness :
  let w := Scenario.world Scenario.oauth_error [Scenario.pdf_part]
             Scenario.accepted_json (JsonValue Scenario.accepted) in
  let s := start (Scenario.store Scenario.expired_token_row [Scenario.profile 0 5]) in
  (GmailTokens.token_expiry Scenario.expired_token_row < clock w 0
   /\ refresh_failed (oauth_token w 0 "refresh-0") = true)
  /\ exists message s',
       gmail_sync w Scenario.sync_request s = (Return (SyncError message), s')
       /\ db s' = db s
       /\ trace s' = trace s ++ [TokenRefresh "refresh-0"].
Proof.
  cbv zeta; split; [split; reflexivity|].
  refine (C4_failed_refresh_aborts_the_scan
            (Scenario.world Scenario.oauth_error [Scenario.pdf_part]
               Scenario.accepted_json (JsonValue Scenario.accepted))
            Scenario.sync_request
            (start (Scenario.store Scenario.expired_token_row [Scenario.profile 0 5]))
            Scenario.expired_token_row _ _ _ _);
    [discriminate | reflexivity | reflexivity | reflexivity].
Defined.

(** C9.  A refresh that succeeds writes the new access token and the new
    expiry into the user's credential row and nothing else: on every row
    of [gmail_tokens] the user, the refresh token, the mail address and the
    last-sync instant are what they were, rows of other users are
    untouched, and so are the other tables. *)
Theorem C9_refresh_keeps_the_rest_of_the_credential (w : World) (u : string)
    (tokenData : GmailTokens.row) (s : St) (new_token : string) (expires_in : Z) :
  let new_expiry := clock w (S (length (trace s))) + expires_in * 1000 in
  GmailTokens.token_expiry tokenData < clock w (length (trace s)) ->
  oauth_token w (length (trace s)) (GmailTokens.refresh_token tokenData)
  = Json {| tb_access_token := Some new_token; tb_expires_in := Some expires_in |} ->
  JsDate.valid new_expiry = true ->
  exists s',
    refresh_if_expired w u tokenData s = (Return (Some new_token), s')
    /\ Forall2
         (fun old new =>
            GmailTokens.user_id new = GmailTokens.user_id old
            /\ GmailTokens.refresh_token new = GmailTokens.refresh_token old
            /\ GmailTokens.gmail_email new = GmailTokens.gmail_email old
            /\ GmailTokens.gmail_last_sync new = GmailTokens.gmail_last_sync old
            /\ (GmailTokens.user_id old = u ->
                GmailTokens.access_token new = new_token
                /\ GmailTokens.token_expiry new = new_expiry)
            /\ (GmailTokens.user_id old <> u -> new = old))
         (gmail_tokens (db s)) (gmail_tokens (db s'))
    /\ processed_emails (db s') = processed_emails (db s)
    /\ invoices (db s') = invoices (db s)
    /\ profiles (db s') = profiles (db s).
Proof.
  intros new_expiry Hexp Hreply Hvalid.
  unfold refresh_if_expired, bind at 1, Date_now at 1.
  apply Z.ltb_lt in Hexp; rewrite Hexp.
  unfold bind at 1, fetch at 1; simpl; rewrite Hreply; simpl json_of.
  unfold bind at 1, ret at 1, bind at 1, Date_now at 1; simpl.
  rewrite length_app; simpl.
  replace (length (trace s) + 1)%nat with (S (length (trace s))) by lia.
  fold new_expiry; rewrite Hvalid.
  unfold bind at 1, ret at 1, bind at 1, query at 1; simpl.
  eexists; split; [reflexivity|]; simpl; repeat split.
  induction (gmail_tokens (db s)) as [|r rows IH]; simpl; constructor; [|exact IH].
  destruct (String.eqb_spec (GmailTokens.user_id r) u) as [E | E]; simpl;
    repeat split; try reflexivity; try contradiction; auto.
Qed.

(** C9 at an expired token and a granted exchange. *)
Lemma C9_refresh_keeps_the_rest_of_the_credential_witness :
  let w := Scenario.world Scenario.granted [Scenario.pdf_part]
             Scenario.accepted_json (JsonValue Scenario.accepted) in
  let s := start (Scenario.store Scenario.expired_token_row [Scenario.profile 0 5]) in
  (GmailTokens.token_expiry Scenario.expired_token_row < clock w 0
   /\ JsDate.valid (clock w 1 + 3599 * 1000) = true)
  /\ exists s',
       refresh_if_expired w "u1" Scenario.expired_token_row s
       = (Return (Some "access-1"), s')
       /\ Forall2
            (fun old new =>
               GmailTokens.user_id new = GmailTokens.user_id old
               /\ GmailTokens.refresh_token new = GmailTokens.refresh_token old
               /\ GmailTokens.gmail_email new = GmailTokens.gmail_email old
               /\ GmailTokens.gmail_last_sync new = GmailTokens.gmail_last_sync old
               /\ (GmailTokens.user_id old = "u1" ->
                   GmailTokens.access_token new = "access-1"
                   /\ GmailTokens.token_expiry new = clock w 1 + 3599 * 1000)
               /\ (GmailTokens.user_id old <> "u1" -> new = old))
            (gmail_tokens (db s)) (gmail_tokens (db s'))
       /\ processed_emails (db s') = processed_emails (db s)
       /\ invoices (db s') = invoices (db s)
       /\ profiles (db s') = profiles (db s).
Proof.
  cbv zeta; split; [split; reflexivity|].
  refine (C9_refresh_keeps_the_rest_of_the_credential
            (Scenario.world Scenario.granted [Scenario.pdf_part]
               Scenario.accepted_json (JsonValue Scenario.accepted))
            "u1" Scenario.expired_token_row
            (start (Scenario.store Scenario.expired_token_row [Scenario.profile 0 5]))
            "access-1" 3599 _ _ _); reflexivity.
Defined.

(** ** The search query *)

(** The incremental bound never depends on the credential row: the read
    of [tokenData.gmail_last_sync] is [undefined] for every row, so the
    fallback of seven days is always taken. *)
Lemma incremental_bound_is_seven_days_back (w : World) (tokenData : GmailTokens.row)
    (s : St) :
  fst (build_query w false tokenData s)
  = match JsDate.iso_date (Some (clock w (length (trace s)) - seven_days)) with
    | Some day => Return (base_query ++ " after:" ++ Js.dash_to_slash day)%string
    | None => Throw "Invalid time value"
    end.
Proof.
  unfold build_query, bind at 1, Date_now at 1, toISODate.
  unfold lower_bound, lastSync, GmailTokens.gmail_last_sync.
  destruct (JsDate.iso_date _); reflexivity.
Qed.

(** C5.  The handler means to search from the last sync (it reads
    [tokenData.gmail_last_sync] and, after the loop, "updates last sync
    time"), but both statements name a column that [gmail_tokens] does not
    have.  A first scan at noon on 6 January 2026 succeeds and leaves the
    credential row as it was; a second incremental scan half an hour later
    searches from 30 December 2025, seven days back, where
    [max(lastSyncAt, now - 7 days)] is 6 January 2026, the day of the first
    scan.  For no credential row and no instant does the bound differ from
    [now - 7 days]. *)
Theorem C5_last_sync_is_never_stored :
  let w := Scenario.world Scenario.granted [Scenario.pdf_part]
             Scenario.accepted_json (JsonValue Scenario.accepted) in
  let d := Scenario.store Scenario.token_row [Scenario.profile 0 5] in
  let first := gmail_sync w Scenario.sync_request (start d) in
  let lastSyncAt := clock w (length (trace (snd first))) in
  let w' := Scenario.later Scenario.half_an_hour w in
  let second := gmail_sync w' Scenario.sync_request (start (db (snd first))) in
  fst first = Return (SyncOk 1 1 1)
  /\ gmail_tokens (db (snd first)) = [Scenario.token_row]
  /\ fst second = Return (SyncOk 0 0 1)
  /\ trace (snd second)
     = [GmailSearch "Bearer access-0" (base_query ++ " after:2025/12/30")%string]
  /\ JsDate.iso_date (Some (spec_lower_bound lastSyncAt (clock w' 0))) = Some "2026-01-06"
  /\ (forall tokenData now,
        lower_bound false (GmailTokens.gmail_last_sync tokenData) now = now - seven_days).
Proof.
  cbv zeta.
  split; [vm_compute; reflexivity|].
  split; [vm_compute; reflexivity|].
  split; [vm_compute; reflexivity|].
  split; [vm_compute; reflexivity|].
  split; [vm_compute; reflexivity|].
  intros tokenData now; reflexivity.
Qed.

(** ** Attachment extraction *)

(** C7.  The loop over the attachments is headed "Only process PDFs and
    images", but its test asks whether the MIME type contains ["pdf"] or
    ["image"] anywhere.  A disk image ([application/x-apple-diskimage])
    with a filename and an attachment id is neither a PDF nor an image, yet
    it is retained, fetched and posted to the classifier, and the vision
    model is called on it. *)
Theorem C7_disk_image_is_sent_to_the_classifier :
  let w := Scenario.world Scenario.granted [Scenario.disk_image_part]
             Scenario.accepted_json (JsonValue Scenario.accepted) in
  let d := Scenario.store Scenario.token_row [Scenario.profile 0 5] in
  retained_parts [Scenario.disk_image_part] <> spec_retained_parts [Scenario.disk_image_part]
  /\ retained_parts [Scenario.disk_image_part] = [Scenario.disk_image_part]
  /\ spec_retained_parts [Scenario.disk_image_part] = []
  /\ In (GmailGetAttachment "Bearer access-0" "m1" "att-3")
        (trace (snd (gmail_sync w Scenario.sync_request (start d))))
  /\ In (ClassifyDocument
           (classify_request "u1" "m1" Scenario.disk_image_part (Some "JVBERi0xLjQ=")))
        (trace (snd (gmail_sync w Scenario.sync_request (start d))))
  /\ In (OpenAiVision "data:application/x-apple-diskimage;base64,JVBERi0xLjQ=")
        (trace (snd (gmail_sync w Scenario.sync_request (start d)))).
Proof.
  cbv zeta; split; [vm_compute; discriminate|].
  split; [reflexivity | split; [reflexivity|]].
  split; [|split]; vm_compute; auto 10.
Qed.

Lemma process_attachments_drops (w : World) (u : string) (tok : option string)
    (m : string) (ps : list Part) (s : St) :
  process_attachments w u tok m ps s
  = process_attachments w u tok m (filter is_pdf_or_image ps) s.
Proof.
  revert s; induction ps as [|part ps IH]; intros s; [reflexivity|].
  simpl; unfold is_pdf_or_image at 1.
  destruct (Js.includes "pdf" (mimeType part)) eqn:Hpdf;
    [|destruct (Js.includes "image" (mimeType part)) eqn:Himg]; simpl.
  - unfold bind.
    destruct (process_attachment w u tok m part s) as [[[]|msg] s1];
      [apply IH | reflexivity].
  - unfold bind.
    destruct (process_attachment w u tok m part s) as [[[]|msg] s1];
      [apply IH | reflexivity].
  - unfold bind at 1, process_attachment at 1; rewrite Hpdf, Himg; simpl.
    apply IH.
Qed.

(** What the two filters let through: the parts that have a filename and
    an attachment id and whose MIME type contains ["pdf"] or ["image"].
    Every [application/pdf] and [image/*] part with a filename and an id is
    among them.  Of the parts passing the filename-and-id filter, a part
    failing the MIME test is passed over without an error or a remote call,
    and a part passing it is fetched from the provider.  A message with
    parts [application/pdf, text/plain] yields exactly the PDF. *)
Lemma parts_retained_by_substring (w : World) (u : string) (tok : option string)
    (m : string) (ps : list Part) (s : St) :
  (forall part,
     In part (retained_parts ps)
     <-> In part ps
         /\ filename part <> "" /\ Js.truthy (attachmentId part) = true
         /\ (Js.includes "pdf" (mimeType part) = true
             \/ Js.includes "image" (mimeType part) = true))
  /\ (forall part, In part (spec_retained_parts ps) -> In part (retained_parts ps))
  /\ process_attachments w u tok m (filter is_attachment ps) s
     = process_attachments w u tok m (retained_parts ps) s
  /\ (forall part, is_pdf_or_image part = false ->
        process_attachment w u tok m part s = (Return tt, s))
  /\ (forall part, is_pdf_or_image part = true ->
        exists calls,
          trace (snd (process_attachment w u tok m part s))
          = trace s ++ GmailGetAttachment (bearer tok) m (Js.render (attachmentId part))
                       :: calls)
  /\ retained_parts [Scenario.pdf_part; Scenario.text_part] = [Scenario.pdf_part].
Proof.
  assert (Hchar : forall part,
             In part (retained_parts ps)
             <-> In part ps
                 /\ filename part <> "" /\ Js.truthy (attachmentId part) = true
                 /\ (Js.includes "pdf" (mimeType part) = true
                     \/ Js.includes "image" (mimeType part) = true)).
  { intros part; unfold retained_parts, is_pdf_or_image, is_attachment.
    rewrite !filter_In, andb_true_iff, orb_true_iff, negb_true_iff.
    rewrite String.eqb_neq; tauto. }
  split; [exact Hchar|].
  split; [|split; [|split; [|split]]].
  - intros part; unfold spec_retained_parts; rewrite filter_In, Hchar.
    unfold is_attachment.
    rewrite !andb_true_iff, orb_true_iff, negb_true_iff, String.eqb_neq, String.eqb_eq.
    intros [Hin [[Hf Ha] [Hpdf | Himg]]]; repeat split; auto.
    + left; rewrite Hpdf; reflexivity.
    + right; apply image_type_includes_image; exact Himg.
  - apply process_attachments_drops.
  - intros part Hno; unfold is_pdf_or_image in Hno.
    apply orb_false_iff in Hno; destruct Hno as [Hpdf Himg].
    unfold process_attachment; rewrite Hpdf, Himg; reflexivity.
  - intros part Hyes; unfold is_pdf_or_image in Hyes.
    destruct (quiet_process_attachment w u tok m part s) as [[calls [Ht _]] _].
    unfold process_attachment in *.
    destruct (negb (Js.includes "pdf" (mimeType part))
              && negb (Js.includes "image" (mimeType part))) eqn:E.
    + apply andb_true_iff in E; destruct E as [E1 E2].
      apply negb_true_iff in E1, E2; rewrite E1, E2 in Hyes; discriminate.
    + clear Ht calls.
      unfold bind at 1, fetch at 1; simpl.
      set (s1 := {| db := db s;
                    trace := trace s ++ [GmailGetAttachment (bearer tok) m
                                           (Js.render (attachmentId part))];
                    processedCount := processedCount s;
                    invoiceCount := invoiceCount s |}).
      match goal with
      | |- exists calls, trace (snd (?rest s1)) = _ =>
          assert (Hq : quiet u m s1 (snd (rest s1)))
      end.
      { apply (keeps_bind (quiet u m) (quiet_trans u m)); [quiet_step u m|intros ?].
        quiet_step u m; [apply quiet_fetch; split; reflexivity|].
        quiet_step u m; [apply quiet_classify_document; reflexivity|].
        repeat quiet_step u m. }
      destruct Hq as [[calls [Ht _]] _]; exists calls.
      rewrite Ht; unfold s1; simpl; rewrite <- app_assoc; reflexivity.
  - reflexivity.
Qed.

(** ** Deduplication *)

(** C6.  Scanning a user twice, from a ledger with at most one row per
    [(user_id, gmail_message_id)], leaves at most one row per pair after
    each scan.  A message that already has a row is skipped before anything
    is fetched or classified, so a message posted to the classifier in the
    first scan is not posted again in the second.  An insert for a pair
    that already has a row is turned down by the uniqueness constraint: the
    statement returns an error value, the table is unchanged, and nothing
    is thrown. *)
Theorem C6_one_ledger_row_per_message (w1 w2 : World) (req1 req2 : SyncRequest.t)
    (d : Db) :
  let u := SyncRequest.user_id req1 in
  let first := snd (gmail_sync w1 req1 (start d)) in
  let second := snd (gmail_sync w2 req2 (start (db first))) in
  ledger_unique d ->
  SyncRequest.user_id req2 = u ->
  ledger_unique (db first)
  /\ ledger_unique (db second)
  /\ (forall m, has_row u m d -> ~ classified m (trace first))
  /\ (forall m, classified m (trace first) -> ~ classified m (trace second))
  /\ (forall w tok m s,
        ledger_unique (db s) -> has_row u m (db s) ->
        exists s',
          process_message w u tok m s = (Return tt, s')
          /\ db s' = db s /\ trace s' = trace s)
  /\ (forall r s,
        has_row (ProcessedEmails.user_id r) (ProcessedEmails.gmail_message_id r) (db s) ->
        exists e s',
          query (insert_processed_email r) s = (Return (Some e), s')
          /\ db s' = db s).
Proof.
  intros u first second Hu Hreq.
  destruct (ledger_step_gmail_sync w1 req1 (start d) Hu)
    as [c1 [r1 [T1 [P1 [U1 [F1 C1]]]]]].
  fold first in T1, P1, U1, C1; fold u in C1; simpl in T1, C1.
  pose proof (ledger_step_gmail_sync w2 req2 (start (db first)) U1) as H2.
  rewrite Hreq in H2; destruct H2 as [c2 [r2 [T2 [P2 [U2 [F2 C2]]]]]].
  fold second in T2, P2, U2, C2; simpl in T2, C2.
  split; [exact U1 | split; [exact U2|]].
  split; [|split; [|split]].
  - intros m Hrow Hc; rewrite T1 in Hc; apply (C1 m Hc); exact Hrow.
  - intros m Hc1 Hc2; rewrite T1 in Hc1; rewrite T2 in Hc2.
    apply (C2 m Hc2), (C1 m Hc1).
  - intros w tok m s; apply process_message_skips.
  - intros r s Hrow; unfold query.
    destruct (insert_processed_email_spec r (db s)) as [[_ [e ->]] | [Hno _]];
      [|contradiction].
    exists e; eexists; split; reflexivity.
Qed.

(** C6 at two scans of the same mailbox from an empty ledger. *)
Lemma C6_one_ledger_row_per_message_witness :
  let w := Scenario.world Scenario.granted [Scenario.pdf_part; Scenario.text_part]
             Scenario.accepted_json (JsonValue Scenario.accepted) in
  let d := Scenario.store Scenario.token_row [Scenario.profile 0 5] in
  let first := snd (gmail_sync w Scenario.sync_request (start d)) in
  let second := snd (gmail_sync w Scenario.sync_request (start (db first))) in
  ledger_unique d
  /\ ledger_unique (db second)
  /\ (forall m, classified m (trace first) -> ~ classified m (trace second)).
Proof.
  cbv zeta.
  assert (Hd : ledger_unique
                 (Scenario.store Scenario.token_row [Scenario.profile 0 5]))
    by constructor.
  pose proof (C6_one_ledger_row_per_message
                (Scenario.world Scenario.granted [Scenario.pdf_part; Scenario.text_part]
                   Scenario.accepted_json (JsonValue Scenario.accepted))
                (Scenario.world Scenario.granted [Scenario.pdf_part; Scenario.text_part]
                   Scenario.accepted_json (JsonValue Scenario.accepted))
                Scenario.sync_request Scenario.sync_request
                (Scenario.store Scenario.token_row [Scenario.profile 0 5])
                Hd eq_refl) as H.
  cbv zeta in H.
  split; [exact Hd|].
  split; [exact (proj1 (proj2 H)) | exact (proj1 (proj2 (proj2 (proj2 H))))].
Defined.

(** Whatever the classifier answered, a ledger row written by a scan has no
    invoice id and is never [rejected]: the [update] statements of
    [classify-document] run before the scanner inserts the row they are
    meant for. *)
Corollary scan_rows_are_unlinked (w : World) (req : SyncRequest.t) (d : Db) :
  ledger_unique d ->
  exists rows,
    processed_emails (db (snd (gmail_sync w req (start d))))
    = processed_emails d ++ rows
    /\ Forall (fun r => ProcessedEmails.invoice_id r = None
                        /\ ProcessedEmails.status r <> ProcessedEmails.rejected) rows.
Proof.
  intros Hu.
  destruct (ledger_step_gmail_sync w req (start d) Hu) as [c [rows [_ [P [_ [F _]]]]]].
  exists rows; split; assumption.
Qed.

(** C1.  One message with one PDF that the classifier accepts (with a
    [data] object): the scan reports one invoice, there is exactly one
    invoice row and exactly one ledger row with status [processed], but the
    ledger row's [invoice_id] is [null]. *)
Theorem C1_accepted_invoice_is_not_linked :
  let w := Scenario.world Scenario.granted [Scenario.pdf_part]
             Scenario.accepted_json (JsonValue Scenario.accepted) in
  let d := Scenario.store Scenario.token_row [Scenario.profile 0 5] in
  let run := gmail_sync w Scenario.sync_request (start d) in
  fst run = Return (SyncOk 1 1 1)
  /\ map Invoices.id (invoices (db (snd run))) = [0%nat]
  /\ processed_emails (db (snd run))
     = [ledger_row "u1" "m1" ProcessedEmails.processed None]
  /\ map ProcessedEmails.invoice_id (processed_emails (db (snd run))) = [None].
Proof. cbv zeta; repeat split; vm_compute; reflexivity. Qed.

(** C2.  One message with one PDF for which the model's reply is no JSON:
    [classify-document] fails with ['Invalid response from AI'] and no
    invoice is written, but the ledger row of the message ends up
    [processed] with no reason, not [error]. *)
Theorem C2_unparsable_reply_is_marked_processed :
  let w := Scenario.world Scenario.granted [Scenario.pdf_part]
             Scenario.apology SyntaxError in
  let d := Scenario.store Scenario.token_row [Scenario.profile 0 5] in
  let request := classify_request "u1" "m1" Scenario.pdf_part (Some "JVBERi0xLjQ=") in
  let run := gmail_sync w Scenario.sync_request (start d) in
  fst (classify_document w request (start d))
  = Return (ClassifyError "Invalid response from AI")
  /\ fst run = Return (SyncOk 1 0 1)
  /\ invoices (db (snd run)) = []
  /\ processed_emails (db (snd run))
     = [ledger_row "u1" "m1" ProcessedEmails.processed None].
Proof. cbv zeta; repeat split; vm_compute; reflexivity. Qed.

(** ** Checks of the platform functions *)

Example iso_date_epoch : JsDate.iso_date (Some 0) = Some "1970-01-01".
Proof. reflexivity. Qed.

Example iso_date_leap_day : JsDate.iso_date (Some 1709208000000) = Some "2024-02-29".
Proof. reflexivity. Qed.

Example minus_one_year_leap_day :
  JsDate.iso_date (Some (JsDate.minus_one_year 1709208000000)) = Some "2023-03-01".
Proof. reflexivity. Qed.

Example iso_date_invalid : JsDate.iso_date None = None.
Proof. reflexivity. Qed.

Example json_text_fenced :
  json_text ("Here:" ++ newline ++ "```json" ++ newline ++ "{a}" ++ newline ++ "```")%string
  = "{a}".
Proof. reflexivity. Qed.

Example json_text_braces : json_text "noise {a{b}c} trailing" = "{a{b}c}".
Proof. reflexivity. Qed.

Example json_text_plain : json_text Scenario.apology = Scenario.apology.
Proof. reflexivity. Qed.

(** * Further properties of the two handlers *)

(** [gmail-sync] is the token step followed by [scan_with_token]. *)
Lemma gmail_sync_body_unfold (w : World) (req : SyncRequest.t) :
  gmail_sync_body w req
  = if (SyncRequest.user_id req =? "")%string then throw "user_id is required"
    else
      tokenData <- query (select_gmail_token (SyncRequest.user_id req)) ;;
      match tokenData with
      | None => throw "Gmail not connected"
      | Some tokenData =>
          accessToken <- refresh_if_expired w (SyncRequest.user_id req) tokenData ;;
          scan_with_token w req tokenData accessToken
      end.
Proof. reflexivity. Qed.

(** ** Logged calls *)

Lemma logs_same (P : Event -> Prop) (s s' : St) :
  db s' = db s -> trace s' = trace s -> logs P s s'.
Proof. intros _ Ht; exists []; rewrite Ht, app_nil_r; split; [reflexivity | constructor]. Qed.

Lemma logs_trans (P : Event -> Prop) (s1 s2 s3 : St) :
  logs P s1 s2 -> logs P s2 s3 -> logs P s1 s3.
Proof.
  intros [c1 [T1 F1]] [c2 [T2 F2]]; exists (c1 ++ c2).
  rewrite T2, T1, app_assoc; split; [reflexivity | apply Forall_app; split; assumption].
Qed.

Lemma logs_fetch (P : Event -> Prop) (e : Event) : P e -> keeps (logs P) (fetch e).
Proof.
  intros He s; exists [e]; split; [reflexivity | constructor; [exact He | constructor]].
Qed.

Lemma logs_query {A} (P : Event -> Prop) (q : Db -> A * Db) : keeps (logs P) (query q).
Proof.
  intros s; unfold query; destruct (q (db s)); exists []; simpl.
  rewrite app_nil_r; split; [reflexivity | constructor].
Qed.

(** One step through a handler for a relation [R] with its two closure
    lemmas; [leaf] settles the statements and calls. *)
Ltac rel_step R Hsame Htrans leaf :=
  first
    [ apply (keeps_bind R Htrans); [|intros ?]
    | apply (keeps_try_catch R Htrans); [|intros ?]
    | apply (keeps_ret R Hsame)
    | apply (keeps_throw R Hsame)
    | apply (keeps_json_of R Hsame)
    | apply (keeps_Date_now R Hsame)
    | apply (keeps_toISODate R Hsame)
    | apply (keeps_toISOString R Hsame)
    | apply (keeps_count_processed R Hsame)
    | apply (keeps_count_invoice R Hsame)
    | apply (keeps_reset_counters R Hsame)
    | apply (keeps_read_counters R Hsame)
    | leaf
    | match goal with |- keeps _ (if ?b then _ else _) => destruct b end
    | match goal with |- keeps _ (match ?x with Some _ => _ | None => _ end) =>
        destruct x end
    | match goal with |- keeps _ (match ?x with inl _ => _ | inr _ => _ end) =>
        destruct x end ].

Ltac logs_step P :=
  rel_step (logs P) (logs_same P) (logs_trans P)
    ltac:(first [ apply logs_query | apply logs_fetch; solve [auto] ]).

Lemma logs_classify_document (P : Event -> Prop) (w : World) (req : ClassifyRequest.t) :
  (forall url, P (OpenAiVision url)) ->
  keeps (logs P) (classify_document w req).
Proof.
  intros Hai; unfold classify_document, classify_document_body.
  logs_step P; [|logs_step P].
  logs_step P; [logs_step P|].
  logs_step P; [logs_step P|].
  logs_step P; [logs_step P|].
  logs_step P; [logs_step P|].
  destruct (openai w a0 (image_url_of req)) as [e|e|e|content];
    try solve [logs_step P].
  logs_step P.
  - unfold parse_classification; destruct content as [content|]; [|logs_step P].
    destruct (JSON_parse w (json_text content)); logs_step P.
  - destruct a1 as [| |c]; try solve [logs_step P].
    destruct (is_invoice c), (extracted c) as [x|];
      unfold materialize, reject; repeat logs_step P.
Qed.

Lemma logs_process_attachment (P : Event -> Prop) (w : World) (u : string)
    (tok : option string) (m : string) (part : Part) :
  (forall url, P (OpenAiVision url)) ->
  (forall id, P (GmailGetAttachment (bearer tok) m id)) ->
  (forall p file_data, P (ClassifyDocument (classify_request u m p file_data))) ->
  keeps (logs P) (process_attachment w u tok m part).
Proof.
  intros Hai Hatt Hcls; unfold process_attachment.
  logs_step P; [logs_step P|].
  logs_step P; [logs_step P|].
  logs_step P; [logs_step P|].
  logs_step P; [logs_step P|].
  logs_step P; [apply logs_classify_document; exact Hai|].
  repeat logs_step P.
Qed.

Lemma logs_process_message (P : Event -> Prop) (w : World) (u : string)
    (tok : option string) (m : string) :
  (forall url, P (OpenAiVision url)) ->
  P (GmailGetMessage (bearer tok) m) ->
  (forall id, P (GmailGetAttachment (bearer tok) m id)) ->
  (forall p file_data, P (ClassifyDocument (classify_request u m p file_data))) ->
  keeps (logs P) (process_message w u tok m).
Proof.
  intros Hai Hmsg Hatt Hcls.
  assert (Hloop : forall ps, keeps (logs P) (process_attachments w u tok m ps)).
  { induction ps as [|part ps IH]; simpl; [logs_step P|].
    logs_step P; [apply logs_process_attachment; assumption | exact IH]. }
  unfold process_message, attachments_of.
  logs_step P; [|repeat logs_step P].
  logs_step P; [logs_step P|].
  logs_step P; [logs_step P|].
  logs_step P; [logs_step P|].
  logs_step P; [logs_step P|].
  logs_step P; [repeat logs_step P|].
  logs_step P; [apply Hloop|].
  repeat logs_step P.
Qed.

Lemma logs_process_messages (P : Event -> Prop) (w : World) (u : string)
    (tok : option string) (ms : list string) :
  (forall url, P (OpenAiVision url)) ->
  (forall m, In m ms -> P (GmailGetMessage (bearer tok) m)) ->
  (forall m id, In m ms -> P (GmailGetAttachment (bearer tok) m id)) ->
  (forall m p file_data, In m ms -> P (ClassifyDocument (classify_request u m p file_data))) ->
  keeps (logs P) (process_messages w u tok ms).
Proof.
  intros Hai; induction ms as [|m ms IH]; intros Hmsg Hatt Hcls; simpl; [logs_step P|].
  logs_step P.
  - apply logs_process_message;
      [ exact Hai
      | apply Hmsg; left; reflexivity
      | intros id; apply Hatt; left; reflexivity
      | intros p file_data; apply Hcls; left; reflexivity ].
  - apply IH;
      [ intros m' Hin; apply Hmsg; right; exact Hin
      | intros m' id Hin; apply Hatt; right; exact Hin
      | intros m' p file_data Hin; apply Hcls; right; exact Hin ].
Qed.

(** ** What a handler leaves alone *)

Lemma preserves_same {B} (f : Db -> B) (s s' : St) :
  db s' = db s -> trace s' = trace s -> preserves f s s'.
Proof. intros Hd _; unfold preserves; rewrite Hd; reflexivity. Qed.

Lemma preserves_trans {B} (f : Db -> B) (s1 s2 s3 : St) :
  preserves f s1 s2 -> preserves f s2 s3 -> preserves f s1 s3.
Proof. unfold preserves; congruence. Qed.

Lemma preserves_fetch {B} (f : Db -> B) (e : Event) : keeps (preserves f) (fetch e).
Proof. intros s; reflexivity. Qed.

Lemma preserves_query {A B} (f : Db -> B) (q : Db -> A * Db) :
  (forall d, f (snd (q d)) = f d) -> keeps (preserves f) (query q).
Proof.
  intros Hq s; unfold query, preserves.
  specialize (Hq (db s)); destruct (q (db s)); exact Hq.
Qed.

Lemma map_update_where {A B} (g : A -> B) (p : A -> bool) (f : A -> A) (rows : list A) :
  (forall r, g (f r) = g r) -> map g (update_where p f rows) = map g rows.
Proof.
  intros Hg; unfold update_where; rewrite map_map; apply map_ext.
  intros r; destruct (p r); [apply Hg | reflexivity].
Qed.

(** Rows an update does not select, and that its result never joins, come
    through it unchanged. *)
Lemma filter_update_where {A} (q p : A -> bool) (f : A -> A) (rows : list A) :
  (forall r, p r = true -> q r = false /\ q (f r) = false) ->
  filter q (update_where p f rows) = filter q rows.
Proof.
  intros H; induction rows as [|r rows IH]; [reflexivity|]; simpl.
  destruct (p r) eqn:Hp.
  - destruct (H r Hp) as [H1 H2]; rewrite H1, H2; exact IH.
  - destruct (q r); [f_equal|]; exact IH.
Qed.

Lemma filter_app_one {A} (q : A -> bool) (rows : list A) (r : A) :
  q r = false -> filter q (rows ++ [r]) = filter q rows.
Proof. intros H; rewrite filter_app; simpl; rewrite H; apply app_nil_r. Qed.

Lemma negb_eqb_false (a b : string) : (a =? b)%string = true -> negb (a =? b)%string = false.
Proof. intros ->; reflexivity. Qed.

Lemma others_update_gmail_token_access (u : string) (a : option string) (t : Z) (d : Db) :
  data_of_others u (snd (update_gmail_token_access u a t d)) = data_of_others u d.
Proof.
  unfold data_of_others, tokens_of_others, profiles_of_others; simpl.
  rewrite filter_update_where; [reflexivity|].
  intros r Hr; simpl; rewrite Hr; split; reflexivity.
Qed.

Lemma others_update_gmail_last_sync (u : string) (t : Z) (d : Db) :
  data_of_others u (snd (update_gmail_last_sync u t d)) = data_of_others u d.
Proof. reflexivity. Qed.

Lemma others_insert_processed_email (u m : string) (st : ProcessedEmails.status_text)
    (reason : option string) (d : Db) :
  data_of_others u (snd (insert_processed_email (ledger_row u m st reason) d))
  = data_of_others u d.
Proof.
  unfold insert_processed_email; destruct (existsb _ _); [reflexivity|].
  unfold data_of_others, tokens_of_others, profiles_of_others; simpl.
  rewrite filter_app_one; [reflexivity|].
  simpl; rewrite String.eqb_refl; reflexivity.
Qed.

Lemma others_update_processed_email_invoice (u m : string) (i : nat) (d : Db) :
  data_of_others u (snd (update_processed_email_invoice u m i d)) = data_of_others u d.
Proof.
  unfold data_of_others, tokens_of_others, profiles_of_others; simpl.
  rewrite filter_update_where; [reflexivity|].
  intros r Hr; unfold ledger_key in Hr; apply andb_true_iff in Hr; destruct Hr as [Hr _].
  simpl; rewrite Hr; split; reflexivity.
Qed.

Lemma others_update_processed_email_rejected (u m reason : string) (d : Db) :
  data_of_others u (snd (update_processed_email_rejected u m reason d)) = data_of_others u d.
Proof.
  unfold data_of_others, tokens_of_others, profiles_of_others; simpl.
  rewrite filter_update_where; [reflexivity|].
  intros r Hr; unfold ledger_key in Hr; apply andb_true_iff in Hr; destruct Hr as [Hr _].
  simpl; rewrite Hr; split; reflexivity.
Qed.

Lemma others_insert_invoice (w : World) (u : string) (x : Invoices.data) (d : Db) :
  Invoices.user_id x = u ->
  data_of_others u (snd (insert_invoice w x d)) = data_of_others u d.
Proof.
  intros Hx; unfold insert_invoice; destruct (invoices_insert_error w x); [reflexivity|].
  unfold data_of_others, tokens_of_others, profiles_of_others; simpl.
  rewrite filter_app_one; [reflexivity|].
  simpl; rewrite Hx, String.eqb_refl; reflexivity.
Qed.

Lemma others_increment_document_count (u : string) (d : Db) :
  data_of_others u (snd (increment_document_count u d)) = data_of_others u d.
Proof.
  unfold data_of_others, tokens_of_others, profiles_of_others; simpl.
  rewrite filter_update_where; [reflexivity|].
  intros r Hr; simpl; rewrite Hr; split; reflexivity.
Qed.

Ltac others_step u :=
  rel_step (preserves (data_of_others u)) (preserves_same (data_of_others u))
    (preserves_trans (data_of_others u))
    ltac:(first
            [ apply preserves_fetch
            | apply preserves_query; intros ?;
              first [ reflexivity
                    | apply others_update_gmail_token_access
                    | apply others_update_gmail_last_sync
                    | apply others_insert_processed_email
                    | apply others_update_processed_email_invoice
                    | apply others_update_processed_email_rejected
                    | apply others_insert_invoice; reflexivity
                    | apply others_increment_document_count ] ]).

Lemma others_classify_document (w : World) (req : ClassifyRequest.t) :
  keeps (preserves (data_of_others (ClassifyRequest.user_id req))) (classify_document w req).
Proof.
  set (u := ClassifyRequest.user_id req).
  unfold classify_document, classify_document_body.
  others_step u; [|others_step u].
  others_step u; [others_step u|].
  others_step u; [others_step u|].
  others_step u; [others_step u|].
  others_step u; [others_step u|].
  destruct (openai w a0 (image_url_of req)) as [e|e|e|content];
    try solve [others_step u].
  others_step u.
  - unfold parse_classification; destruct content as [content|]; [|others_step u].
    destruct (JSON_parse w (json_text content)); others_step u.
  - destruct a1 as [| |c]; try solve [others_step u].
    destruct (is_invoice c), (extracted c) as [x|];
      unfold materialize, reject; fold u; repeat others_step u.
Qed.

Lemma others_process_messages (w : World) (u : string) (tok : option string)
    (ms : list string) :
  keeps (preserves (data_of_others u)) (process_messages w u tok ms).
Proof.
  assert (Hloop : forall m ps,
             keeps (preserves (data_of_others u)) (process_attachments w u tok m ps)).
  { intros m; induction ps as [|part ps IH]; simpl; [others_step u|].
    others_step u; [|exact IH].
    unfold process_attachment.
    others_step u; [others_step u|].
    others_step u; [others_step u|].
    others_step u; [others_step u|].
    others_step u; [others_step u|].
    others_step u; [apply (others_classify_document w (classify_request u m part a0))|].
    repeat others_step u. }
  induction ms as [|m ms IH]; simpl; [others_step u|].
  others_step u; [|exact IH].
  unfold process_message, attachments_of.
  others_step u; [|repeat others_step u].
  others_step u; [others_step u|].
  others_step u; [others_step u|].
  others_step u; [others_step u|].
  others_step u; [others_step u|].
  others_step u; [repeat others_step u|].
  others_step u; [apply Hloop|].
  repeat others_step u.
Qed.

(** X1.  A scan and a classification for user [u] leave every row of every
    other user as it was, in all four tables. *)
Theorem handlers_leave_other_users_alone (w : World) (req : SyncRequest.t)
    (creq : ClassifyRequest.t) (s : St) :
  data_of_others (SyncRequest.user_id req) (db (snd (gmail_sync w req s)))
  = data_of_others (SyncRequest.user_id req) (db s)
  /\ data_of_others (ClassifyRequest.user_id creq) (db (snd (classify_document w creq s)))
     = data_of_others (ClassifyRequest.user_id creq) (db s).
Proof.
  split; [|apply others_classify_document].
  set (u := SyncRequest.user_id req).
  assert (H : keeps (preserves (data_of_others u)) (gmail_sync w req)); [|apply H].
  unfold gmail_sync; rewrite gmail_sync_body_unfold; fold u.
  unfold scan_with_token, refresh_if_expired, build_query; fold u.
  others_step u; [|others_step u].
  others_step u; [others_step u|].
  others_step u; [others_step u|].
  others_step u; [|others_step u].
  others_step u; [repeat others_step u|].
  others_step u; [repeat others_step u|].
  others_step u; [others_step u|].
  others_step u; [others_step u|].
  others_step u; [others_step u|].
  others_step u; [apply others_process_messages|].
  repeat others_step u.
Qed.

Lemma insert_invoice_tokens (w : World) (x : Invoices.data) (d : Db) :
  gmail_tokens (snd (insert_invoice w x d)) = gmail_tokens d.
Proof. unfold insert_invoice; destruct (invoices_insert_error w x); reflexivity. Qed.

Lemma insert_processed_email_tokens (r : ProcessedEmails.row) (d : Db) :
  gmail_tokens (snd (insert_processed_email r d)) = gmail_tokens d.
Proof. unfold insert_processed_email; destruct (existsb _ _); reflexivity. Qed.

Ltac tokens_step f :=
  rel_step (preserves f) (preserves_same f) (preserves_trans f)
    ltac:(first
            [ apply preserves_fetch
            | apply preserves_query; intros ?;
              first [ reflexivity
                    | simpl; rewrite insert_invoice_tokens; reflexivity
                    | simpl; rewrite insert_processed_email_tokens; reflexivity
                    | simpl; apply map_update_where; intros ?; reflexivity ] ]).

(** Nothing in a message pass writes [gmail_tokens]. *)
Lemma process_messages_tokens (w : World) (u : string) (tok : option string)
    (ms : list string) :
  keeps (preserves gmail_tokens) (process_messages w u tok ms).
Proof.
  assert (Hcls : forall r, keeps (preserves gmail_tokens) (classify_document w r)).
  { intros r; unfold classify_document, classify_document_body.
    tokens_step gmail_tokens; [|tokens_step gmail_tokens].
    do 4 (tokens_step gmail_tokens; [tokens_step gmail_tokens|]).
    destruct (openai w a0 (image_url_of r)) as [e|e|e|content];
      try solve [tokens_step gmail_tokens].
    tokens_step gmail_tokens.
    - unfold parse_classification; destruct content as [content|];
        [|tokens_step gmail_tokens].
      destruct (JSON_parse w (json_text content)); tokens_step gmail_tokens.
    - destruct a1 as [| |c]; try solve [tokens_step gmail_tokens].
      destruct (is_invoice c), (extracted c) as [x|];
        unfold materialize, reject; repeat tokens_step gmail_tokens. }
  assert (Hloop : forall m ps,
             keeps (preserves gmail_tokens) (process_attachments w u tok m ps)).
  { intros m; induction ps as [|part ps IH]; simpl; [tokens_step gmail_tokens|].
    tokens_step gmail_tokens; [|exact IH].
    unfold process_attachment.
    do 4 (tokens_step gmail_tokens; [tokens_step gmail_tokens|]).
    tokens_step gmail_tokens; [apply Hcls|].
    repeat tokens_step gmail_tokens. }
  induction ms as [|m ms IH]; simpl; [tokens_step gmail_tokens|].
  tokens_step gmail_tokens; [|exact IH].
  unfold process_message, attachments_of.
  tokens_step gmail_tokens; [|repeat tokens_step gmail_tokens].
  do 4 (tokens_step gmail_tokens; [tokens_step gmail_tokens|]).
  tokens_step gmail_tokens; [repeat tokens_step gmail_tokens|].
  tokens_step gmail_tokens; [apply Hloop|].
  repeat tokens_step gmail_tokens.
Qed.

(** X2.  Whatever happens during a scan, no credential row is added or
    removed and no row's [user_id], [refresh_token] or [gmail_email]
    changes. *)
Theorem scan_keeps_credential_identity (w : World) (req : SyncRequest.t) (s : St) :
  map identity_of (gmail_tokens (db (snd (gmail_sync w req s))))
  = map identity_of (gmail_tokens (db s)).
Proof.
  set (f := fun d : Db => map identity_of (gmail_tokens d)).
  assert (H : keeps (preserves f) (gmail_sync w req)); [|apply H].
  unfold gmail_sync; rewrite gmail_sync_body_unfold.
  unfold scan_with_token, refresh_if_expired, build_query.
  tokens_step f; [|tokens_step f].
  tokens_step f; [tokens_step f|].
  tokens_step f; [tokens_step f|].
  tokens_step f; [|tokens_step f].
  tokens_step f; [repeat tokens_step f|].
  tokens_step f; [repeat tokens_step f|].
  do 3 (tokens_step f; [tokens_step f|]).
  tokens_step f.
  - match goal with
    | |- keeps _ (process_messages _ ?u ?t ?ms) =>
        intros s0; unfold preserves, f;
        rewrite (process_messages_tokens w u t ms s0); reflexivity
    end.
  - repeat tokens_step f.
Qed.

(** ** The token step *)

Lemma gmail_sync_run (w : World) (req : SyncRequest.t) (s : St) (tokenData : GmailTokens.row) :
  SyncRequest.user_id req <> "" ->
  fst (select_gmail_token (SyncRequest.user_id req) (db s)) = Some tokenData ->
  gmail_sync w req s
  = try_catch
      (accessToken <- refresh_if_expired w (SyncRequest.user_id req) tokenData ;;
       scan_with_token w req tokenData accessToken)
      (fun message => ret (SyncError message)) s.
Proof.
  intros Hu Hsel; destruct s as [d tr pc ic]; simpl in Hsel.
  unfold gmail_sync; rewrite gmail_sync_body_unfold.
  apply String.eqb_neq in Hu; rewrite Hu.
  unfold try_catch, bind at 1, query, select_gmail_token; simpl.
  rewrite Hsel; reflexivity.
Qed.

(** X3.  Without a usable request or credential the scan stops at once:
    an empty [user_id] is answered with ['user_id is required'], a user
    with no credential row with ['Gmail not connected']; no remote call is
    made and nothing is written. *)
Theorem scan_needs_user_and_credential (w : World) (req : SyncRequest.t) (s : St) :
  SyncRequest.user_id req = ""
  \/ fst (select_gmail_token (SyncRequest.user_id req) (db s)) = None ->
  exists message s',
    gmail_sync w req s = (Return (SyncError message), s')
    /\ db s' = db s /\ trace s' = trace s
    /\ (SyncRequest.user_id req = "" -> message = "user_id is required")
    /\ (SyncRequest.user_id req <> "" -> message = "Gmail not connected").
Proof.
  intros H; unfold gmail_sync; rewrite gmail_sync_body_unfold; unfold try_catch.
  destruct (String.eqb_spec (SyncRequest.user_id req) "") as [E | E].
  - exists "user_id is required"; eexists; split; [reflexivity|].
    split; [reflexivity | split; [reflexivity|]].
    split; [reflexivity | contradiction].
  - destruct H as [H | H]; [contradiction|].
    unfold bind, query, select_gmail_token in *; simpl in *; rewrite H.
    exists "Gmail not connected"; eexists; split; [reflexivity|].
    split; [reflexivity | split; [reflexivity|]].
    split; [contradiction | reflexivity].
Qed.

Lemma scan_needs_user_and_credential_witness :
  exists message s',
    gmail_sync (Scenario.world Scenario.granted [Scenario.pdf_part]
                  Scenario.accepted_json (JsonValue Scenario.accepted))
      Scenario.sync_request
      (start {| gmail_tokens := []; processed_emails := []; invoices := [];
                profiles := [] |})
    = (Return (SyncError message), s')
    /\ message = "Gmail not connected".
Proof.
  destruct (scan_needs_user_and_credential
              (Scenario.world Scenario.granted [Scenario.pdf_part]
                 Scenario.accepted_json (JsonValue Scenario.accepted))
              Scenario.sync_request
              (start {| gmail_tokens := []; processed_emails := []; invoices := [];
                        profiles := [] |})
              (or_intror eq_refl)) as [message [s' [E [_ [_ [_ Hm]]]]]].
  exists message, s'; split; [exact E | apply Hm; discriminate].
Defined.

Lemma refresh_not_needed (w : World) (u : string) (tokenData : GmailTokens.row) (s : St) :
  clock w (length (trace s)) <= GmailTokens.token_expiry tokenData ->
  refresh_if_expired w u tokenData s
  = (Return (Some (GmailTokens.access_token tokenData)), s).
Proof.
  intros H; unfold refresh_if_expired, bind, Date_now.
  apply Z.ltb_ge in H; rewrite H; reflexivity.
Qed.

Lemma refresh_granted (w : World) (u : string) (tokenData : GmailTokens.row) (s : St)
    (new_token : string) (expires_in : Z) :
  GmailTokens.token_expiry tokenData < clock w (length (trace s)) ->
  oauth_token w (length (trace s)) (GmailTokens.refresh_token tokenData)
  = Json {| tb_access_token := Some new_token; tb_expires_in := Some expires_in |} ->
  JsDate.valid (clock w (S (length (trace s))) + expires_in * 1000) = true ->
  exists s',
    refresh_if_expired w u tokenData s = (Return (Some new_token), s')
    /\ trace s' = trace s ++ [TokenRefresh (GmailTokens.refresh_token tokenData)]
    /\ db s' = snd (update_gmail_token_access u (Some new_token)
                      (clock w (S (length (trace s))) + expires_in * 1000) (db s)).
Proof.
  intros Hexp Hreply Hvalid.
  unfold refresh_if_expired, bind at 1, Date_now at 1.
  apply Z.ltb_lt in Hexp; rewrite Hexp.
  unfold bind at 1, fetch at 1; simpl; rewrite Hreply; simpl json_of.
  unfold bind at 1, ret at 1, bind at 1, Date_now at 1; simpl.
  rewrite length_app; simpl.
  replace (length (trace s) + 1)%nat with (S (length (trace s))) by lia.
  rewrite Hvalid.
  unfold bind at 1, ret at 1, bind at 1, query at 1; simpl.
  eexists; split; [reflexivity|]; simpl; split; reflexivity.
Qed.

Lemma scan_with_token_authorized (w : World) (req : SyncRequest.t)
    (tokenData : GmailTokens.row) (tok : option string) :
  keeps (logs (authorized_by (bearer tok))) (scan_with_token w req tokenData tok).
Proof.
  set (P := authorized_by (bearer tok)).
  unfold scan_with_token, scan_messages, build_query.
  logs_step P; [repeat logs_step P|].
  logs_step P; [apply logs_fetch; reflexivity|].
  logs_step P; [logs_step P|].
  logs_step P; [logs_step P|].
  logs_step P; [|repeat logs_step P].
  apply logs_process_messages; intros; simpl; auto.
Qed.

Lemma scan_with_token_access (w : World) (req : SyncRequest.t)
    (tokenData : GmailTokens.row) (tok : option string) :
  keeps (preserves (fun d => map access_of (gmail_tokens d)))
    (scan_with_token w req tokenData tok).
Proof.
  set (f := fun d : Db => map access_of (gmail_tokens d)).
  unfold scan_with_token, scan_messages, build_query.
  tokens_step f; [repeat tokens_step f|].
  do 3 (tokens_step f; [tokens_step f|]).
  tokens_step f; [|repeat tokens_step f].
  match goal with
  | |- keeps _ (process_messages _ ?u ?t ?ms) =>
      intros s0; unfold preserves, f;
      rewrite (process_messages_tokens w u t ms s0); reflexivity
  end.
Qed.

(** X4.  A credential that has not expired is not refreshed: the scan makes
    no call to the token endpoint, every call to the mail provider carries
    the stored access token, and no credential row's access token or expiry
    changes. *)
Theorem unexpired_token_is_used_as_stored (w : World) (req : SyncRequest.t) (s : St)
    (tokenData : GmailTokens.row) :
  SyncRequest.user_id req <> "" ->
  fst (select_gmail_token (SyncRequest.user_id req) (db s)) = Some tokenData ->
  clock w (length (trace s)) <= GmailTokens.token_expiry tokenData ->
  (exists calls,
     trace (snd (gmail_sync w req s)) = trace s ++ calls
     /\ Forall (authorized_by ("Bearer " ++ GmailTokens.access_token tokenData)%string)
          calls)
  /\ map access_of (gmail_tokens (db (snd (gmail_sync w req s))))
     = map access_of (gmail_tokens (db s)).
Proof.
  intros Hu Hsel Hexp.
  rewrite (gmail_sync_run w req s tokenData Hu Hsel).
  unfold try_catch, bind; rewrite (refresh_not_needed _ _ _ _ Hexp).
  pose proof (scan_with_token_authorized w req tokenData
                (Some (GmailTokens.access_token tokenData)) s) as Hlog.
  pose proof (scan_with_token_access w req tokenData
                (Some (GmailTokens.access_token tokenData)) s) as Hacc.
  destruct (scan_with_token w req tokenData
              (Some (GmailTokens.access_token tokenData)) s) as [[r|msg] s1];
    simpl in *; split; assumption.
Qed.

Lemma unexpired_token_is_used_as_stored_witness :
  let w := Scenario.world Scenario.granted [Scenario.pdf_part]
             Scenario.accepted_json (JsonValue Scenario.accepted) in
  let s := start (Scenario.store Scenario.token_row [Scenario.profile 0 5]) in
  clock w 0 <= GmailTokens.token_expiry Scenario.token_row
  /\ map access_of (gmail_tokens (db (snd (gmail_sync w Scenario.sync_request s))))
     = map access_of (gmail_tokens (db s)).
Proof.
  cbv zeta; split; [vm_compute; discriminate|].
  refine (proj2 (unexpired_token_is_used_as_stored
                   (Scenario.world Scenario.granted [Scenario.pdf_part]
                      Scenario.accepted_json (JsonValue Scenario.accepted))
                   Scenario.sync_request
                   (start (Scenario.store Scenario.token_row
                             [Scenario.profile 0 5]))
                   Scenario.token_row _ _ _));
    [discriminate | reflexivity | vm_compute; discriminate].
Defined.

(** X5.  A credential that has expired and is refreshed successfully is
    refreshed before anything else: the exchange is the scan's first remote
    call, it is made once, and every later call to the mail provider
    carries the new access token. *)
Theorem refreshed_token_is_used (w : World) (req : SyncRequest.t) (s : St)
    (tokenData : GmailTokens.row) (new_token : string) (expires_in : Z) :
  SyncRequest.user_id req <> "" ->
  fst (select_gmail_token (SyncRequest.user_id req) (db s)) = Some tokenData ->
  GmailTokens.token_expiry tokenData < clock w (length (trace s)) ->
  oauth_token w (length (trace s)) (GmailTokens.refresh_token tokenData)
  = Json {| tb_access_token := Some new_token; tb_expires_in := Some expires_in |} ->
  JsDate.valid (clock w (S (length (trace s))) + expires_in * 1000) = true ->
  exists calls,
    trace (snd (gmail_sync w req s))
    = trace s ++ TokenRefresh (GmailTokens.refresh_token tokenData) :: calls
    /\ Forall (authorized_by ("Bearer " ++ new_token)%string) calls.
Proof.
  intros Hu Hsel Hexp Hreply Hvalid.
  rewrite (gmail_sync_run w req s tokenData Hu Hsel).
  destruct (refresh_granted w (SyncRequest.user_id req) tokenData s new_token expires_in
              Hexp Hreply Hvalid) as [s1 [E [Ht _]]].
  unfold try_catch, bind; rewrite E.
  destruct (scan_with_token_authorized w req tokenData (Some new_token) s1)
    as [calls [Hc Hf]].
  exists calls; split; [|exact Hf].
  destruct (scan_with_token w req tokenData (Some new_token) s1) as [[r|msg] s2];
    simpl in *; rewrite Hc, Ht, <- app_assoc; reflexivity.
Qed.

Lemma refreshed_token_is_used_witness :
  let w := Scenario.world Scenario.granted [Scenario.pdf_part]
             Scenario.accepted_json (JsonValue Scenario.accepted) in
  let s := start (Scenario.store Scenario.expired_token_row [Scenario.profile 0 5]) in
  GmailTokens.token_expiry Scenario.expired_token_row < clock w 0
  /\ exists calls,
       trace (snd (gmail_sync w Scenario.sync_request s))
       = trace s ++ TokenRefresh "refresh-0" :: calls
       /\ Forall (authorized_by "Bearer access-1") calls.
Proof.
  cbv zeta; split; [reflexivity|].
  refine (refreshed_token_is_used
            (Scenario.world Scenario.granted [Scenario.pdf_part]
               Scenario.accepted_json (JsonValue Scenario.accepted))
            Scenario.sync_request
            (start (Scenario.store Scenario.expired_token_row [Scenario.profile 0 5]))
            Scenario.expired_token_row "access-1" 3599 _ _ _ _ _);
    [discriminate | reflexivity | reflexivity | reflexivity | reflexivity].
Defined.

(** ** The message loop as a whole *)

Lemma keeps_bind_ret (R : St -> St -> Prop) {A B} (a : A) (k : A -> M B) :
  keeps R (k a) -> keeps R (bind (ret a) k).
Proof. intros H s; exact (H s). Qed.

(** Whatever goes wrong inside a pass is caught inside the pass. *)
Lemma process_message_returns (w : World) (u : string) (tok : option string)
    (m : string) (s : St) :
  exists s', process_message w u tok m s = (Return tt, s').
Proof.
  unfold process_message, try_catch.
  match goal with
  | |- exists s', (let (o, s0) := ?body s in _) = _ => destruct (body s) as [[[]|msg] s1]
  end; [eexists; reflexivity|].
  unfold bind, query.
  destruct (insert_processed_email _ (db s1)); eexists; reflexivity.
Qed.

Lemma process_messages_returns (w : World) (u : string) (tok : option string)
    (ms : list string) (s : St) :
  exists s', process_messages w u tok ms s = (Return tt, s').
Proof.
  revert s; induction ms as [|m ms IH]; intros s; [eexists; reflexivity|].
  simpl; unfold bind.
  destruct (process_message_returns w u tok m s) as [s1 ->]; apply IH.
Qed.

(** After the loop every message it went through has a ledger row. *)
Lemma process_messages_cover (w : World) (u : string) (tok : option string)
    (ms : list string) (s : St) :
  ledger_unique (db s) ->
  forall m, In m ms -> has_row u m (db (snd (process_messages w u tok ms s))).
Proof.
  revert s; induction ms as [|m0 ms IH]; intros s Hu m Hin; [destruct Hin|].
  simpl; unfold bind.
  pose proof (ledger_step_process_message w u tok m0 s Hu) as Hstep.
  assert (Hrow : has_row u m0 (db (snd (process_message w u tok m0 s)))).
  { destruct (select_processed_email_unique u m0 (db s) Hu) as [[Hrow _] | [Hno _]].
    - destruct (process_message_skips w u tok m0 s Hu Hrow) as [s' [-> [Hd _]]].
      simpl; rewrite Hd; exact Hrow.
    - destruct (process_message_records w u tok m0 s Hu Hno)
        as [calls [st [reason [s' [-> [_ [_ [Hpe _]]]]]]]]; simpl.
      unfold has_row; rewrite Hpe, map_app; apply in_or_app; right; left; reflexivity. }
  destruct (process_message_returns w u tok m0 s) as [s1 E]; rewrite E in *; simpl in *.
  destruct Hstep as [_ [_ [_ [_ [Hu1 _]]]]].
  destruct Hin as [<- | Hin]; [|apply IH; assumption].
  destruct (ledger_step_process_messages w u tok ms s1 Hu1) as [_ [rows [_ [Hpe _]]]].
  eapply has_row_app; eassumption.
Qed.

(** With a row for each of them, the loop does nothing at all. *)
Lemma process_messages_skip_all (w : World) (u : string) (tok : option string)
    (ms : list string) (s : St) :
  ledger_unique (db s) ->
  (forall m, In m ms -> has_row u m (db s)) ->
  exists s',
    process_messages w u tok ms s = (Return tt, s')
    /\ db s' = db s /\ trace s' = trace s.
Proof.
  revert s; induction ms as [|m ms IH]; intros s Hu Hrows;
    [exists s; repeat split|].
  simpl; unfold bind.
  destruct (process_message_skips w u tok m s Hu (Hrows m (or_introl eq_refl)))
    as [s1 [-> [Hd Ht]]].
  destruct (IH s1) as [s2 [E [Hd2 Ht2]]].
  - rewrite Hd; exact Hu.
  - intros m' Hin; rewrite Hd; apply Hrows; right; exact Hin.
  - exists s2; split; [exact E | split; congruence].
Qed.

Lemma iso_date_valid (t : Z) :
  JsDate.valid t = true -> exists day, JsDate.iso_date (Some t) = Some day.
Proof.
  intros H; unfold JsDate.iso_date; rewrite H.
  destruct (JsDate.civil_from_days (JsDate.day t)) as [[y m] d]; eexists; reflexivity.
Qed.

Lemma Forall_update_where {A} (Q : A -> Prop) (p : A -> bool) (f : A -> A) (rows : list A) :
  (forall r, p r = true -> Q (f r)) -> (forall r, p r = false -> Q r) ->
  Forall Q (update_where p f rows).
Proof.
  intros H1 H2; induction rows as [|r rows IH]; simpl; constructor; [|exact IH].
  destruct (p r) eqn:E; [apply H1 | apply H2]; exact E.
Qed.

(** Once the search has answered, the scan runs to its end. *)
Lemma scan_messages_succeeds (w : World) (req : SyncRequest.t) (tok : option string)
    (ms : list string) (s : St) :
  (forall n, JsDate.valid (clock w n) = true) ->
  exists p i s',
    scan_messages w req tok ms s = (Return (SyncOk p i (length ms)), s')
    /\ (ledger_unique (db s) ->
        forall m, In m (firstn 20 ms) -> has_row (SyncRequest.user_id req) m (db s'))
    /\ gmail_tokens (db s') = gmail_tokens (db s).
Proof.
  intros Hclock; unfold scan_messages, bind at 1, reset_counters at 1.
  set (s0 := {| db := db s; trace := trace s; processedCount := 0; invoiceCount := 0 |}).
  unfold bind at 1.
  pose proof (process_messages_cover w (SyncRequest.user_id req) tok (firstn 20 ms) s0)
    as Hcover.
  pose proof (process_messages_tokens w (SyncRequest.user_id req) tok (firstn 20 ms) s0)
    as Htokens.
  destruct (process_messages_returns w (SyncRequest.user_id req) tok (firstn 20 ms) s0)
    as [s1 E]; rewrite E in *; simpl in Hcover.
  unfold bind at 1, Date_now at 1, bind at 1; simpl; rewrite Hclock.
  unfold ret at 1, bind at 1, query at 1; simpl.
  unfold bind, read_counters, ret; simpl.
  eexists; eexists; eexists; split; [reflexivity|]; simpl; split.
  - intros Hu m Hin; apply (Hcover Hu m Hin).
  - exact Htokens.
Qed.

(** X6.  With a credential that has not expired, valid dates and a search
    that answers, the scan always ends with the success response, whatever
    fails for single messages or attachments, and although the update of
    the last sync at its end is turned down by the datastore:
    [total_emails] is the number of all results, every one of the first
    twenty results has a ledger row afterwards, and the credential rows are
    as they were before the scan. *)
Theorem scan_survives_failing_messages (w : World) (req : SyncRequest.t) (s : St)
    (tokenData : GmailTokens.row) (searchData : option (list string)) :
  SyncRequest.user_id req <> "" ->
  fst (select_gmail_token (SyncRequest.user_id req) (db s)) = Some tokenData ->
  clock w (length (trace s)) <= GmailTokens.token_expiry tokenData ->
  (forall n, JsDate.valid (clock w n) = true) ->
  (forall n, JsDate.valid
               (lower_bound (SyncRequest.initial_sync req)
                  (GmailTokens.gmail_last_sync tokenData) (clock w n)) = true) ->
  (forall n auth q, gmail_search w n auth q = Json searchData) ->
  ledger_unique (db s) ->
  exists p i s',
    gmail_sync w req s = (Return (SyncOk p i (length (messages_of searchData))), s')
    /\ (forall m, In m (firstn 20 (messages_of searchData)) ->
                  has_row (SyncRequest.user_id req) m (db s'))
    /\ gmail_tokens (db s') = gmail_tokens (db s).
Proof.
  intros Hu Hsel Hexp Hclock Hbound Hsearch Huniq.
  rewrite (gmail_sync_run w req s tokenData Hu Hsel).
  unfold try_catch, bind at 1; rewrite (refresh_not_needed _ _ _ _ Hexp).
  unfold scan_with_token, bind at 1, build_query, bind at 1, Date_now at 1.
  destruct (iso_date_valid _ (Hbound (length (trace s)))) as [day Hday].
  unfold toISODate; rewrite Hday.
  unfold ret at 1, bind at 1, ret at 1, bind at 1, fetch at 1; simpl.
  rewrite Hsearch; simpl json_of; unfold bind at 1, ret at 1.
  match goal with
  | |- context [scan_messages w req ?tok ?ms ?s0] =>
      destruct (scan_messages_succeeds w req tok ms s0 Hclock)
        as [p [i [s' [E [Hrows Hsync]]]]]
  end.
  rewrite E; exists p, i, s'; split; [reflexivity|].
  split; [apply Hrows; exact Huniq | exact Hsync].
Qed.

Lemma scan_survives_failing_messages_witness :
  let w := Scenario.world Scenario.granted [Scenario.pdf_part]
             Scenario.apology SyntaxError in
  let s := start (Scenario.store Scenario.token_row [Scenario.profile 0 5]) in
  ledger_unique (db s)
  /\ exists p i s',
       gmail_sync w Scenario.sync_request s = (Return (SyncOk p i 1), s')
       /\ has_row "u1" "m1" (db s').
Proof.
  cbv zeta; split; [constructor|].
  destruct (scan_survives_failing_messages
              (Scenario.world Scenario.granted [Scenario.pdf_part]
                 Scenario.apology SyntaxError)
              Scenario.sync_request
              (start (Scenario.store Scenario.token_row [Scenario.profile 0 5]))
              Scenario.token_row (Some ["m1"]))
    as [p [i [s' [E [Hrows _]]]]].
  - discriminate.
  - reflexivity.
  - vm_compute; discriminate.
  - intros n; reflexivity.
  - intros n; reflexivity.
  - intros n auth q; reflexivity.
  - constructor.
  - exists p, i, s'; split; [exact E | apply Hrows; left; reflexivity].
Defined.

(** ** The batch limit *)

Lemma records_within_same (u : string) (ms : list string) (s s' : St) :
  db s' = db s -> trace s' = trace s -> records_within u ms s s'.
Proof.
  intros Hd _ Hu; exists []; rewrite Hd, app_nil_r.
  split; [reflexivity | split; [exact Hu | constructor]].
Qed.

Lemma records_within_trans (u : string) (ms : list string) (s1 s2 s3 : St) :
  records_within u ms s1 s2 -> records_within u ms s2 s3 -> records_within u ms s1 s3.
Proof.
  intros H12 H23 Hu.
  destruct (H12 Hu) as [r1 [P1 [U2 F1]]].
  destruct (H23 U2) as [r2 [P2 [U3 F2]]].
  exists (r1 ++ r2); rewrite P2, P1, app_assoc.
  split; [reflexivity | split; [exact U3 | apply Forall_app; split; assumption]].
Qed.

Lemma records_within_query_other {A} (u : string) (ms : list string) (q : Db -> A * Db) :
  (forall d, processed_emails (snd (q d)) = processed_emails d) ->
  keeps (records_within u ms) (query q).
Proof.
  intros Hq s Hu; unfold query.
  specialize (Hq (db s)); destruct (q (db s)) as [a d]; simpl in *.
  exists []; rewrite app_nil_r; split; [exact Hq|].
  split; [unfold ledger_unique; rewrite Hq; exact Hu | constructor].
Qed.

Lemma records_within_fetch (u : string) (ms : list string) (e : Event) :
  keeps (records_within u ms) (fetch e).
Proof.
  intros s Hu; exists []; simpl; rewrite app_nil_r.
  split; [reflexivity | split; [exact Hu | constructor]].
Qed.

Lemma records_within_process_messages (w : World) (u : string) (tok : option string)
    (ms l : list string) :
  incl l ms -> keeps (records_within u ms) (process_messages w u tok l).
Proof.
  induction l as [|m l IH]; intros Hincl; simpl.
  - apply (keeps_ret _ (records_within_same u ms)).
  - apply (keeps_bind _ (records_within_trans u ms));
      [|intros _; apply IH; intros x Hx; apply Hincl; right; exact Hx].
    intros s Hu.
    destruct (select_processed_email_unique u m (db s) Hu) as [[Hrow _] | [Hno _]].
    + destruct (process_message_skips w u tok m s Hu Hrow) as [s' [-> [Hd Ht]]]; simpl.
      exact (records_within_same u ms s s' Hd Ht Hu).
    + destruct (process_message_records w u tok m s Hu Hno)
        as [calls [st [reason [s' [-> [_ [_ [Hpe _]]]]]]]]; simpl.
      exists [ledger_row u m st reason]; split; [exact Hpe|]; split.
      * unfold ledger_unique; rewrite Hpe, map_app; simpl.
        apply NoDup_app; [exact Hu | constructor; [intros [] | constructor] |].
        intros x Hx [<- | []]; apply Hno; exact Hx.
      * constructor; [|constructor]; simpl; split; [reflexivity|].
        apply Hincl; left; reflexivity.
Qed.

Ltac within_step P :=
  rel_step (logs P) (logs_same P) (logs_trans P)
    ltac:(first [ apply logs_query | apply logs_fetch; exact I ]).

Ltac records_step u ms :=
  rel_step (records_within u ms) (records_within_same u ms) (records_within_trans u ms)
    ltac:(first [ apply records_within_fetch
                | apply records_within_query_other; intros ?; reflexivity ]).

(** X7.  Only the first twenty search results are handled in one scan:
    every message or attachment fetched and every document posted to the
    classifier belongs to one of them, and the ledger grows by at most
    twenty rows, all of them rows of the scanning user for one of those
    messages. *)
Theorem scan_handles_first_twenty_results (w : World) (req : SyncRequest.t) (s : St)
    (searchData : option (list string)) :
  (forall n auth q, gmail_search w n auth q = Json searchData) ->
  ledger_unique (db s) ->
  let batch := firstn 20 (messages_of searchData) in
  (exists calls,
     trace (snd (gmail_sync w req s)) = trace s ++ calls
     /\ Forall (within batch) calls)
  /\ (exists rows,
        processed_emails (db (snd (gmail_sync w req s)))
        = processed_emails (db s) ++ rows
        /\ (length rows <= 20)%nat
        /\ Forall (fun r => ProcessedEmails.user_id r = SyncRequest.user_id req
                            /\ In (ProcessedEmails.gmail_message_id r) batch) rows).
Proof.
  intros Hsearch Hu batch.
  set (u := SyncRequest.user_id req).
  assert (Hlog : keeps (logs (within batch)) (gmail_sync w req)).
  { unfold gmail_sync; rewrite gmail_sync_body_unfold; fold u.
    unfold scan_with_token, refresh_if_expired, build_query; fold u.
    within_step (within batch); [|within_step (within batch)].
    within_step (within batch); [within_step (within batch)|].
    within_step (within batch); [within_step (within batch)|].
    within_step (within batch); [|within_step (within batch)].
    within_step (within batch); [repeat within_step (within batch)|].
    within_step (within batch); [repeat within_step (within batch)|].
    within_step (within batch); [within_step (within batch)|].
    rewrite Hsearch; simpl json_of; apply keeps_bind_ret.
    unfold scan_messages; fold batch.
    within_step (within batch); [within_step (within batch)|].
    within_step (within batch); [|repeat within_step (within batch)].
    apply logs_process_messages; intros; simpl; auto.
    exists m; split; [reflexivity | assumption]. }
  assert (Hrec : keeps (records_within u batch) (gmail_sync w req)).
  { unfold gmail_sync; rewrite gmail_sync_body_unfold; fold u.
    unfold scan_with_token, refresh_if_expired, build_query; fold u.
    records_step u batch; [|records_step u batch].
    records_step u batch; [records_step u batch|].
    records_step u batch; [records_step u batch|].
    records_step u batch; [|records_step u batch].
    records_step u batch; [repeat records_step u batch|].
    records_step u batch; [repeat records_step u batch|].
    records_step u batch; [records_step u batch|].
    rewrite Hsearch; simpl json_of; apply keeps_bind_ret.
    unfold scan_messages; fold batch; fold u.
    records_step u batch; [records_step u batch|].
    records_step u batch; [|repeat records_step u batch].
    apply records_within_process_messages; apply incl_refl. }
  split; [exact (Hlog s)|].
  destruct (Hrec s Hu) as [rows [Hpe [Hu' Hf]]].
  exists rows; split; [exact Hpe | split; [|exact Hf]].
  assert (Hnd : NoDup (map ledger_pair rows)).
  { unfold ledger_unique in Hu'; rewrite Hpe, map_app in Hu'.
    apply NoDup_app_remove_l in Hu'; exact Hu'. }
  assert (Hincl : incl (map ledger_pair rows) (map (fun m => (u, m)) batch)).
  { intros x Hx; apply in_map_iff in Hx; destruct Hx as [r [<- Hr]].
    rewrite Forall_forall in Hf; destruct (Hf r Hr) as [H1 H2].
    apply in_map_iff; exists (ProcessedEmails.gmail_message_id r); split; [|exact H2].
    unfold ledger_pair; rewrite H1; reflexivity. }
  pose proof (NoDup_incl_length Hnd Hincl) as Hlen.
  rewrite !length_map in Hlen.
  pose proof (firstn_le_length 20 (messages_of searchData)); fold batch in H; lia.
Qed.

Lemma scan_handles_first_twenty_results_witness :
  let w := Scenario.world Scenario.granted [Scenario.pdf_part]
             Scenario.accepted_json (JsonValue Scenario.accepted) in
  let s := start (Scenario.store Scenario.token_row [Scenario.profile 0 5]) in
  ledger_unique (db s)
  /\ exists calls,
       trace (snd (gmail_sync w Scenario.sync_request s)) = trace s ++ calls
       /\ Forall (within ["m1"]) calls.
Proof.
  cbv zeta; split; [constructor|].
  refine (proj1 (scan_handles_first_twenty_results
                   (Scenario.world Scenario.granted [Scenario.pdf_part]
                      Scenario.accepted_json (JsonValue Scenario.accepted))
                   Scenario.sync_request
                   (start (Scenario.store Scenario.token_row
                             [Scenario.profile 0 5]))
                   (Some ["m1"]) _ _)); [intros n auth q; reflexivity | constructor].
Defined.

(** ** Scanning again *)

Lemma idle_same (u : string) (ms : list string) (s s' : St) :
  db s' = db s -> trace s' = trace s -> idle u ms s s'.
Proof.
  intros Hd Ht _ _; rewrite Hd; split; [apply logs_same; assumption | auto].
Qed.

Lemma idle_trans (u : string) (ms : list string) (s1 s2 s3 : St) :
  idle u ms s1 s2 -> idle u ms s2 s3 -> idle u ms s1 s3.
Proof.
  intros H12 H23 Hu Hrows.
  destruct (H12 Hu Hrows) as [L1 [P1 [I1 Q1]]].
  destruct H23 as [L2 [P2 [I2 Q2]]].
  - unfold ledger_unique; rewrite P1; exact Hu.
  - intros m Hin; unfold has_row; rewrite P1; apply Hrows; exact Hin.
  - split; [eapply logs_trans; eassumption|].
    split; [congruence | split; congruence].
Qed.

Lemma idle_fetch (u : string) (ms : list string) (e : Event) :
  no_message_call e -> keeps (idle u ms) (fetch e).
Proof.
  intros He s _ _; split; [apply logs_fetch; exact He | auto].
Qed.

Lemma idle_query_other {A} (u : string) (ms : list string) (q : Db -> A * Db) :
  (forall d, processed_emails (snd (q d)) = processed_emails d
             /\ invoices (snd (q d)) = invoices d
             /\ profiles (snd (q d)) = profiles d) ->
  keeps (idle u ms) (query q).
Proof.
  intros Hq s _ _; split; [apply logs_query|].
  unfold query; specialize (Hq (db s)); destruct (q (db s)); exact Hq.
Qed.

Lemma idle_process_messages (w : World) (u : string) (tok : option string)
    (ms l : list string) :
  incl l ms -> keeps (idle u ms) (process_messages w u tok l).
Proof.
  intros Hincl s Hu Hrows.
  destruct (process_messages_skip_all w u tok l s Hu) as [s' [-> [Hd Ht]]].
  - intros m Hin; apply Hrows, Hincl, Hin.
  - simpl; rewrite Hd; split; [apply logs_same; assumption | auto].
Qed.

Ltac idle_step u ms :=
  rel_step (idle u ms) (idle_same u ms) (idle_trans u ms)
    ltac:(first [ apply idle_fetch; exact I
                | apply idle_query_other; intros ?; repeat split ]).

(** X8.  A scan whose first twenty search results all have a ledger row
    already does no work on messages: it fetches no message and no
    attachment, posts nothing to the classifier, calls no vision model, and
    leaves the ledger, the invoices and the profiles as they are. *)
Theorem scan_of_seen_messages_is_idle (w : World) (req : SyncRequest.t) (s : St)
    (searchData : option (list string)) :
  (forall n auth q, gmail_search w n auth q = Json searchData) ->
  ledger_unique (db s) ->
  (forall m, In m (firstn 20 (messages_of searchData)) ->
             has_row (SyncRequest.user_id req) m (db s)) ->
  (exists calls,
     trace (snd (gmail_sync w req s)) = trace s ++ calls
     /\ Forall no_message_call calls)
  /\ processed_emails (db (snd (gmail_sync w req s))) = processed_emails (db s)
  /\ invoices (db (snd (gmail_sync w req s))) = invoices (db s)
  /\ profiles (db (snd (gmail_sync w req s))) = profiles (db s).
Proof.
  intros Hsearch Hu Hrows.
  set (u := SyncRequest.user_id req) in *.
  set (batch := firstn 20 (messages_of searchData)) in *.
  assert (H : keeps (idle u batch) (gmail_sync w req)); [|exact (H s Hu Hrows)].
  unfold gmail_sync; rewrite gmail_sync_body_unfold; fold u.
  unfold scan_with_token, refresh_if_expired, build_query; fold u.
  idle_step u batch; [|idle_step u batch].
  idle_step u batch; [idle_step u batch|].
  idle_step u batch; [idle_step u batch|].
  idle_step u batch; [|idle_step u batch].
  idle_step u batch; [repeat idle_step u batch|].
  idle_step u batch; [repeat idle_step u batch|].
  idle_step u batch; [idle_step u batch|].
  rewrite Hsearch; simpl json_of; apply keeps_bind_ret.
  unfold scan_messages; fold batch; fold u.
  idle_step u batch; [idle_step u batch|].
  idle_step u batch; [|repeat idle_step u batch].
  apply idle_process_messages; apply incl_refl.
Qed.

Lemma scan_of_seen_messages_is_idle_witness :
  let w := Scenario.world Scenario.granted [Scenario.pdf_part]
             Scenario.accepted_json (JsonValue Scenario.accepted) in
  let d := {| gmail_tokens := [Scenario.token_row];
              processed_emails := [ledger_row "u1" "m1" ProcessedEmails.processed None];
              invoices := []; profiles := [Scenario.profile 0 5] |} in
  ledger_unique d
  /\ invoices (db (snd (gmail_sync w Scenario.sync_request (start d)))) = [].
Proof.
  cbv zeta.
  assert (Hd : ledger_unique
                 {| gmail_tokens := [Scenario.token_row];
                    processed_emails :=
                      [ledger_row "u1" "m1" ProcessedEmails.processed None];
                    invoices := []; profiles := [Scenario.profile 0 5] |}).
  { constructor; [intros [] | constructor]. }
  split; [exact Hd|].
  refine (proj1 (proj2 (proj2 (scan_of_seen_messages_is_idle
                   (Scenario.world Scenario.granted [Scenario.pdf_part]
                      Scenario.accepted_json (JsonValue Scenario.accepted))
                   Scenario.sync_request
                   (start {| gmail_tokens := [Scenario.token_row];
                             processed_emails :=
                               [ledger_row "u1" "m1" ProcessedEmails.processed None];
                             invoices := []; profiles := [Scenario.profile 0 5] |})
                   (Some ["m1"]) _ Hd _)))).
  - intros n auth q; reflexivity.
  - intros m [<- | []]; left; reflexivity.
Defined.

(** ** What one classification writes *)

(** The three ways [classify-document] can end.  It fails and has written
    nothing; or it rejects, touching at most the ledger rows of the message
    it was given; or it accepts: then the limit had not been reached, one
    invoice of the user was appended, the user's document count went up by
    one, and the ledger rows of the message it was given (if any) were
    linked to the invoice. *)
Ltac err_case :=
  eexists; eexists; split; [reflexivity | left; eexists; split; reflexivity].

Lemma classify_document_effect (w : World) (req : ClassifyRequest.t) (s : St) :
  let u := ClassifyRequest.user_id req in
  let mid := ClassifyRequest.gmail_message_id req in
  exists response s',
    classify_document w req s = (Return response, s')
    /\ ((exists message, response = ClassifyError message /\ db s' = db s)
        \/ (exists c,
              response = ClassifyOk c None
              /\ gmail_tokens (db s') = gmail_tokens (db s)
              /\ invoices (db s') = invoices (db s)
              /\ profiles (db s') = profiles (db s)
              /\ processed_emails (db s')
                 = if Js.truthy mid
                   then processed_emails
                          (snd (update_processed_email_rejected u (Js.render mid)
                                  (Js.or_default (rejection_reason c) "Not an invoice")
                                  (db s)))
                   else processed_emails (db s))
        \/ (exists c x,
              response = ClassifyOk c (Some (length (invoices (db s))))
              /\ is_invoice c = true
              /\ limit_reached (fst (select_profile u (db s))) = false
              /\ Invoices.user_id x = u
              /\ gmail_tokens (db s') = gmail_tokens (db s)
              /\ invoices (db s')
                 = invoices (db s)
                   ++ [{| Invoices.id := length (invoices (db s)); Invoices.fields := x |}]
              /\ profiles (db s') = profiles (snd (increment_document_count u (db s)))
              /\ processed_emails (db s')
                 = if Js.truthy mid
                   then processed_emails
                          (snd (update_processed_email_invoice u (Js.render mid)
                                  (length (invoices (db s))) (db s)))
                   else processed_emails (db s))).
Proof.
  destruct s as [d tr pc ic]; cbv zeta; simpl db.
  unfold classify_document, classify_document_body, try_catch.
  destruct (well_formed req); simpl negb; cbv iota; [|err_case].
  unfold bind at 1, query at 1, select_profile at 1; simpl.
  destruct (limit_reached (single (filter _ (profiles d)))) eqn:Hlim;
    [err_case|].
  unfold bind at 1, fetch at 1; simpl.
  destruct (openai w (length tr) (image_url_of req)) as [e|e|e|content];
    try (err_case).
  unfold bind at 1, parse_classification.
  destruct content as [content|]; [|err_case].
  destruct (JSON_parse w (json_text content)) as [| |c];
    try (err_case).
  unfold ret at 1.
  destruct (is_invoice c) eqn:Hinv, (extracted c) as [x|] eqn:Hdata.
  2,3,4: unfold reject, bind, query, ret;
    destruct (Js.truthy (ClassifyRequest.gmail_message_id req)) eqn:Hmid; simpl;
    eexists; eexists; (split; [reflexivity|]); right; left; exists c;
    rewrite ?Hmid; repeat split.
  unfold materialize, bind at 1, Date_now at 1; simpl.
  rewrite length_app; simpl.
  unfold toISODate.
  destruct (JsDate.iso_date (Some (clock w (length tr + 1)))) as [today|];
    [|err_case].
  unfold bind at 1, ret at 1, bind at 1, query at 1, insert_invoice; simpl.
  destruct (invoices_insert_error w _) eqn:Hins; simpl; [err_case|].
  unfold bind, query, ret.
  destruct (Js.truthy (ClassifyRequest.gmail_message_id req)) eqn:Hmid; simpl;
    eexists; eexists; (split; [reflexivity|]); right; right;
    exists c, (invoiceData (ClassifyRequest.user_id req) c x
                 (clock w (length tr + 1)) today);
    rewrite ?Hmid;
    (split; [reflexivity|]); (split; [first [exact Hinv | reflexivity]|]);
    (split; [first [exact Hlim | reflexivity]|]);
    (split; [reflexivity|]); repeat split.
Qed.

(** X9.  A classification that ends in an error response has written
    nothing: whether the request was incomplete, the limit reached, the
    model unreachable or its reply unusable, or the invoice turned down by
    the store, the datastore is exactly as before. *)
Theorem failed_classification_writes_nothing (w : World) (req : ClassifyRequest.t)
    (s : St) (message : string) :
  fst (classify_document w req s) = Return (ClassifyError message) ->
  db (snd (classify_document w req s)) = db s.
Proof.
  intros H.
  destruct (classify_document_effect w req s) as [r [s' [E Hcase]]].
  rewrite E in *; simpl in *; injection H as ->.
  destruct Hcase as [[m [_ Hd]] | [[c [Hr _]] | [c [x [Hr _]]]]];
    [exact Hd | discriminate | discriminate].
Qed.

Lemma failed_classification_writes_nothing_witness :
  let w := Scenario.world Scenario.granted [Scenario.pdf_part]
             Scenario.apology SyntaxError in
  let s := start (Scenario.store Scenario.token_row [Scenario.profile 0 5]) in
  db (snd (classify_document w Scenario.upload_request s)) = db s.
Proof.
  cbv zeta.
  apply (failed_classification_writes_nothing
           (Scenario.world Scenario.granted [Scenario.pdf_part]
              Scenario.apology SyntaxError)
           Scenario.upload_request
           (start (Scenario.store Scenario.token_row [Scenario.profile 0 5]))
           "Invalid response from AI").
  vm_compute; reflexivity.
Defined.

Lemma ledger_key_false_pair (u m : string) (r : ProcessedEmails.row) :
  ledger_key u m r = false <-> ledger_pair r <> (u, m).
Proof.
  split.
  - intros H Hp; apply ledger_key_pair in Hp; congruence.
  - intros H; destruct (ledger_key u m r) eqn:E; [|reflexivity].
    apply ledger_key_pair in E; contradiction.
Qed.

(** X10.  When [classify-document] is given a message id and accepts the
    document, every ledger row of that user and message ends with status
    [processed] and the id of the new invoice; no ledger row is added or
    removed and the rows of other messages are untouched. *)
Theorem acceptance_links_existing_ledger_rows (w : World) (req : ClassifyRequest.t)
    (s : St) (c : Classification) (invoice : nat) (m : string) :
  fst (classify_document w req s) = Return (ClassifyOk c (Some invoice)) ->
  ClassifyRequest.gmail_message_id req = Some m ->
  m <> "" ->
  let u := ClassifyRequest.user_id req in
  let s' := snd (classify_document w req s) in
  map Invoices.id (invoices (db s')) = map Invoices.id (invoices (db s)) ++ [invoice]
  /\ map ledger_pair (processed_emails (db s')) = map ledger_pair (processed_emails (db s))
  /\ Forall (fun r => ledger_pair r = (u, m) ->
                      ProcessedEmails.invoice_id r = Some invoice
                      /\ ProcessedEmails.status r = ProcessedEmails.processed)
       (processed_emails (db s'))
  /\ ledger_of_others u m (db s') = ledger_of_others u m (db s).
Proof.
  intros H Hmid Hm u s'; unfold s'.
  destruct (classify_document_effect w req s) as [r [s1 [E Hcase]]].
  rewrite E in *; simpl in *; injection H as ->.
  destruct Hcase as [[msg [Hr _]] | [[c' [Hr _]] | [c' [x [Hr [_ [_ [_ [_ [Hi [_ Hpe]]]]]]]]]]];
    [discriminate | discriminate |].
  injection Hr as Hc Hinv; subst c' invoice.
  rewrite Hmid in Hpe; simpl in Hpe.
  apply String.eqb_neq in Hm; rewrite Hm in Hpe; simpl in Hpe.
  fold u in Hpe; rewrite Hi, Hpe, map_app; simpl.
  split; [reflexivity|]; split; [|split].
  - apply map_update_where; intros r; reflexivity.
  - apply Forall_update_where.
    + intros r _ _; split; reflexivity.
    + intros r Hk Hp; apply ledger_key_pair in Hp; congruence.
  - unfold ledger_of_others; rewrite Hpe; apply filter_update_where.
    intros r Hk; simpl; unfold ledger_key in *; simpl; rewrite Hk; split; reflexivity.
Qed.

Lemma acceptance_links_existing_ledger_rows_witness :
  let w := Scenario.world Scenario.granted [Scenario.pdf_part]
             Scenario.accepted_json (JsonValue Scenario.accepted) in
  let d := {| gmail_tokens := [Scenario.token_row];
              processed_emails := [ledger_row "u1" "m1" ProcessedEmails.processed None];
              invoices := []; profiles := [Scenario.profile 0 5] |} in
  let req := classify_request "u1" "m1" Scenario.pdf_part (Some "JVBERi0xLjQ=") in
  Forall (fun r => ledger_pair r = ("u1", "m1") ->
                   ProcessedEmails.invoice_id r = Some 0%nat
                   /\ ProcessedEmails.status r = ProcessedEmails.processed)
    (processed_emails (db (snd (classify_document w req (start d))))).
Proof.
  cbv zeta.
  refine (proj1 (proj2 (proj2 (acceptance_links_existing_ledger_rows
            (Scenario.world Scenario.granted [Scenario.pdf_part]
               Scenario.accepted_json (JsonValue Scenario.accepted))
            (classify_request "u1" "m1" Scenario.pdf_part (Some "JVBERi0xLjQ="))
            (start {| gmail_tokens := [Scenario.token_row];
                      processed_emails :=
                        [ledger_row "u1" "m1" ProcessedEmails.processed None];
                      invoices := []; profiles := [Scenario.profile 0 5] |})
            Scenario.accepted 0%nat "m1" _ _ _))));
    [vm_compute; reflexivity | reflexivity | discriminate].
Defined.

(** X11.  When [classify-document] is given a message id and rejects the
    document, every ledger row of that user and message ends with status
    [rejected] and a reason, the classifier's or else ['Not an invoice'];
    no invoice is written, no document is counted, and the rows of other
    messages are untouched. *)
Theorem rejection_marks_existing_ledger_rows (w : World) (req : ClassifyRequest.t)
    (s : St) (c : Classification) (m : string) :
  fst (classify_document w req s) = Return (ClassifyOk c None) ->
  ClassifyRequest.gmail_message_id req = Some m ->
  m <> "" ->
  let u := ClassifyRequest.user_id req in
  let s' := snd (classify_document w req s) in
  invoices (db s') = invoices (db s)
  /\ profiles (db s') = profiles (db s)
  /\ map ledger_pair (processed_emails (db s')) = map ledger_pair (processed_emails (db s))
  /\ Forall (fun r => ledger_pair r = (u, m) ->
                      ProcessedEmails.status r = ProcessedEmails.rejected
                      /\ ProcessedEmails.rejection_reason r
                         = Some (Js.or_default (rejection_reason c) "Not an invoice"))
       (processed_emails (db s'))
  /\ ledger_of_others u m (db s') = ledger_of_others u m (db s).
Proof.
  intros H Hmid Hm u s'; unfold s'.
  destruct (classify_document_effect w req s) as [r [s1 [E Hcase]]].
  rewrite E in *; simpl in *; injection H as ->.
  destruct Hcase as [[msg [Hr _]] | [[c' [Hr [_ [Hi [Hp Hpe]]]]] | [c' [x [Hr _]]]]];
    [discriminate | | discriminate].
  injection Hr as <-.
  rewrite Hmid in Hpe; simpl in Hpe.
  apply String.eqb_neq in Hm; rewrite Hm in Hpe; simpl in Hpe.
  fold u in Hpe; rewrite Hpe.
  split; [exact Hi | split; [exact Hp|]]; split; [|split].
  - apply map_update_where; intros r; reflexivity.
  - apply Forall_update_where.
    + intros r _ _; split; reflexivity.
    + intros r Hk Hpair; apply ledger_key_pair in Hpair; congruence.
  - unfold ledger_of_others; rewrite Hpe; apply filter_update_where.
    intros r Hk; simpl; unfold ledger_key in *; simpl; rewrite Hk; split; reflexivity.
Qed.

Lemma rejection_marks_existing_ledger_rows_witness :
  let w := Scenario.world Scenario.granted [Scenario.pdf_part]
             Scenario.accepted_without_data_json
             (JsonValue Scenario.accepted_without_data) in
  let d := {| gmail_tokens := [Scenario.token_row];
              processed_emails := [ledger_row "u1" "m1" ProcessedEmails.processed None];
              invoices := []; profiles := [Scenario.profile 0 5] |} in
  let req := classify_request "u1" "m1" Scenario.pdf_part (Some "JVBERi0xLjQ=") in
  invoices (db (snd (classify_document w req (start d)))) = invoices d.
Proof.
  cbv zeta.
  refine (proj1 (rejection_marks_existing_ledger_rows
            (Scenario.world Scenario.granted [Scenario.pdf_part]
               Scenario.accepted_without_data_json
               (JsonValue Scenario.accepted_without_data))
            (classify_request "u1" "m1" Scenario.pdf_part (Some "JVBERi0xLjQ="))
            (start {| gmail_tokens := [Scenario.token_row];
                      processed_emails :=
                        [ledger_row "u1" "m1" ProcessedEmails.processed None];
                      invoices := []; profiles := [Scenario.profile 0 5] |})
            Scenario.accepted_without_data "m1" _ _ _));
    [vm_compute; reflexivity | reflexivity | discriminate].
Defined.

(** ** Counting documents *)

Lemma add_documents_id (n : nat) (p : Profiles.row) :
  Profiles.id (add_documents n p) = Profiles.id p.
Proof. destruct n; reflexivity. Qed.

Lemma add_documents_add (n1 n2 : nat) (p : Profiles.row) :
  add_documents n2 (add_documents n1 p) = add_documents (n1 + n2) p.
Proof.
  destruct n1 as [|a]; [reflexivity|].
  destruct n2 as [|b]; [rewrite Nat.add_0_r; reflexivity|].
  unfold add_documents; simpl Nat.add; cbv iota; simpl.
  f_equal; f_equal; lia.
Qed.

Lemma credit_zero (u : string) (rows : list Profiles.row) : credit u 0 rows = rows.
Proof.
  unfold credit; rewrite <- (map_id rows) at 2; apply map_ext.
  intros p; destruct (Profiles.id p =? u)%string; reflexivity.
Qed.

Lemma credit_add (u : string) (n1 n2 : nat) (rows : list Profiles.row) :
  credit u n2 (credit u n1 rows) = credit u (n1 + n2) rows.
Proof.
  unfold credit; rewrite map_map; apply map_ext; intros p.
  destruct (Profiles.id p =? u)%string eqn:E.
  - rewrite add_documents_id, E; apply add_documents_add.
  - rewrite E; reflexivity.
Qed.

Lemma increment_document_count_credit (u : string) (d : Db) :
  profiles (snd (increment_document_count u d)) = credit u 1 (profiles d).
Proof. reflexivity. Qed.

Lemma accounting_same (u : string) (s s' : St) :
  db s' = db s -> trace s' = trace s -> accounting u s s'.
Proof.
  intros Hd _; exists []; rewrite Hd, app_nil_r; simpl.
  split; [reflexivity | split; [constructor | symmetry; apply credit_zero]].
Qed.

Lemma accounting_trans (u : string) (s1 s2 s3 : St) :
  accounting u s1 s2 -> accounting u s2 s3 -> accounting u s1 s3.
Proof.
  intros [n1 [I1 [F1 P1]]] [n2 [I2 [F2 P2]]]; exists (n1 ++ n2).
  rewrite I2, I1, P2, P1, app_assoc, credit_add, length_app.
  split; [reflexivity | split; [apply Forall_app; split; assumption | reflexivity]].
Qed.

Lemma accounting_quiet {A} (u : string) (c : M A) :
  (forall s, invoices (db (snd (c s))) = invoices (db s)
             /\ profiles (db (snd (c s))) = profiles (db s)) ->
  keeps (accounting u) c.
Proof.
  intros H s; destruct (H s) as [Hi Hp]; exists []; rewrite Hi, Hp, app_nil_r; simpl.
  split; [reflexivity | split; [constructor | symmetry; apply credit_zero]].
Qed.

Lemma accounting_classify_document (w : World) (req : ClassifyRequest.t) :
  keeps (accounting (ClassifyRequest.user_id req)) (classify_document w req).
Proof.
  intros s.
  destruct (classify_document_effect w req s) as [r [s' [E Hcase]]].
  rewrite E; simpl.
  destruct Hcase as [[msg [_ Hd]] | [[c [_ [_ [Hi [Hp _]]]]]
                                    | [c [x [_ [_ [_ [Hx [_ [Hi [Hp _]]]]]]]]]]].
  - exists []; rewrite Hd, app_nil_r; simpl.
    split; [reflexivity | split; [constructor | symmetry; apply credit_zero]].
  - exists []; rewrite Hi, Hp, app_nil_r; simpl.
    split; [reflexivity | split; [constructor | symmetry; apply credit_zero]].
  - eexists; split; [exact Hi|]; split; [constructor; [exact Hx | constructor]|].
    rewrite Hp; reflexivity.
Qed.

Ltac accounting_step u :=
  rel_step (accounting u) (accounting_same u) (accounting_trans u)
    ltac:(apply accounting_quiet; intros ?; unfold query, fetch;
          first [ split; reflexivity
                | unfold insert_processed_email;
                  destruct (existsb _ _); split; reflexivity ]).

Lemma accounting_process_messages (w : World) (u : string) (tok : option string)
    (ms : list string) :
  keeps (accounting u) (process_messages w u tok ms).
Proof.
  assert (Hloop : forall m ps, keeps (accounting u) (process_attachments w u tok m ps)).
  { intros m; induction ps as [|part ps IH]; simpl; [accounting_step u|].
    accounting_step u; [|exact IH].
    unfold process_attachment.
    do 4 (accounting_step u; [accounting_step u|]).
    accounting_step u;
      [apply (accounting_classify_document w (classify_request u m part a0))|].
    repeat accounting_step u. }
  induction ms as [|m ms IH]; simpl; [accounting_step u|].
  accounting_step u; [|exact IH].
  unfold process_message, attachments_of.
  accounting_step u; [|repeat accounting_step u].
  do 4 (accounting_step u; [accounting_step u|]).
  accounting_step u; [repeat accounting_step u|].
  accounting_step u; [apply Hloop|].
  repeat accounting_step u.
Qed.

(** X12.  Invoices are only ever appended, and counted as they are
    written: after a scan for user [u] the invoice table is the old one
    followed by new invoices of [u], and every profile row of [u] has its
    document count raised by exactly their number (a [null] count starting
    from zero), while limits and other users' rows are unchanged. *)
Theorem scan_counts_every_invoice_it_writes (w : World) (req : SyncRequest.t) (s : St) :
  let u := SyncRequest.user_id req in
  let s' := snd (gmail_sync w req s) in
  exists new,
    invoices (db s') = invoices (db s) ++ new
    /\ Forall (fun r => Invoices.user_id (Invoices.fields r) = u) new
    /\ profiles (db s')
       = map (fun p => if (Profiles.id p =? u)%string
                       then add_documents (length new) p else p)
           (profiles (db s)).
Proof.
  intros u s'.
  assert (H : keeps (accounting u) (gmail_sync w req)); [|exact (H s)].
  unfold gmail_sync; rewrite gmail_sync_body_unfold; fold u.
  unfold scan_with_token, scan_messages, refresh_if_expired, build_query; fold u.
  accounting_step u; [|accounting_step u].
  accounting_step u; [accounting_step u|].
  accounting_step u; [accounting_step u|].
  accounting_step u; [|accounting_step u].
  accounting_step u; [repeat accounting_step u|].
  accounting_step u; [repeat accounting_step u|].
  do 3 (accounting_step u; [accounting_step u|]).
  accounting_step u; [apply accounting_process_messages|].
  repeat accounting_step u.
Qed.

Lemma filter_credit (u : string) (n : nat) (rows : list Profiles.row) :
  filter (fun r => (Profiles.id r =? u)%string) (credit u n rows)
  = map (add_documents n) (filter (fun r => (Profiles.id r =? u)%string) rows).
Proof.
  induction rows as [|p rows IH]; [reflexivity|]; simpl.
  destruct (Profiles.id p =? u)%string eqn:E.
  - rewrite add_documents_id, E; simpl; f_equal; exact IH.
  - rewrite E; exact IH.
Qed.

Lemma single_map {A B} (f : A -> B) (l : list A) :
  single (map f l) = option_map f (single l).
Proof. destruct l as [|a [|b l]]; reflexivity. Qed.

Lemma select_profile_same (u : string) (d d' : Db) :
  profiles d' = profiles d -> fst (select_profile u d') = fst (select_profile u d).
Proof. intros H; unfold select_profile; simpl; rewrite H; reflexivity. Qed.

Lemma capped_same (u : string) (s s' : St) :
  db s' = db s -> trace s' = trace s -> capped u s s'.
Proof. intros Hd _ p Hp Hle; exists p; rewrite Hd; repeat split; assumption. Qed.

Lemma capped_trans (u : string) (s1 s2 s3 : St) :
  capped u s1 s2 -> capped u s2 s3 -> capped u s1 s3.
Proof.
  intros H12 H23 p Hp Hle.
  destruct (H12 p Hp Hle) as [p2 [Hp2 [Hl2 Hle2]]].
  destruct (H23 p2 Hp2 Hle2) as [p3 [Hp3 [Hl3 Hle3]]].
  exists p3; split; [exact Hp3 | split; [congruence | exact Hle3]].
Qed.

Lemma capped_quiet {A} (u : string) (c : M A) :
  (forall s, profiles (db (snd (c s))) = profiles (db s)) -> keeps (capped u) c.
Proof.
  intros H s p Hp Hle; exists p.
  rewrite (select_profile_same u _ _ (H s)); repeat split; assumption.
Qed.

Lemma capped_classify_document (w : World) (req : ClassifyRequest.t) :
  keeps (capped (ClassifyRequest.user_id req)) (classify_document w req).
Proof.
  intros s p Hsel Hle.
  destruct (classify_document_effect w req s) as [r [s' [E Hcase]]].
  rewrite E; simpl snd.
  destruct Hcase as [[msg [_ Hd]] | [[c [_ [_ [_ [Hp _]]]]]
                                    | [c [x [_ [_ [Hlim [_ [_ [_ [Hp _]]]]]]]]]]].
  - exists p; rewrite Hd; repeat split; assumption.
  - exists p; rewrite (select_profile_same _ _ _ Hp); repeat split; assumption.
  - rewrite Hsel in Hlim; simpl in Hlim; unfold Js.ge in Hlim.
    apply Z.leb_gt in Hlim.
    exists (add_documents 1 p); split; [|split; [reflexivity|]].
    + unfold select_profile in *; simpl in Hsel |- *.
      rewrite Hp, increment_document_count_credit, filter_credit, single_map, Hsel.
      reflexivity.
    + simpl; lia.
Qed.

Ltac capped_step u :=
  rel_step (capped u) (capped_same u) (capped_trans u)
    ltac:(apply capped_quiet; intros ?; unfold query, fetch;
          first [ reflexivity
                | unfold insert_processed_email; destruct (existsb _ _); reflexivity ]).

Lemma capped_process_messages (w : World) (u : string) (tok : option string)
    (ms : list string) :
  keeps (capped u) (process_messages w u tok ms).
Proof.
  assert (Hloop : forall m ps, keeps (capped u) (process_attachments w u tok m ps)).
  { intros m; induction ps as [|part ps IH]; simpl; [capped_step u|].
    capped_step u; [|exact IH].
    unfold process_attachment.
    do 4 (capped_step u; [capped_step u|]).
    capped_step u; [apply (capped_classify_document w (classify_request u m part a0))|].
    repeat capped_step u. }
  induction ms as [|m ms IH]; simpl; [capped_step u|].
  capped_step u; [|exact IH].
  unfold process_message, attachments_of.
  capped_step u; [|repeat capped_step u].
  do 4 (capped_step u; [capped_step u|]).
  capped_step u; [repeat capped_step u|].
  capped_step u; [apply Hloop|].
  repeat capped_step u.
Qed.

(** X13.  Run one after another, classifications never take a user past
    the limit: if the user's profile is within its limit before a scan
    ([document_count <= document_limit]), it is within the same limit after
    the scan, however many documents the scan accepted. *)
Theorem scan_stays_within_the_limit (w : World) (req : SyncRequest.t) (s : St)
    (p : Profiles.row) :
  fst (select_profile (SyncRequest.user_id req) (db s)) = Some p ->
  Js.to_number (Profiles.document_count p) <= Js.to_number (Profiles.document_limit p) ->
  exists p',
    fst (select_profile (SyncRequest.user_id req) (db (snd (gmail_sync w req s)))) = Some p'
    /\ Profiles.document_limit p' = Profiles.document_limit p
    /\ Js.to_number (Profiles.document_count p')
       <= Js.to_number (Profiles.document_limit p').
Proof.
  set (u := SyncRequest.user_id req).
  assert (H : keeps (capped u) (gmail_sync w req)); [|exact (H s p)].
  unfold gmail_sync; rewrite gmail_sync_body_unfold; fold u.
  unfold scan_with_token, scan_messages, refresh_if_expired, build_query; fold u.
  capped_step u; [|capped_step u].
  capped_step u; [capped_step u|].
  capped_step u; [capped_step u|].
  capped_step u; [|capped_step u].
  capped_step u; [repeat capped_step u|].
  capped_step u; [repeat capped_step u|].
  do 3 (capped_step u; [capped_step u|]).
  capped_step u; [apply capped_process_messages|].
  repeat capped_step u.
Qed.

Lemma scan_stays_within_the_limit_witness :
  let w := Scenario.world Scenario.granted [Scenario.pdf_part]
             Scenario.accepted_json (JsonValue Scenario.accepted) in
  let s := start (Scenario.store Scenario.token_row [Scenario.profile 4 5]) in
  exists p',
    fst (select_profile "u1" (db (snd (gmail_sync w Scenario.sync_request s)))) = Some p'
    /\ Js.to_number (Profiles.document_count p')
       <= Js.to_number (Profiles.document_limit p').
Proof.
  cbv zeta.
  destruct (scan_stays_within_the_limit
              (Scenario.world Scenario.granted [Scenario.pdf_part]
                 Scenario.accepted_json (JsonValue Scenario.accepted))
              Scenario.sync_request
              (start (Scenario.store Scenario.token_row [Scenario.profile 4 5]))
              (Scenario.profile 4 5) eq_refl) as [p' [H1 [_ H3]]];
    [vm_compute; discriminate|].
  exists p'; split; assumption.
Defined.

(** ** At the limit *)

Lemma classify_document_ill_formed (w : World) (req : ClassifyRequest.t) (s : St) :
  well_formed req = false ->
  classify_document w req s = (Return (ClassifyError "Missing required fields"), s).
Proof.
  intros H; unfold classify_document, classify_document_body, try_catch.
  rewrite H; reflexivity.
Qed.

Lemma at_limit_same (u : string) (s s' : St) :
  db s' = db s -> trace s' = trace s -> at_limit u s s'.
Proof.
  intros Hd Ht _; rewrite Hd; split; [apply logs_same; assumption | auto].
Qed.

Lemma at_limit_trans (u : string) (s1 s2 s3 : St) :
  at_limit u s1 s2 -> at_limit u s2 s3 -> at_limit u s1 s3.
Proof.
  intros H12 H23 Hlim.
  destruct (H12 Hlim) as [L1 [I1 P1]].
  destruct H23 as [L2 [I2 P2]].
  - rewrite (select_profile_same u _ _ P1); exact Hlim.
  - split; [eapply logs_trans; eassumption | split; congruence].
Qed.

Lemma at_limit_quiet {A} (u : string) (c : M A) :
  keeps (logs no_vision_call) c ->
  (forall s, invoices (db (snd (c s))) = invoices (db s)
             /\ profiles (db (snd (c s))) = profiles (db s)) ->
  keeps (at_limit u) c.
Proof. intros Hl H s _; split; [apply Hl | apply H]. Qed.

Lemma at_limit_classify_document (w : World) (req : ClassifyRequest.t) :
  keeps (at_limit (ClassifyRequest.user_id req)) (classify_document w req).
Proof.
  intros s Hlim.
  destruct (well_formed req) eqn:Hwf.
  - destruct (classify_document_blocked w req s Hwf Hlim) as [_ [Hd Ht]].
    rewrite Hd; split; [apply logs_same; assumption | auto].
  - rewrite (classify_document_ill_formed w req s Hwf); simpl.
    split; [apply logs_same; reflexivity | auto].
Qed.

Ltac at_limit_step u :=
  rel_step (at_limit u) (at_limit_same u) (at_limit_trans u)
    ltac:(apply at_limit_quiet;
          [ first [ apply logs_query | apply logs_fetch; exact I ]
          | intros ?; unfold query, fetch;
            first [ split; reflexivity
                  | unfold insert_processed_email;
                    destruct (existsb _ _); split; reflexivity ] ]).

Lemma at_limit_process_messages (w : World) (u : string) (tok : option string)
    (ms : list string) :
  keeps (at_limit u) (process_messages w u tok ms).
Proof.
  assert (Hloop : forall m ps, keeps (at_limit u) (process_attachments w u tok m ps)).
  { intros m; induction ps as [|part ps IH]; simpl; [at_limit_step u|].
    at_limit_step u; [|exact IH].
    unfold process_attachment.
    do 4 (at_limit_step u; [at_limit_step u|]).
    at_limit_step u;
      [apply (at_limit_classify_document w (classify_request u m part a0))|].
    repeat at_limit_step u. }
  induction ms as [|m ms IH]; simpl; [at_limit_step u|].
  at_limit_step u; [|exact IH].
  unfold process_message, attachments_of.
  at_limit_step u; [|repeat at_limit_step u].
  do 4 (at_limit_step u; [at_limit_step u|]).
  at_limit_step u; [repeat at_limit_step u|].
  at_limit_step u; [apply Hloop|].
  repeat at_limit_step u.
Qed.

(** X14.  For a user who is at or over the limit when the scan starts, the
    whole scan calls no vision model, writes no invoice and counts no
    document, whatever the mailbox holds. *)
Theorem scan_at_the_limit_classifies_nothing (w : World) (req : SyncRequest.t) (s : St) :
  limit_reached (fst (select_profile (SyncRequest.user_id req) (db s))) = true ->
  (exists calls,
     trace (snd (gmail_sync w req s)) = trace s ++ calls
     /\ Forall no_vision_call calls)
  /\ invoices (db (snd (gmail_sync w req s))) = invoices (db s)
  /\ profiles (db (snd (gmail_sync w req s))) = profiles (db s).
Proof.
  set (u := SyncRequest.user_id req).
  assert (H : keeps (at_limit u) (gmail_sync w req)); [|exact (H s)].
  unfold gmail_sync; rewrite gmail_sync_body_unfold; fold u.
  unfold scan_with_token, scan_messages, refresh_if_expired, build_query; fold u.
  at_limit_step u; [|at_limit_step u].
  at_limit_step u; [at_limit_step u|].
  at_limit_step u; [at_limit_step u|].
  at_limit_step u; [|at_limit_step u].
  at_limit_step u; [repeat at_limit_step u|].
  at_limit_step u; [repeat at_limit_step u|].
  do 3 (at_limit_step u; [at_limit_step u|]).
  at_limit_step u; [apply at_limit_process_messages|].
  repeat at_limit_step u.
Qed.

Lemma scan_at_the_limit_classifies_nothing_witness :
  let w := Scenario.world Scenario.granted [Scenario.pdf_part]
             Scenario.accepted_json (JsonValue Scenario.accepted) in
  let s := start (Scenario.store Scenario.token_row [Scenario.profile 5 5]) in
  invoices (db (snd (gmail_sync w Scenario.sync_request s))) = invoices (db s).
Proof.
  cbv zeta.
  refine (proj1 (proj2 (scan_at_the_limit_classifies_nothing
            (Scenario.world Scenario.granted [Scenario.pdf_part]
               Scenario.accepted_json (JsonValue Scenario.accepted))
            Scenario.sync_request
            (start (Scenario.store Scenario.token_row [Scenario.profile 5 5]))
            _))); reflexivity.
Defined.

(** ** Failures of the mail provider *)

(** X15.  A message that cannot be fetched, or whose reply has no payload,
    is recorded in the ledger as [error] with the failure's message as
    reason; nothing else is called for it and no other table changes.  (It
    then has a ledger row, so later scans skip it.) *)
Theorem unfetchable_message_is_recorded_as_error (w : World) (u : string)
    (tok : option string) (m : string) (s : St) (reason : string) :
  ledger_unique (db s) -> ~ has_row u m (db s) ->
  gmail_message w (length (trace s)) (bearer tok) m = NetworkError reason
  \/ gmail_message w (length (trace s)) (bearer tok) m = BodyNotJson reason
  \/ (gmail_message w (length (trace s)) (bearer tok) m = Json {| payload := None |}
      /\ reason = "Cannot read properties of undefined (reading 'parts')") ->
  exists s',
    process_message w u tok m s = (Return tt, s')
    /\ trace s' = trace s ++ [GmailGetMessage (bearer tok) m]
    /\ processed_emails (db s')
       = processed_emails (db s) ++ [ledger_row u m ProcessedEmails.error (Some reason)]
    /\ gmail_tokens (db s') = gmail_tokens (db s)
    /\ invoices (db s') = invoices (db s)
    /\ profiles (db s') = profiles (db s).
Proof.
  intros Hu Hno Hreply.
  destruct (select_processed_email_unique u m (db s) Hu) as [[Hrow _] | [_ [E _]]];
    [contradiction|].
  unfold process_message, try_catch, bind at 1, query at 1.
  unfold select_processed_email in *; simpl in E; simpl fst; simpl snd; rewrite E.
  unfold bind at 1, fetch at 1; simpl.
  assert (Hins : forall s1 : St,
             db s1 = db s ->
             exists s',
               (query (insert_processed_email
                         (ledger_row u m ProcessedEmails.error (Some reason)));; ret tt) s1
               = (Return tt, s')
               /\ trace s' = trace s1
               /\ processed_emails (db s')
                  = processed_emails (db s)
                    ++ [ledger_row u m ProcessedEmails.error (Some reason)]
               /\ gmail_tokens (db s') = gmail_tokens (db s)
               /\ invoices (db s') = invoices (db s)
               /\ profiles (db s') = profiles (db s)).
  { intros s1 Hd; unfold bind; rewrite record_outcome by (rewrite Hd; exact Hno).
    eexists; split; [reflexivity|]; simpl; rewrite Hd; repeat split. }
  destruct Hreply as [-> | [-> | [-> ->]]]; simpl json_of; unfold bind at 1.
  1,2: unfold throw; cbv beta iota.
  3: unfold ret at 1, attachments_of; simpl.
  all: match goal with
    | |- exists s', (query _ ;; ret tt) ?s1 = _ /\ _ =>
        destruct (Hins s1 eq_refl) as [s' [E' [Ht H]]];
        exists s'; split; [exact E' | split; [rewrite Ht; reflexivity | exact H]]
    end.
Qed.

Lemma unfetchable_message_is_recorded_as_error_witness :
  let w := {| clock := fun _ => Scenario.noon_2026_01_06;
              oauth_token := fun _ _ => Scenario.granted;
              gmail_search := fun _ _ _ => Json (Some ["m1"]);
              gmail_message := fun _ _ _ => NetworkError "connection reset";
              gmail_attachment := fun _ _ _ _ => Json None;
              openai := fun _ _ => AiUnreachable "down";
              JSON_parse := fun _ => SyntaxError;
              invoices_insert_error := fun _ => None |} in
  let s := start (Scenario.store Scenario.token_row []) in
  ledger_unique (db s)
  /\ exists s',
       process_message w "u1" (Some "access-0") "m1" s = (Return tt, s')
       /\ processed_emails (db s')
          = [ledger_row "u1" "m1" ProcessedEmails.error (Some "connection reset")].
Proof.
  cbv zeta; split; [constructor|].
  destruct (unfetchable_message_is_recorded_as_error
              {| clock := fun _ => Scenario.noon_2026_01_06;
                 oauth_token := fun _ _ => Scenario.granted;
                 gmail_search := fun _ _ _ => Json (Some ["m1"]);
                 gmail_message := fun _ _ _ => NetworkError "connection reset";
                 gmail_attachment := fun _ _ _ _ => Json None;
                 openai := fun _ _ => AiUnreachable "down";
                 JSON_parse := fun _ => SyntaxError;
                 invoices_insert_error := fun _ => None |}
              "u1" (Some "access-0") "m1"
              (start (Scenario.store Scenario.token_row []))
              "connection reset")
    as [s' [E [_ [Hpe _]]]].
  - constructor.
  - intros [].
  - left; reflexivity.
  - exists s'; split; [exact E | exact Hpe].
Defined.

(** ** Disconnecting *)

(** X16.  Once the settings page has deleted the user's credential rows, a
    scan for that user is answered with ['Gmail not connected'] without any
    remote call or write.  The delete removes no other user's credential
    and leaves the ledger, the invoices and the profiles in place. *)
Theorem scan_after_disconnect_is_refused (w : World) (req : SyncRequest.t) (s : St) :
  SyncRequest.user_id req <> "" ->
  let u := SyncRequest.user_id req in
  let d := snd (delete_gmail_tokens u (db s)) in
  (exists s',
     gmail_sync w req (with_db d s) = (Return (SyncError "Gmail not connected"), s')
     /\ db s' = d /\ trace s' = trace s)
  /\ tokens_of_others u d = tokens_of_others u (db s)
  /\ processed_emails d = processed_emails (db s)
  /\ invoices d = invoices (db s)
  /\ profiles d = profiles (db s).
Proof.
  intros Hu u d; split; [|split; [|repeat split]].
  - unfold gmail_sync; rewrite gmail_sync_body_unfold; fold u.
    apply String.eqb_neq in Hu; fold u in Hu; rewrite Hu.
    unfold try_catch, bind, query, select_gmail_token; simpl.
    assert (Hnone : filter (fun r => (GmailTokens.user_id r =? u)%string)
                      (filter (fun r => negb (GmailTokens.user_id r =? u)%string)
                         (gmail_tokens (db s))) = []).
    { induction (gmail_tokens (db s)) as [|r rows IH]; [reflexivity|]; simpl.
      destruct (GmailTokens.user_id r =? u)%string eqn:E; simpl; [exact IH|].
      rewrite E; exact IH. }
    rewrite Hnone; simpl.
    eexists; split; [reflexivity | split; reflexivity].
  - unfold d, tokens_of_others; simpl.
    induction (gmail_tokens (db s)) as [|r rows IH]; [reflexivity|]; simpl.
    destruct (GmailTokens.user_id r =? u)%string eqn:E; simpl; [exact IH|].
    rewrite E; simpl; f_equal; exact IH.
Qed.

Lemma scan_after_disconnect_is_refused_witness :
  let w := Scenario.world Scenario.granted [Scenario.pdf_part]
             Scenario.accepted_json (JsonValue Scenario.accepted) in
  let s := start (Scenario.store Scenario.token_row [Scenario.profile 0 5]) in
  exists s',
    gmail_sync w Scenario.sync_request
      (with_db (snd (delete_gmail_tokens "u1" (db s))) s)
    = (Return (SyncError "Gmail not connected"), s')
    /\ trace s' = trace s.
Proof.
  cbv zeta.
  destruct (scan_after_disconnect_is_refused
              (Scenario.world Scenario.granted [Scenario.pdf_part]
                 Scenario.accepted_json (JsonValue Scenario.accepted))
              Scenario.sync_request
              (start (Scenario.store Scenario.token_row [Scenario.profile 0 5])))
    as [[s' [E [_ Ht]]] _]; [discriminate|].
  exists s'; split; [exact E | exact Ht].
Defined.

(** ** The counters of the response *)

Lemma same_counters_trans (s1 s2 s3 : St) :
  same_counters s1 s2 -> same_counters s2 s3 -> same_counters s1 s3.
Proof. unfold same_counters; intros [] []; split; congruence. Qed.

Lemma same_counters_inert {A} (c : M A) :
  (forall s, processedCount (snd (c s)) = processedCount s
             /\ invoiceCount (snd (c s)) = invoiceCount s) ->
  keeps same_counters c.
Proof. intros H s; apply H. Qed.

Ltac inert_leaf :=
  intros ?; unfold ret, throw, query, fetch, Date_now, toISODate, toISOString, json_of;
  repeat match goal with
         | |- context [match ?x with _ => _ end] => destruct x
         | |- context [if ?b then _ else _] => destruct b
         end; split; reflexivity.

Ltac counters_step :=
  first
    [ apply (keeps_bind same_counters same_counters_trans); [|intros ?]
    | apply (keeps_try_catch same_counters same_counters_trans); [|intros ?]
    | apply same_counters_inert; inert_leaf
    | match goal with |- keeps _ (if ?b then _ else _) => destruct b end
    | match goal with |- keeps _ (match ?x with inl _ => _ | inr _ => _ end) =>
        destruct x end ].

(** [classify-document] has no access to the scanner's counters. *)
Lemma classify_document_counters (w : World) (req : ClassifyRequest.t) :
  keeps same_counters (classify_document w req).
Proof.
  unfold classify_document, classify_document_body.
  counters_step; [|counters_step].
  counters_step; [counters_step|].
  counters_step; [counters_step|].
  counters_step; [counters_step|].
  counters_step; [counters_step|].
  destruct (openai w a0 (image_url_of req)) as [e|e|e|content];
    try solve [counters_step].
  counters_step.
  - unfold parse_classification; destruct content as [content|]; [|counters_step].
    destruct (JSON_parse w (json_text content)); counters_step.
  - destruct a1 as [| |c]; try solve [counters_step].
    destruct (is_invoice c), (extracted c) as [x|];
      unfold materialize, reject; repeat counters_step.
Qed.

Lemma tally_refl (s : St) : tally s s.
Proof.
  exists [], [], 0%nat; rewrite !app_nil_r, !Nat.add_0_r; simpl.
  repeat split; reflexivity || lia.
Qed.

Lemma posts_app (a b : list Event) : posts (a ++ b) = (posts a + posts b)%nat.
Proof. unfold posts; rewrite filter_app, length_app; reflexivity. Qed.

Lemma tally_trans (s1 s2 s3 : St) : tally s1 s2 -> tally s2 s3 -> tally s1 s3.
Proof.
  intros [c1 [n1 [k1 [T1 [I1 [P1 [C1 [L1 U1]]]]]]]] [c2 [n2 [k2 [T2 [I2 [P2 [C2 [L2 U2]]]]]]]].
  exists (c1 ++ c2), (n1 ++ n2), (k1 + k2)%nat.
  rewrite T2, T1, I2, I1, P2, P1, C2, C1, !app_assoc, posts_app, length_app.
  repeat split; lia.
Qed.

Lemma tally_inert {A} (c : M A) :
  (forall s, trace (snd (c s)) = trace s
             /\ invoices (db (snd (c s))) = invoices (db s)
             /\ processedCount (snd (c s)) = processedCount s
             /\ invoiceCount (snd (c s)) = invoiceCount s) ->
  keeps tally c.
Proof.
  intros H s; destruct (H s) as [Ht [Hi [Hp Hc]]].
  exists [], [], 0%nat; rewrite Ht, Hi, Hp, Hc, !app_nil_r, !Nat.add_0_r; simpl.
  repeat split; reflexivity || lia.
Qed.

Lemma tally_fetch_other (e : Event) : is_post e = false -> keeps tally (fetch e).
Proof.
  intros He s; exists [e], [], 0%nat; simpl.
  unfold posts; simpl; rewrite He, app_nil_r, !Nat.add_0_r; simpl.
  repeat split; reflexivity || lia.
Qed.

Lemma posts_none (calls : list Event) :
  Forall (fun e => is_post e = false) calls -> posts calls = 0%nat.
Proof.
  induction 1 as [|e l He _ IH]; [reflexivity|].
  unfold posts in *; simpl; rewrite He; exact IH.
Qed.

Ltac tally_leaf :=
  apply tally_inert; intros ?;
  first
    [ solve [unfold query; simpl; repeat split; reflexivity]
    | unfold ret, throw, query, Date_now, toISODate, toISOString, json_of;
      repeat match goal with
             | |- context [match ?x with _ => _ end] => destruct x
             | |- context [if ?b then _ else _] => destruct b
             end; repeat split; reflexivity ].

Lemma tally_process_attachment (w : World) (u : string) (tok : option string)
    (m : string) (part : Part) :
  keeps tally (process_attachment w u tok m part).
Proof.
  intros s; unfold process_attachment.
  destruct (negb (Js.includes "pdf" (mimeType part))
            && negb (Js.includes "image" (mimeType part))); [apply tally_refl|].
  unfold bind at 1, fetch at 1; simpl.
  set (e1 := GmailGetAttachment (bearer tok) m (Js.render (attachmentId part))).
  destruct (gmail_attachment w (length (trace s)) (bearer tok) m
              (Js.render (attachmentId part))) as [e|e|file_data];
    simpl json_of; unfold bind at 1.
  1,2: unfold throw; simpl; exists [e1], [], 0%nat; simpl;
       rewrite app_nil_r, !Nat.add_0_r; repeat split; reflexivity || lia.
  unfold ret at 1, bind at 1, fetch at 1; simpl.
  set (request := classify_request u m part file_data).
  set (s2 := {| db := db s;
                trace := (trace s ++ [e1]) ++ [ClassifyDocument request];
                processedCount := processedCount s;
                invoiceCount := invoiceCount s |}).
  unfold bind at 1.
  destruct (logs_classify_document (fun e => is_post e = false) w request
              (fun _ => eq_refl) s2) as [calls [Ht Hf]].
  destruct (classify_document_counters w request s2) as [Hp Hc].
  destruct (classify_document_effect w request s2) as [r [s3 [E Hcase]]].
  rewrite E in *; simpl in Ht, Hp, Hc.
  apply posts_none in Hf.
  assert (Hposts : posts ([e1; ClassifyDocument request] ++ calls) = 1%nat)
    by (rewrite posts_app, Hf; reflexivity).
  assert (Htrace : forall s4, trace s4 = trace s3 ->
                    trace s4 = trace s ++ [e1; ClassifyDocument request] ++ calls).
  { intros s4 ->; rewrite Ht; unfold s2; simpl.
    rewrite <- !app_assoc; reflexivity. }
  destruct Hcase as [[msg [-> Hd]] | [[c [-> [_ [Hi _]]]]
                                     | [c [x [-> [Hinv [_ [_ [_ [Hi _]]]]]]]]]];
    simpl result_is_invoice.
  - unfold bind, count_invoice, count_processed, ret; simpl.
    exists ([e1; ClassifyDocument request] ++ calls), [], 0%nat.
    rewrite Hposts, Hd, Hp, Hc, app_nil_r; simpl.
    repeat split; try lia; apply Htrace; reflexivity.
  - destruct (is_invoice c);
      unfold bind, count_invoice, count_processed, ret; simpl;
      [ exists ([e1; ClassifyDocument request] ++ calls), [], 1%nat
      | exists ([e1; ClassifyDocument request] ++ calls), [], 0%nat ];
      cbn [db trace processedCount invoiceCount];
      rewrite Hposts, Hi, Hp, Hc, app_nil_r; simpl;
      repeat split; try lia; apply Htrace; reflexivity.
  - rewrite Hinv; unfold bind, count_invoice, count_processed, ret; simpl.
    eexists ([e1; ClassifyDocument request] ++ calls), _, 1%nat.
    cbn [db trace processedCount invoiceCount]; rewrite Hposts, Hp, Hc; simpl.
    split; [apply Htrace; reflexivity|].
    split; [exact Hi|]; simpl; repeat split; lia.
Qed.

Lemma tally_process_messages (w : World) (u : string) (tok : option string)
    (ms : list string) :
  keeps tally (process_messages w u tok ms).
Proof.
  assert (Hloop : forall m ps, keeps tally (process_attachments w u tok m ps)).
  { intros m; induction ps as [|part ps IH]; simpl; [tally_leaf|].
    apply (keeps_bind tally tally_trans);
      [apply tally_process_attachment | intros _; exact IH]. }
  induction ms as [|m ms IH]; simpl; [tally_leaf|].
  apply (keeps_bind tally tally_trans); [|intros _; exact IH].
  unfold process_message, attachments_of.
  apply (keeps_try_catch tally tally_trans).
  - apply (keeps_bind tally tally_trans); [tally_leaf|intros existing].
    destruct existing; [tally_leaf|].
    apply (keeps_bind tally tally_trans); [apply tally_fetch_other; reflexivity|intros t].
    apply (keeps_bind tally tally_trans); [tally_leaf|intros fullMessage].
    apply (keeps_bind tally tally_trans); [tally_leaf|intros atts].
    apply (keeps_bind tally tally_trans); [apply Hloop|intros _].
    apply (keeps_bind tally tally_trans); [|intros _; tally_leaf].
    apply tally_inert; intros s0; unfold query, insert_processed_email.
    destruct (existsb _ _); repeat split; reflexivity.
  - intros msg.
    apply (keeps_bind tally tally_trans); [|intros _; tally_leaf].
    apply tally_inert; intros s0; unfold query, insert_processed_email.
    destruct (existsb _ _); repeat split; reflexivity.
Qed.

Lemma before_the_loop_same (s s' : St) :
  db s' = db s -> trace s' = trace s -> before_the_loop s s'.
Proof.
  intros Hd Ht; split; [exists []; rewrite Ht, app_nil_r; split; reflexivity|].
  rewrite Hd; reflexivity.
Qed.

Lemma before_the_loop_trans (s1 s2 s3 : St) :
  before_the_loop s1 s2 -> before_the_loop s2 s3 -> before_the_loop s1 s3.
Proof.
  intros [[c1 [T1 P1]] I1] [[c2 [T2 P2]] I2]; split; [|congruence].
  exists (c1 ++ c2); rewrite T2, T1, app_assoc, posts_app, P1, P2; split; reflexivity.
Qed.

Lemma before_the_loop_fetch (e : Event) :
  is_post e = false -> keeps before_the_loop (fetch e).
Proof.
  intros He s; split; [|reflexivity].
  exists [e]; split; [reflexivity|]; unfold posts; simpl; rewrite He; reflexivity.
Qed.

Lemma before_the_loop_query {A} (q : Db -> A * Db) :
  (forall d, invoices (snd (q d)) = invoices d) -> keeps before_the_loop (query q).
Proof.
  intros Hq s; unfold query; specialize (Hq (db s)); destruct (q (db s)); simpl in *.
  split; [exists []; rewrite app_nil_r; split; reflexivity | exact Hq].
Qed.

Ltac before_step :=
  rel_step before_the_loop before_the_loop_same before_the_loop_trans
    ltac:(first [ apply before_the_loop_fetch; reflexivity
                | apply before_the_loop_query; intros ?; reflexivity ]).

Lemma refresh_before_the_loop (w : World) (u : string) (tokenData : GmailTokens.row) :
  keeps before_the_loop (refresh_if_expired w u tokenData).
Proof. unfold refresh_if_expired; repeat before_step. Qed.

Lemma build_query_before_the_loop (w : World) (b : bool) (tokenData : GmailTokens.row) :
  keeps before_the_loop (build_query w b tokenData).
Proof. unfold build_query; repeat before_step. Qed.

(** What [scan_messages] answers when it answers. *)
Lemma scan_messages_tally (w : World) (req : SyncRequest.t) (tok : option string)
    (ms : list string) (s : St) (r : SyncResponse) (s' : St) :
  scan_messages w req tok ms s = (Return r, s') ->
  exists calls new p i,
    r = SyncOk p i (length ms)
    /\ trace s' = trace s ++ calls
    /\ invoices (db s') = invoices (db s) ++ new
    /\ p = posts calls
    /\ (length new <= i)%nat /\ (i <= p)%nat.
Proof.
  unfold scan_messages, bind at 1, reset_counters at 1.
  set (s0 := {| db := db s; trace := trace s; processedCount := 0; invoiceCount := 0 |}).
  unfold bind at 1.
  destruct (tally_process_messages w (SyncRequest.user_id req) tok (firstn 20 ms) s0)
    as [calls [new [k [Ht [Hi [Hp [Hc [Hl Hk]]]]]]]].
  destruct (process_messages_returns w (SyncRequest.user_id req) tok (firstn 20 ms) s0)
    as [s2 E]; rewrite E in *; simpl in Ht, Hi, Hp, Hc.
  unfold bind at 1, Date_now at 1, bind at 1; simpl.
  destruct (JsDate.valid (clock w (length (trace s2)))); [|discriminate].
  unfold ret at 1, bind at 1, query at 1; simpl.
  unfold bind, read_counters, ret; simpl.
  intros H; injection H as <- <-; simpl.
  exists calls, new, (posts calls), k.
  rewrite Hp, Hc; repeat split; assumption || lia.
Qed.

(** X17.  The counters of a successful scan: [processed] is the number of
    documents posted to [classify-document], whether or not the classifier
    could handle them; [invoices_found] is at most [processed] and at least
    the number of invoices the scan wrote (it also counts a verdict with
    [is_invoice] but without data, for which nothing is written). *)
Theorem response_counters (w : World) (req : SyncRequest.t) (s s' : St)
    (p i n : nat) :
  gmail_sync w req s = (Return (SyncOk p i n), s') ->
  exists calls new,
    trace s' = trace s ++ calls
    /\ invoices (db s') = invoices (db s) ++ new
    /\ p = posts calls
    /\ (length new <= i)%nat /\ (i <= p)%nat.
Proof.
  unfold gmail_sync; rewrite gmail_sync_body_unfold; unfold try_catch.
  destruct (SyncRequest.user_id req =? "")%string; [discriminate|].
  unfold bind at 1, query at 1, select_gmail_token; simpl.
  destruct (single (filter _ (gmail_tokens (db s)))) as [tokenData|]; [|discriminate].
  unfold bind at 1.
  pose proof (refresh_before_the_loop w (SyncRequest.user_id req) tokenData
                (with_db (db s) s)) as H1.
  destruct (refresh_if_expired w (SyncRequest.user_id req) tokenData (with_db (db s) s))
    as [[tok|msg] s1]; [|discriminate]; simpl in H1.
  unfold scan_with_token, bind at 1.
  pose proof (build_query_before_the_loop w (SyncRequest.initial_sync req) tokenData s1)
    as H2.
  destruct (build_query w (SyncRequest.initial_sync req) tokenData s1)
    as [[q|msg] s2]; [|discriminate]; simpl in H2.
  unfold bind at 1, fetch at 1; simpl.
  destruct (gmail_search w (length (trace s2)) (bearer tok) q) as [e|e|searchData];
    simpl json_of; unfold bind at 1; try discriminate.
  unfold ret at 1.
  match goal with
  | |- (let (o, s0) := scan_messages w req tok ?ms ?s3 in _) = _ -> _ =>
      destruct (scan_messages w req tok ms s3) as [[r|msg] s4] eqn:E; [|discriminate];
      destruct (scan_messages_tally w req tok ms s3 r s4 E)
        as [calls [new [p' [i' [Hr [Ht [Hi [Hp [Hl Hk]]]]]]]]]
  end.
  intros H; injection H as -> <-; injection Hr as -> -> _.
  destruct H1 as [[c1 [T1 P1]] I1], H2 as [[c2 [T2 P2]] I2]; simpl in *.
  exists (c1 ++ c2 ++ [GmailSearch (bearer tok) q] ++ calls), new.
  rewrite Ht, T2, T1, Hi, I2, I1, !posts_app, P1, P2, <- !app_assoc; simpl.
  repeat split; assumption || reflexivity.
Qed.

Lemma response_counters_witness :
  let w := Scenario.world Scenario.granted [Scenario.pdf_part]
             Scenario.accepted_without_data_json
             (JsonValue Scenario.accepted_without_data) in
  let s := start (Scenario.store Scenario.token_row [Scenario.profile 0 5]) in
  exists calls new,
    trace (snd (gmail_sync w Scenario.sync_request s)) = trace s ++ calls
    /\ invoices (db (snd (gmail_sync w Scenario.sync_request s))) = invoices (db s) ++ new
    /\ 1%nat = posts calls
    /\ (length new <= 1)%nat.
Proof.
  cbv zeta.
  destruct (response_counters
              (Scenario.world Scenario.granted [Scenario.pdf_part]
                 Scenario.accepted_without_data_json
                 (JsonValue Scenario.accepted_without_data))
              Scenario.sync_request
              (start (Scenario.store Scenario.token_row [Scenario.profile 0 5]))
              (snd (gmail_sync
                      (Scenario.world Scenario.granted [Scenario.pdf_part]
                         Scenario.accepted_without_data_json
                         (JsonValue Scenario.accepted_without_data))
                      Scenario.sync_request
                      (start (Scenario.store Scenario.token_row
                                [Scenario.profile 0 5]))))
              1%nat 1%nat 1%nat)
    as [calls [new [Ht [Hi [Hp [Hl _]]]]]]; [vm_compute; reflexivity|].
  exists calls, new; repeat split; assumption.
Defined.

(** ** The text handed to [JSON.parse] *)

Lemma index_here (p s : string) : prefix p s = true -> index 0 p s = Some 0%nat.
Proof.
  intros H; destruct s as [|a s]; simpl.
  - destruct p; [reflexivity | discriminate].
  - simpl in H; rewrite H; reflexivity.
Qed.

Lemma prefix_app (p s : string) : prefix p (p ++ s)%string = true.
Proof.
  induction p as [|c p IH]; simpl; [destruct s; reflexivity|].
  destruct (ascii_dec c c); [exact IH | congruence].
Qed.

Lemma lacks_head (c a : ascii) (s : string) :
  lacks c (String a s) = true -> a <> c /\ lacks c s = true.
Proof.
  simpl; intros H; apply andb_true_iff in H; destruct H as [H1 H2]; split; [|exact H2].
  intros ->; rewrite Ascii.eqb_refl in H1; discriminate.
Qed.

Lemma lacks_app (c : ascii) (a b : string) :
  lacks c (a ++ b)%string = lacks c a && lacks c b.
Proof.
  induction a as [|x a IH]; simpl; [reflexivity|].
  rewrite IH, andb_assoc; reflexivity.
Qed.

Lemma prefix_head_differs (c a : ascii) (p s : string) :
  a <> c -> prefix (String c p) (String a s) = false.
Proof. intros H; simpl; destruct (ascii_dec c a); [congruence | reflexivity]. Qed.

Lemma prefix_cons (c a : ascii) (p s : string) :
  prefix (String c p) (String a s) = if ascii_dec c a then prefix p s else false.
Proof. reflexivity. Qed.

(** The first occurrence of a pattern is not in a stretch without its first
    character. *)
Lemma index_skip (c : ascii) (p pre rest : string) :
  lacks c pre = true ->
  index 0 (String c p) (pre ++ rest)%string
  = option_map (Nat.add (String.length pre)) (index 0 (String c p) rest).
Proof.
  induction pre as [|a pre IH]; intros H.
  - simpl; destruct (index 0 (String c p) rest); reflexivity.
  - apply lacks_head in H; destruct H as [Ha H].
    change (String a pre ++ rest)%string with (String a (pre ++ rest)%string).
    cbn [index]; rewrite (prefix_head_differs c a p _ Ha), (IH H).
    destruct (index 0 (String c p) rest); reflexivity.
Qed.

Lemma index_none (c : ascii) (p s : string) :
  lacks c s = true -> index 0 (String c p) s = None.
Proof.
  induction s as [|a s IH]; intros H; [reflexivity|].
  apply lacks_head in H; destruct H as [Ha H].
  cbn [index]; rewrite (prefix_head_differs c a p _ Ha), (IH H); reflexivity.
Qed.

Lemma index_from (p a b : string) :
  index (String.length a) p (a ++ b)%string
  = option_map (Nat.add (String.length a)) (index 0 p b).
Proof.
  induction a as [|x a IH].
  - simpl; destruct (index 0 p b); reflexivity.
  - change (String x a ++ b)%string with (String x (a ++ b)%string).
    cbn [index String.length]; rewrite IH; destruct (index 0 p b); reflexivity.
Qed.

Lemma substring_here (b c : string) :
  substring 0 (String.length b) (b ++ c)%string = b.
Proof.
  induction b as [|x b IH]; simpl; [destruct c; reflexivity|].
  rewrite IH; reflexivity.
Qed.

Lemma substring_middle (a b c : string) :
  substring (String.length a) (String.length b) (a ++ b ++ c)%string = b.
Proof.
  induction a as [|x a IH]; simpl; [apply substring_here | exact IH].
Qed.

Lemma length_app (a b : string) :
  String.length (a ++ b)%string = (String.length a + String.length b)%nat.
Proof. induction a as [|x a IH]; simpl; [reflexivity | rewrite IH; reflexivity]. Qed.

Lemma app_assoc_string (a b c : string) :
  ((a ++ b) ++ c)%string = (a ++ b ++ c)%string.
Proof. induction a as [|x a IH]; simpl; [reflexivity | rewrite IH; reflexivity]. Qed.

(** The closing fence is first met where a body without backticks ends. *)
Lemma closing_fence_after (body post : string) :
  lacks "`"%char body = true ->
  index 0 fence_close (body ++ fence_close ++ post)%string
  = Some (String.length body).
Proof.
  induction body as [|c body IH]; intros H.
  - change ("" ++ fence_close ++ post)%string with (fence_close ++ post)%string.
    apply index_here, prefix_app.
  - apply lacks_head in H; destruct H as [Hc H].
    change (String c body ++ fence_close ++ post)%string
      with (String c (body ++ fence_close ++ post)%string).
    cbn [index].
    replace (prefix fence_close (String c (body ++ fence_close ++ post)%string))
      with false.
    + rewrite (IH H); reflexivity.
    + symmetry; change fence_close with (String (ascii_of_nat 10) "```").
      rewrite prefix_cons; destruct (ascii_dec (ascii_of_nat 10) c); [|reflexivity].
      destruct body as [|c1 body].
      * change ("" ++ String (ascii_of_nat 10) "```" ++ post)%string
          with (String (ascii_of_nat 10) ("```" ++ post)%string).
        apply prefix_head_differs; intros E; vm_compute in E; discriminate.
      * apply lacks_head in H; destruct H as [Hc1 _].
        apply (prefix_head_differs "`" c1 "``" _ Hc1).
Qed.

Lemma match_fenced_finds (pre body post : string) :
  lacks "`"%char pre = true ->
  lacks "`"%char body = true ->
  exists whole,
    match_fenced (pre ++ fence_open ++ body ++ fence_close ++ post)%string
    = Some (whole, body).
Proof.
  intros Hpre Hbody; unfold match_fenced.
  assert (Hi : index 0 fence_open (pre ++ fence_open ++ body ++ fence_close ++ post)%string
               = Some (String.length pre)).
  { unfold fence_open at 1; simpl append at 1.
    rewrite (index_skip _ _ pre _ Hpre).
    change (String "`" (String "`" (String "`" (String "j" (String "s"
              (String "o" (String "n" newline))))))) with fence_open.
    rewrite (index_here _ _ (prefix_app fence_open _)); simpl.
    rewrite Nat.add_0_r; reflexivity. }
  rewrite Hi.
  rewrite <- (length_app pre fence_open), <- (app_assoc_string pre fence_open).
  rewrite index_from, (closing_fence_after body post Hbody); simpl option_map.
  eexists; f_equal; f_equal.
  rewrite Nat.add_comm, Nat.add_sub.
  apply substring_middle.
Qed.

(** X18.  A reply that wraps its JSON in a markdown fence is parsed as the
    text inside the fence: whatever the model writes before the opening
    fence [```json] and after the closing one is dropped, as are the fences
    themselves, provided neither the text before nor the fenced body holds
    a backtick, and the body is not empty. *)
Theorem fenced_reply_is_unwrapped (pre body post : string) :
  lacks "`"%char pre = true ->
  lacks "`"%char body = true ->
  body <> ""%string ->
  json_text (pre ++ fence_open ++ body ++ fence_close ++ post)%string = body.
Proof.
  intros Hpre Hbody Hne; unfold json_text.
  destruct (match_fenced_finds pre body post Hpre Hbody) as [whole ->].
  destruct (String.eqb_spec body ""); [contradiction | reflexivity].
Qed.

Lemma fenced_reply_is_unwrapped_witness :
  json_text ("Here you go:" ++ newline ++ fence_open ++ Scenario.accepted_json
             ++ fence_close ++ newline ++ "Anything else?")%string
  = Scenario.accepted_json.
Proof.
  rewrite <- app_assoc_string.
  apply (fenced_reply_is_unwrapped ("Here you go:" ++ newline) Scenario.accepted_json
           (newline ++ "Anything else?"));
    [reflexivity | reflexivity | discriminate].
Defined.

Lemma last_index_none (c : ascii) (s : string) :
  lacks c s = true -> Js.last_index c s = None.
Proof.
  induction s as [|a s IH]; intros H; [reflexivity|].
  apply lacks_head in H; destruct H as [Ha H]; simpl; rewrite (IH H).
  destruct (Ascii.eqb_spec a c); [contradiction | reflexivity].
Qed.

Lemma last_index_app (c : ascii) (a post : string) :
  lacks c post = true ->
  Js.last_index c (a ++ String c post)%string = Some (String.length a).
Proof.
  intros H; induction a as [|x a IH]; simpl.
  - rewrite (last_index_none c post H), Ascii.eqb_refl; reflexivity.
  - rewrite IH; reflexivity.
Qed.

(** X19.  A reply without backticks is cut down to the stretch from its
    first opening brace to its last closing brace before it is parsed: the
    words the model puts around a JSON object do not reach [JSON.parse]. *)
Theorem chatter_around_the_object_is_dropped (pre mid post : string) :
  lacks "`"%char (pre ++ "{" ++ mid ++ "}" ++ post)%string = true ->
  lacks "{"%char pre = true ->
  lacks "}"%char post = true ->
  json_text (pre ++ "{" ++ mid ++ "}" ++ post)%string = ("{" ++ mid ++ "}")%string.
Proof.
  intros Hfence Hpre Hpost; unfold json_text, match_fenced.
  unfold fence_open at 1; simpl append at 1.
  rewrite (index_none _ _ _ Hfence).
  unfold match_braces.
  rewrite (index_skip _ _ pre _ Hpre).
  rewrite (index_here "{" _ (prefix_app "{" _)); simpl option_map.
  replace (pre ++ "{" ++ mid ++ "}" ++ post)%string
    with ((pre ++ "{" ++ mid) ++ String "}" post)%string
    by (rewrite !app_assoc_string; reflexivity).
  rewrite (last_index_app _ _ _ Hpost), !length_app.
  change (String.length "{") with 1%nat.
  replace (String.length pre + 0 <? String.length pre + (1 + String.length mid))%nat
    with true by (symmetry; apply Nat.ltb_lt; lia).
  replace (String.length pre + (1 + String.length mid) - (String.length pre + 0) + 1)%nat
    with (String.length ("{" ++ mid ++ "}")%string)
    by (rewrite !length_app; simpl; lia).
  rewrite Nat.add_0_r.
  replace ((pre ++ "{" ++ mid) ++ String "}" post)%string
    with (pre ++ ("{" ++ mid ++ "}") ++ post)%string
    by (rewrite !app_assoc_string; reflexivity).
  apply substring_middle.
Qed.

Lemma chatter_around_the_object_is_dropped_witness :
  json_text ("Sure. " ++ Scenario.accepted_without_data_json ++ " Done.")%string
  = Scenario.accepted_without_data_json.
Proof.
  apply (chatter_around_the_object_is_dropped "Sure. "
           (substring 1 (String.length Scenario.accepted_without_data_json - 2)
              Scenario.accepted_without_data_json)
           " Done."); reflexivity.
Defined.

(** ** The lower bound of an initial scan *)

Ltac split_ifs :=
  repeat match goal with
         | |- context [if ?b then _ else _] =>
             match b with
             | Z.leb ?x ?y => destruct (Z.leb_spec x y)
             | Z.ltb ?x ?y => destruct (Z.ltb_spec x y)
             end
         end.
Ltac divs := Z.div_mod_to_equations; lia.

(** [civil_from_days] finds the year of the era. *)
Lemma year_of_era (r D : Z) :
  0 <= r <= 399 -> 0 <= D < year_length r ->
  let doe := year_start r + D in
  0 <= doe < 146097
  /\ (doe - doe / 1460 + doe / 36524 - doe / 146096) / 365 = r.
Proof. unfold year_length, year_start; cbv zeta; intros Hr H; split; divs. Qed.

Lemma civil_from_days_spec (q r D : Z) :
  0 <= r <= 399 -> 0 <= D < year_length r ->
  JsDate.civil_from_days (day_number q r D) = civil (r + 400 * q) D.
Proof.
  intros Hr HD; destruct (year_of_era r D Hr HD) as [Hdoe Hyoe]; cbv zeta in *.
  unfold JsDate.civil_from_days, day_number; cbv zeta.
  replace (146097 * q + year_start r + D - 719468 + 719468)
    with (year_start r + D + q * 146097) by lia.
  rewrite Z.div_add, (Z.div_small _ _ Hdoe) by lia.
  replace (year_start r + D + q * 146097 - (0 + q) * 146097) with (year_start r + D) by lia.
  rewrite Hyoe.
  replace (year_start r + D - (365 * r + r / 4 - r / 100)) with D by (unfold year_start; lia).
  unfold civil, month_day; cbv zeta.
  replace (r + (0 + q) * 400) with (r + 400 * q) by lia; reflexivity.
Qed.

Lemma civil_from_days_inv (z : Z) :
  exists q r D, 0 <= r <= 399 /\ 0 <= D < year_length r /\ z = day_number q r D.
Proof.
  set (z' := z + 719468).
  set (era := z' / 146097).
  set (doe := z' - era * 146097).
  set (yoe := (doe - doe / 1460 + doe / 36524 - doe / 146096) / 365).
  assert (Hdoe : 0 <= doe < 146097) by (unfold doe, era; divs).
  assert (Hz : z = 146097 * era + doe - 719468) by (unfold doe, z'; lia).
  exists era, yoe, (doe - year_start yoe).
  clearbody doe era; clear z'.
  assert (Hyoe : 0 <= yoe <= 399) by (unfold yoe; divs).
  assert (HD : 0 <= doe - year_start yoe < year_length yoe)
    by (unfold year_length, year_start, yoe; divs).
  unfold day_number; repeat split; try tauto; lia.
Qed.

Lemma month_day_range (D : Z) :
  0 <= D <= 365 ->
  let '(m, d) := month_day D in
  1 <= m <= 12 /\ 1 <= d <= 31
  /\ (if 2 <? m then m - 3 else m + 9) = (5 * D + 2) / 153
  /\ (D = 365 <-> m = 2 /\ d = 29).
Proof. intros H; unfold month_day; cbv zeta; split_ifs; divs. Qed.

Lemma days_from_civil_spec (q r D : Z) :
  0 <= r <= 399 -> 0 <= D <= 365 ->
  let '(y, m, d) := civil (r + 400 * q) D in
  JsDate.days_from_civil y m d = day_number q r D.
Proof.
  intros Hr HD; unfold civil.
  pose proof (month_day_range D HD) as H; unfold month_day in *; cbv zeta in *.
  set (mp := (5 * D + 2) / 153) in *.
  set (m := if mp <? 10 then mp + 3 else mp - 9) in *.
  destruct H as [Hm [Hd [Hmp _]]].
  unfold JsDate.days_from_civil, day_number; cbv zeta.
  rewrite Hmp.
  replace (if m <=? 2 then (if m <=? 2 then r + 400 * q + 1 else r + 400 * q) - 1
           else if m <=? 2 then r + 400 * q + 1 else r + 400 * q)
    with (r + q * 400) by (destruct (m <=? 2); lia).
  rewrite Z.div_add, (Z.div_small r 400) by lia.
  replace (r + q * 400 - (0 + q) * 400) with r by lia.
  unfold year_start; lia.
Qed.

Lemma year_lengths (r : Z) :
  0 <= r <= 399 ->
  365 <= year_length r <= 366
  /\ (1 <= r -> year_start r - year_start (r - 1) = year_length (r - 1))
  /\ (1 <= r -> year_length r = 366 -> year_length (r - 1) = 365)
  /\ year_length 0 = 365 /\ year_start 0 = 0 /\ year_start 399 = 145731.
Proof. intros H; unfold year_length, year_start; repeat split; divs. Qed.

Lemma civil_previous_year (Y D : Z) :
  let '(y, m, d) := civil Y D in civil (Y - 1) D = (y - 1, m, d).
Proof.
  unfold civil; destruct (month_day D) as [m d]; destruct (m <=? 2); f_equal; f_equal; lia.
Qed.

(** The day one year before day [z]. *)
Lemma one_year_back (z : Z) :
  let '(y, m, d) := JsDate.civil_from_days z in
  let z1 := JsDate.days_from_civil (y - 1) m d in
  (z1 = z - 365 \/ z1 = z - 366)
  /\ JsDate.civil_from_days z1
     = if (m =? 2) && (d =? 29) then (y - 1, 3, 1) else (y - 1, m, d).
Proof.
  destruct (civil_from_days_inv z) as [q [r [D [Hr [HD ->]]]]].
  rewrite (civil_from_days_spec q r D Hr HD).
  pose proof (year_lengths r Hr) as [Hlen [Hprev [Hleap [Hlen0 [Hst0 Hst399]]]]].
  assert (HD' : 0 <= D <= 365) by lia.
  pose proof (month_day_range D HD') as Hmd.
  pose proof (civil_previous_year (r + 400 * q) D) as Hcp.
  destruct (civil (r + 400 * q) D) as [[y m] d] eqn:Hc.
  assert (Hyear : exists q' r', 0 <= r' <= 399 /\ r' + 400 * q' = r + 400 * q - 1
                   /\ day_number q' r' D = day_number q r D - year_length r'
                   /\ (D = 365 -> year_length r' = 365 /\ q' = q /\ r' = r - 1)).
  { destruct (Z.eq_dec r 0) as [->|Hne].
    - exists (q - 1), 399; pose proof (year_lengths 399 ltac:(lia)) as [Hl _].
      unfold day_number; repeat split; try lia;
        unfold year_length, year_start in *; divs.
    - exists q, (r - 1); unfold day_number; repeat split; lia. }
  destruct Hyear as [q' [r' [Hr' [HY [Hday Hfeb]]]]].
  pose proof (year_lengths r' Hr') as [Hlen' _].
  pose proof (days_from_civil_spec q' r' D Hr' HD') as Hdfc.
  rewrite HY, Hcp in Hdfc.
  cbv zeta; rewrite Hdfc, Hday; split; [lia|].
  unfold civil in Hc; destruct (month_day D) as [m0 d0] eqn:Hm0.
  injection Hc as Hy <- <-.
  destruct Hmd as [_ [_ [_ Hiff]]].
  destruct (Z.eq_dec D 365) as [HD365|HD365].
  - destruct (Hfeb HD365) as [Hl365 [-> ->]].
    destruct (proj1 Hiff HD365) as [-> ->]; simpl.
    replace (day_number q r D - year_length (r - 1)) with (day_number q r 0)
      by (unfold day_number; rewrite Hl365; specialize (Hprev ltac:(lia)); lia).
    rewrite (civil_from_days_spec q r 0 Hr ltac:(lia)).
    unfold civil, month_day; simpl in Hy |- *; f_equal; f_equal; lia.
  - rewrite <- Hday, (civil_from_days_spec q' r' D Hr' ltac:(lia)), HY.
    replace ((m0 =? 2) && (d0 =? 29)) with false.
    + exact Hcp.
    + symmetry; apply andb_false_iff.
      destruct (Z.eqb_spec m0 2); [|left; reflexivity].
      destruct (Z.eqb_spec d0 29); [|right; reflexivity].
      exfalso; apply HD365, Hiff; split; assumption.
Qed.

Lemma day_of_instant (z t : Z) :
  0 <= t < JsDate.ms_per_day -> JsDate.day (z * JsDate.ms_per_day + t) = z.
Proof.
  intros Ht; unfold JsDate.day.
  rewrite Z.add_comm, Z.div_add by (unfold JsDate.ms_per_day; lia).
  rewrite Z.div_small by exact Ht; reflexivity.
Qed.

(** X20.  An initial scan searches from one calendar year back: the lower
    bound of the query is the instant 365 or 366 days before now, at the
    same time of day, and it falls on the same month and day of the
    previous year (on 1 March when now is a 29 February).  The stored
    last-sync instant plays no part. *)
Theorem initial_scan_reaches_back_one_year (last : option Z) (now : Z) :
  let bound := lower_bound true last now in
  (bound = now - 365 * JsDate.ms_per_day \/ bound = now - 366 * JsDate.ms_per_day)
  /\ JsDate.time_within_day bound = JsDate.time_within_day now
  /\ JsDate.civil_from_days (JsDate.day bound)
     = let '(y, m, d) := JsDate.civil_from_days (JsDate.day now) in
       if (m =? 2) && (d =? 29) then (y - 1, 3, 1) else (y - 1, m, d).
Proof.
  cbv zeta; unfold lower_bound, JsDate.minus_one_year.
  pose proof (one_year_back (JsDate.day now)) as H.
  assert (Ht : 0 <= JsDate.time_within_day now < JsDate.ms_per_day)
    by (apply Z.mod_pos_bound; unfold JsDate.ms_per_day; lia).
  assert (Hnow : now = JsDate.day now * JsDate.ms_per_day + JsDate.time_within_day now).
  { unfold JsDate.day, JsDate.time_within_day.
    pose proof (Z.div_mod now JsDate.ms_per_day) as D; unfold JsDate.ms_per_day in *; lia. }
  destruct (JsDate.civil_from_days (JsDate.day now)) as [[y m] d].
  cbv zeta in H; destruct H as [H1 H2].
  rewrite (day_of_instant _ _ Ht), H2.
  split; [|split; [|reflexivity]].
  - destruct H1 as [H1|H1]; [left | right]; lia.
  - unfold JsDate.time_within_day at 1.
    rewrite Z.add_comm, Z.mod_add by (unfold JsDate.ms_per_day; lia).
    apply Z.mod_small; exact Ht.
Qed.
